(** * max78000-horse-human-classifier: capture, classification and export

    A shallow embedding of the pipeline's C sources
    ([camera_utils.c], [inference_utils.c], [serial_stream.c],
    [display_utils.c], [main.c]) together with the properties the
    specification states about them.

    Conventions.
    - A C integer is a [Z]; every conversion to a fixed-width type is
      written out ([u8], [u16], [u32], [int32]).
    - Console output ([printf], [putchar]) is a [list ascii].
    - A pointer argument is an [option]: [None] is [NULL].
    - A function whose C meaning can be undefined (a read or write through
      [NULL] or outside an array) or whose loop waits on hardware returns a
      [run] value. *)

From Stdlib Require Import Ascii String DecimalString ZArith List Lia Bool.
From coqutil Require Import Z.bitblast.
Import ListNotations.
Local Open Scope Z_scope.

(* ================================================================== *)
(** ** Fixed-width integers *)

Module CInt.

Definition u8 (x : Z) : Z := x mod 2 ^ 8.
Definition u16 (x : Z) : Z := x mod 2 ^ 16.
Definition u32 (x : Z) : Z := x mod 2 ^ 32.

(** [int]: 32-bit two's complement.  Signed overflow is undefined in C;
    the target (arm-none-eabi-gcc) wraps, and so does the model. *)
Definition int32 (x : Z) : Z := (x + 2 ^ 31) mod 2 ^ 32 - 2 ^ 31.

Definition INT_MAX : Z := 2 ^ 31 - 1.

Definition is_u8 (x : Z) : Prop := 0 <= x < 256.
Definition is_u32 (x : Z) : Prop := 0 <= x < 2 ^ 32.
Definition is_int (x : Z) : Prop := - 2 ^ 31 <= x < 2 ^ 31.

End CInt.
Import CInt.

(* ================================================================== *)
(** ** Outcome of a run *)

Inductive run (A : Type) : Type :=
| Done (a : A)     (* the function returned *)
| Undefined        (* access through NULL or outside an array *)
| Waiting.         (* still inside a hardware wait loop when the
                      recorded hardware answers (or the fuel) ran out *)
Arguments Done {A} a.
Arguments Undefined {A}.
Arguments Waiting {A}.

Definition bind {A B} (m : run A) (k : A -> run B) : run B :=
  match m with
  | Done a => k a
  | Undefined => Undefined
  | Waiting => Waiting
  end.

Notation "x <- m ;; k" := (bind m (fun x => k))
  (at level 61, m at next level, right associativity).
Notation "' p <- m ;; k" := (bind m (fun p => k))
  (at level 61, p pattern, m at next level, right associativity).

(** [for (i = 0; i < n; i++)] with [i] an [int]: the indices visited. *)
Definition upto (n : Z) : list Z := map Z.of_nat (seq 0 (Z.to_nat n)).

(** Run [body] over the indices in order, threading the state. *)
Fixpoint for_each {S} (idx : list Z) (body : Z -> S -> run S) (s : S) : run S :=
  match idx with
  | [] => Done s
  | i :: rest => s' <- body i s ;; for_each rest body s'
  end.

(** [p[i]] for a pointer to an array whose cells are [buf]. *)
Definition load (buf : list Z) (i : Z) : run Z :=
  if i <? 0 then Undefined
  else match nth_error buf (Z.to_nat i) with
       | Some v => Done v
       | None => Undefined
       end.

(** The cells of an array after [a[i] = v], for [i] inside it. *)
Fixpoint update (i : nat) (v : Z) (cells : list Z) : list Z :=
  match cells, i with
  | [], _ => []
  | _ :: rest, O => v :: rest
  | c :: rest, S i' => c :: update i' v rest
  end.

(* ================================================================== *)
(** ** Text *)

Definition text (s : string) : list ascii := list_ascii_of_string s.

(** [printf("%d", n)] *)
Definition fmt_d (n : Z) : list ascii :=
  text (NilZero.string_of_int (Z.to_int n)).

Definition nl : ascii := "010"%char.
Definition cr : ascii := "013"%char.

(** A string followed by a newline. *)
Definition line (s : string) : list ascii := text s ++ [nl].

(* ================================================================== *)
(** ** PixelCodec: the packed accelerator word *)

Module PixelCodec.

Definition BIAS : Z := 0x00808080.

(** camera_utils.c, camera_utils_capture:
    [cnn_buffer[cnt] = ((uint32_t)b << 16) | ((uint32_t)g << 8) | (uint32_t)r;
     cnn_buffer[cnt] ^= 0x00808080U;]
    The two assignments leave one value in the cell: [encode]. *)
Definition pack (r g b : Z) : Z :=
  Z.lor (Z.lor (u32 (Z.shiftl (u32 b) 16)) (u32 (Z.shiftl (u32 g) 8))) (u32 r).

Definition encode (r g b : Z) : Z := u32 (Z.lxor (pack r g b) BIAS).

(** serial_stream.c / display_utils.c:
    [pixel = cnn_buffer[idx] ^ 0x00808080U;
     r = (uint8_t)(pixel & 0xFF);
     g = (uint8_t)((pixel >> 8) & 0xFF);
     b = (uint8_t)((pixel >> 16) & 0xFF);] *)
Definition decode (word : Z) : Z * Z * Z :=
  let pixel := u32 (Z.lxor word BIAS) in
  let r := u8 (Z.land pixel 0xFF) in
  let g := u8 (Z.land (Z.shiftr pixel 8) 0xFF) in
  let b := u8 (Z.land (Z.shiftr pixel 16) 0xFF) in
  (r, g, b).

(** camera_utils.c:
    [rgb = (uint16_t)(((r & 0b11111000) << 8) | ((g & 0b11111100) << 3) | (b >> 3));] *)
Definition to_rgb565 (r g b : Z) : Z :=
  u16 (Z.lor (Z.lor (Z.shiftl (Z.land r 0xF8) 8) (Z.shiftl (Z.land g 0xFC) 3))
             (Z.shiftr b 3)).

End PixelCodec.

(* ================================================================== *)
(** ** FrameAssembler: camera_utils.c *)

Module Camera.
Import PixelCodec.

Inductive cam_status_t :=
| CAM_STATUS_OK | CAM_STATUS_ERROR | CAM_STATUS_OVERFLOW | CAM_STATUS_TIMEOUT.

(** One answer of the driver to [get_camera_stream_buffer()]: a line
    buffer, or NULL together with what [camera_is_image_rcv()] then says. *)
Inductive poll :=
| Line (data : list Z)
| NoLine (image_rcv : bool).

(** The camera driver as [camera_utils_capture] sees it. *)
Record camera_hw := {
  cam_imgLen : Z;                (* camera_get_image: length *)
  cam_w : Z;                     (* camera_get_image: width,  uint32_t *)
  cam_h : Z;                     (* camera_get_image: height, uint32_t *)
  cam_polls : list poll;         (* successive stream-buffer polls *)
  cam_overflow_count : Z         (* get_camera_stream_statistic()->overflow_count
                                    once the scanlines are read; a count,
                                    uint32_t in the SDK's camera.h *)
}.

(** A write through one of the two output pointers. *)
Inductive store :=
| StoreCnn (index value : Z)
| StoreRgb565 (index value : Z).

(** Locals and memory of one capture pass. *)
Record capture := {
  cnt : Z;                         (* int cnt *)
  j : Z;                           (* int j *)
  cnn_buffer : option (list Z);    (* cells behind uint32_t *cnn_buffer *)
  rgb565_buffer : option (list Z); (* cells behind uint8_t *rgb565_buffer *)
  stores : list store;             (* every write so far, oldest first *)
  polls : list poll                (* driver answers not yet consumed *)
}.

(** [p[i] = v] *)
Definition store_at (p : option (list Z)) (i v : Z) : run (option (list Z)) :=
  match p with
  | None => Undefined
  | Some cells =>
      if (0 <=? i) && (i <? Z.of_nat (length cells))
      then Done (Some (update (Z.to_nat i) v cells))
      else Undefined
  end.

(** [while ((data = get_camera_stream_buffer()) == NULL)
       { if (camera_is_image_rcv()) break; }] *)
Fixpoint wait_stream_buffer (ps : list poll) : run (option (list Z) * list poll) :=
  match ps with
  | [] => Waiting
  | Line data :: rest => Done (Some data, rest)
  | NoLine true :: rest => Done (None, rest)
  | NoLine false :: rest => wait_stream_buffer rest
  end.

(** [data[k]] with [uint8_t *data] *)
Definition load_byte (data : option (list Z)) (k : Z) : run Z :=
  match data with
  | None => Undefined
  | Some bytes => v <- load bytes k ;; Done (u8 v)
  end.

(** [for (int k = 0; k < bound; k += step)]: the values of [k].  Used with
    a bound that is a multiple of [step], so [k + step] never leaves
    [int]. *)
Definition strided (bound step : Z) : list Z :=
  map (fun i => step * i) (upto ((bound + step - 1) / step)).

(** The part of the pixel loop body guarded by
    [if ((uint32_t)cnt < cnn_buffer_size)]. *)
Definition put_cnn (cnn_buffer_size : Z) (r g b : Z) (c : capture) : run capture :=
  if u32 (cnt c) <? cnn_buffer_size then
    buf <- store_at (cnn_buffer c) (cnt c) (encode r g b) ;;
    Done {| cnt := int32 (cnt c + 1); j := j c;
            cnn_buffer := buf; rgb565_buffer := rgb565_buffer c;
            stores := stores c ++ [StoreCnn (cnt c) (encode r g b)];
            polls := polls c |}
  else Done c.

(** The part guarded by
    [if (rgb565_buffer != NULL && (uint32_t)(j + 1) < rgb565_size)]. *)
Definition put_rgb565 (rgb565_size : Z) (r g b : Z) (c : capture) : run capture :=
  match rgb565_buffer c with
  | None => Done c
  | Some _ =>
      if u32 (int32 (j c + 1)) <? rgb565_size then
        let rgb := to_rgb565 r g b in
        let hi := u8 (Z.land (Z.shiftr rgb 8) 0xFF) in
        let lo := u8 (Z.land rgb 0xFF) in
        buf1 <- store_at (rgb565_buffer c) (j c) hi ;;
        buf2 <- store_at buf1 (int32 (j c + 1)) lo ;;
        Done {| cnt := cnt c; j := int32 (j c + 2);
                cnn_buffer := cnn_buffer c; rgb565_buffer := buf2;
                stores := stores c ++ [StoreRgb565 (j c) hi;
                                       StoreRgb565 (int32 (j c + 1)) lo];
                polls := polls c |}
      else Done c
  end.

(** Body of [for (int k = 0; k < (int)(4 * w); k += 4)]. *)
Definition pixel (cnn_buffer_size rgb565_size : Z) (data : option (list Z))
           (k : Z) (c : capture) : run capture :=
  r <- load_byte data k ;;
  g <- load_byte data (k + 1) ;;
  b <- load_byte data (k + 2) ;;
  c1 <- put_cnn cnn_buffer_size r g b c ;;
  put_rgb565 rgb565_size r g b c1.

(** Body of [for (int row = 0; row < (int)h; row++)]. *)
Definition scanline (cnn_buffer_size rgb565_size : Z) (w : Z)
           (row : Z) (c : capture) : run capture :=
  '(data, rest) <- wait_stream_buffer (polls c) ;;
  let c0 := {| cnt := cnt c; j := 0;
               cnn_buffer := cnn_buffer c; rgb565_buffer := rgb565_buffer c;
               stores := stores c; polls := rest |} in
  for_each (strided (int32 (u32 (4 * w))) 4)
           (pixel cnn_buffer_size rgb565_size data) c0.

(** What a capture pass leaves behind. *)
Record captured := {
  status : cam_status_t;
  final : capture;
  console : list ascii;      (* printf output *)
  overflow_led : bool        (* LED_On(OVERFLOW_LED) was called *)
}.

Definition camera_utils_capture (cam : camera_hw)
           (cnn_buffer : option (list Z)) (cnn_buffer_size : Z)
           (rgb565_buffer : option (list Z)) (rgb565_size : Z) : run captured :=
  let w := cam_w cam in
  let h := cam_h cam in
  let banner :=
    text "W:" ++ fmt_d (int32 w) ++ text " H:" ++ fmt_d (int32 h)
         ++ text " L:" ++ fmt_d (int32 (cam_imgLen cam)) ++ [nl] in
  let c0 := {| cnt := 0; j := 0;
               cnn_buffer := cnn_buffer; rgb565_buffer := rgb565_buffer;
               stores := []; polls := cam_polls cam |} in
  c <- for_each (upto (int32 h)) (scanline cnn_buffer_size rgb565_size w) c0 ;;
  if cam_overflow_count cam >? 0 then
    Done {| status := CAM_STATUS_OVERFLOW; final := c;
            console := banner ++ text "OVERFLOW DISP = "
                              ++ fmt_d (int32 (cam_overflow_count cam)) ++ [nl];
            overflow_led := true |}
  else
    Done {| status := CAM_STATUS_OK; final := c;
            console := banner; overflow_led := false |}.

End Camera.

(* ================================================================== *)
(** ** AcceleratorSession and ResultInterpreter: inference_utils.c *)

Module Inference.

Inductive inference_status_t :=
| INFERENCE_OK | INFERENCE_ERROR | INFERENCE_TIMEOUT.

Record inference_result_t := {
  raw_output : list Z;          (* int32_t  raw_output[CNN_NUM_OUTPUTS] *)
  softmax : list Z;             (* q15_t    softmax[CNN_NUM_OUTPUTS] *)
  predicted_class : Z;          (* int *)
  confidence_percent : Z;       (* int *)
  inference_time_us : Z         (* uint32_t *)
}.

(** [q15_t] is [int16_t]. *)
Definition is_q15 (x : Z) : Prop := - 32768 <= x < 32768.

(** What the program does to the accelerator, oldest first. *)
Inductive cnn_op :=
| CnnStart                      (* cnn_start() *)
| FifoPush (word : Z)           (* *(0x50000008) = word *)
| Wfi                           (* __WFI() *)
| CnnUnload                     (* cnn_unload() *)
| CnnDisable                    (* cnn_disable() *)
| ClockEnable.                  (* MXC_SYS_ClockEnable(MXC_SYS_PERIPH_CLOCK_CNN) *)

(** The accelerator as inference_utils.c sees it. *)
Record cnn_hw := {
  cnn_time : Z;                 (* volatile uint32_t cnn_time *)
  wakeups : list Z;             (* what each return from __WFI() finds in
                                   cnn_time: 0 until the CNN interrupt ran *)
  fifo_status : list Z;         (* successive reads of *(0x50000004) *)
  cnn_output : list Z;          (* what cnn_unload() copies out *)
  ops : list cnn_op
}.

Definition with_ops (hw : cnn_hw) (new : list cnn_op) : cnn_hw :=
  {| cnn_time := cnn_time hw; wakeups := wakeups hw;
     fifo_status := fifo_status hw; cnn_output := cnn_output hw;
     ops := ops hw ++ new |}.

Section Generated.
(** [cnn.h] is generated by the model synthesis tool and the softmax
    routine comes with the vendor SDK: both are parameters. *)
Variable CNN_NUM_OUTPUTS : nat.
Variable softmax_q17p14_q15 : list Z -> nat -> list Z.
Variable CNN_INFERENCE_TIMER : bool.   (* whether cnn.h defines it *)

(** The spin on bit 0 of the status register at 0x50000004 that precedes
    each FIFO write. *)
Fixpoint wait_fifo (reads : list Z) : run (list Z) :=
  match reads with
  | [] => Waiting
  | s :: rest => if Z.land s 1 =? 0 then Done rest else wait_fifo rest
  end.

(** Body of [for (i = 0; i < num_words; i++)]. *)
Definition push_word (input_data : option (list Z)) (i : Z) (hw : cnn_hw)
  : run cnn_hw :=
  rest <- wait_fifo (fifo_status hw) ;;
  match input_data with
  | None => Undefined
  | Some words =>
      word <- load words i ;;
      Done {| cnn_time := cnn_time hw; wakeups := wakeups hw;
              fifo_status := rest; cnn_output := cnn_output hw;
              ops := ops hw ++ [FifoPush word] |}
  end.

Definition inference_load_input (input_data : option (list Z)) (num_words : Z)
           (hw : cnn_hw) : run cnn_hw :=
  for_each (upto num_words) (push_word input_data) hw.

Definition inference_start (hw : cnn_hw) : cnn_hw :=
  {| cnn_time := 0; wakeups := wakeups hw;
     fifo_status := fifo_status hw; cnn_output := cnn_output hw;
     ops := ops hw ++ [CnnStart] |}.

(** [while (cnn_time == 0) { __WFI(); }] *)
Fixpoint wait_cnn_time (time : Z) (wake : list Z) (slept : list cnn_op)
  : run (Z * list Z * list cnn_op) :=
  if time =? 0 then
    match wake with
    | [] => Waiting
    | t :: rest => wait_cnn_time t rest (slept ++ [Wfi])
    end
  else Done (time, wake, slept).

(** The arg-max loop:
    [max_val = softmax[0]; max_idx = 0;
     for (i = 1; i < CNN_NUM_OUTPUTS; i++)
       if (softmax[i] > max_val) { max_val = softmax[i]; max_idx = i; }] *)
Definition leader (sm : list Z) : Z * Z -> nat -> Z * Z :=
  fun '(max_val, max_idx) i =>
    if nth i sm 0 >? max_val then (nth i sm 0, Z.of_nat i)
    else (max_val, max_idx).

Definition find_max (sm : list Z) : Z * Z :=
  fold_left (leader sm) (seq 1 (CNN_NUM_OUTPUTS - 1)) (nth 0 sm 0, 0).

(** [(max_val * 100) >> 15], computed in [int]. *)
Definition percent (max_val : Z) : Z := Z.shiftr (int32 (max_val * 100)) 15.

(** [inference_wait]: NULL check, wait for the interrupt, record the time,
    unload, softmax, arg-max, percentage. *)
Definition inference_wait (result : option inference_result_t) (hw : cnn_hw)
  : run (inference_status_t * option inference_result_t * cnn_hw) :=
  match result with
  | None => Done (INFERENCE_ERROR, None, hw)
  | Some _ =>
      '(time, rest, slept) <- wait_cnn_time (cnn_time hw) (wakeups hw) [] ;;
      let raw := cnn_output hw in
      let sm := softmax_q17p14_q15 raw CNN_NUM_OUTPUTS in
      let '(max_val, max_idx) := find_max sm in
      Done (INFERENCE_OK,
            Some {| raw_output := raw;
                    softmax := sm;
                    predicted_class := max_idx;
                    confidence_percent := percent max_val;
                    inference_time_us := time |},
            {| cnn_time := time; wakeups := rest;
               fifo_status := fifo_status hw; cnn_output := cnn_output hw;
               ops := ops hw ++ slept ++ [CnnUnload] |})
  end.

Definition inference_run (result : option inference_result_t) (hw : cnn_hw)
  : run (inference_status_t * option inference_result_t * cnn_hw) :=
  match result with
  | None => Done (INFERENCE_ERROR, None, hw)
  | Some _ => inference_wait result (inference_start hw)
  end.

(** [(1000 * softmax[i] + 0x4000) >> 15]: the display rounding. *)
Definition tenths (value : Z) : Z := Z.shiftr (int32 (1000 * value + 0x4000)) 15.

(** [%7d], [%20s]: right-justified in a field *)
Definition pad_left (width : nat) (s : list ascii) : list ascii :=
  repeat " "%char (width - length s) ++ s.

Definition inference_print_results (result : option inference_result_t)
           (class_names : option (list (list ascii))) (num_classes : Z)
  : list ascii :=
  match result, class_names with
  | Some res, Some names =>
      line "Classification results:"
      ++ flat_map
           (fun i =>
              let digs := tenths (nth i (softmax res) 0) in
              let tens := Z.rem digs 10 in
              let digs := Z.quot digs 10 in
              text "[" ++ pad_left 7 (fmt_d (nth i (raw_output res) 0))
              ++ text "] -> " ++ pad_left 20 (nth i names [])
              ++ text ": " ++ fmt_d digs ++ text "." ++ fmt_d tens
              ++ text "%" ++ [cr; nl])
           (seq 0 (Nat.min (Z.to_nat num_classes) CNN_NUM_OUTPUTS))
      ++ [nl]
      ++ (if CNN_INFERENCE_TIMER
          then text "Approximate inference time: "
               ++ fmt_d (u32 (inference_time_us res)) ++ text " us" ++ [nl; nl]
          else [])
  | _, _ => []
  end.

Definition inference_disable (hw : cnn_hw) : cnn_hw := with_ops hw [CnnDisable].

Definition inference_enable (hw : cnn_hw) : inference_status_t * cnn_hw :=
  (INFERENCE_OK, with_ops hw [ClockEnable]).

End Generated.

End Inference.

(* ================================================================== *)
(** ** FrameExporter: serial_stream.c *)

Module Serial.
Import PixelCodec.

Definition IMG_START_MARKER : string := "<<<IMG_START>>>".
Definition IMG_END_MARKER : string := "<<<IMG_END>>>".
Definition RESULT_MARKER : string := "<<<RESULT>>>".

Definition serial_send_image_start (width height capture_id : Z) : list ascii :=
  [nl] ++ line IMG_START_MARKER
  ++ text "WIDTH:" ++ fmt_d width ++ [nl]
  ++ text "HEIGHT:" ++ fmt_d height ++ [nl]
  ++ text "CAPTURE_ID:" ++ fmt_d capture_id ++ [nl]
  ++ line "FORMAT:RGB888"
  ++ line "DATA_START".

Definition serial_send_image_end : list ascii :=
  line "DATA_END" ++ line IMG_END_MARKER ++ [nl].

(** [idx = row * width + col], in [int]. *)
Definition flat_index (row width col : Z) : Z :=
  int32 (int32 (row * width) + col).

Definition space : ascii := " "%char.

Definition serial_stream_ppm (cnn_buffer : option (list Z)) (width height : Z)
  : run (list ascii) :=
  match cnn_buffer with
  | None => Done []
  | Some buf =>
      let header :=
        line "P3" ++ line "# Captured from MAX78000 CNN"
        ++ fmt_d width ++ [space] ++ fmt_d height ++ [nl]
        ++ line "255" in
      for_each (upto height)
        (fun row out =>
           out' <- for_each (upto width)
             (fun col out =>
                word <- load buf (flat_index row width col) ;;
                let '(r, g, b) := decode word in
                Done (out ++ fmt_d r ++ [space] ++ fmt_d g ++ [space]
                          ++ fmt_d b ++ [space]
                          ++ (if Z.rem (col + 1) 8 =? 0 then [nl] else [])))
             out ;;
           Done (out' ++ [nl]))
        header
  end.

Definition hex_digit (d : Z) : ascii :=
  nth (Z.to_nat d) (text "0123456789ABCDEF") "0"%char.

(** [printf("%02X", v)] for a [uint8_t] *)
Definition fmt_02X (v : Z) : list ascii := [hex_digit (v / 16); hex_digit (v mod 16)].

Definition serial_stream_hex (cnn_buffer : option (list Z)) (width height : Z)
  : run (list ascii) :=
  match cnn_buffer with
  | None => Done []
  | Some buf =>
      let header :=
        line "=== HEX IMAGE DATA ==="
        ++ text "Size: " ++ fmt_d width ++ text "x" ++ fmt_d height ++ [nl] in
      body <- for_each (upto height)
        (fun row out =>
           out' <- for_each (upto width)
             (fun col out =>
                word <- load buf (flat_index row width col) ;;
                let '(r, g, b) := decode word in
                Done (out ++ fmt_02X r ++ fmt_02X g ++ fmt_02X b))
             out ;;
           Done (out' ++ [nl]))
        header ;;
      Done (body ++ line "=== END HEX DATA ===")
  end.

Definition base64_table : string :=
  "ABCDEFGHIJKLMNOPQRSTUVWXYZabcdefghijklmnopqrstuvwxyz0123456789+/".

(** [base64_table[i]] *)
Definition table_char (i : Z) : ascii :=
  nth (Z.to_nat i) (text base64_table) zero.

(** Locals of [serial_stream_base64].  [triplet] is not initialised in the
    source; no cell is read before it is written, and the model starts it
    at zero. *)
Record encoder := {
  triplet : Z * Z * Z;       (* uint8_t triplet[3] *)
  triplet_idx : Z;
  line_len : Z;
  out : list ascii           (* characters written with putchar *)
}.

(** [triplet[i] = v] for [i] in 0..2 *)
Definition set_triplet (t : Z * Z * Z) (i v : Z) : Z * Z * Z :=
  let '(t0, t1, t2) := t in
  if i =? 0 then (v, t1, t2)
  else if i =? 1 then (t0, v, t2)
  else (t0, t1, v).

Definition char0 (t : Z * Z * Z) : ascii :=
  let '(t0, _, _) := t in table_char (Z.land (Z.shiftr t0 2) 0x3F).
Definition char1 (t : Z * Z * Z) : ascii :=
  let '(t0, t1, _) := t in
  table_char (Z.lor (Z.shiftl (Z.land t0 0x03) 4) (Z.land (Z.shiftr t1 4) 0x0F)).
Definition char2 (t : Z * Z * Z) : ascii :=
  let '(_, t1, t2) := t in
  table_char (Z.lor (Z.shiftl (Z.land t1 0x0F) 2) (Z.land (Z.shiftr t2 6) 0x03)).
Definition char3 (t : Z * Z * Z) : ascii :=
  let '(_, _, t2) := t in table_char (Z.land t2 0x3F).

Definition pad : ascii := "="%char.

(** Body of [for (int i = 0; i < 3; i++)] for the byte [rgb[i]]. *)
Definition push_byte (e : encoder) (byte : Z) : encoder :=
  let t := set_triplet (triplet e) (triplet_idx e) byte in
  let idx := triplet_idx e + 1 in
  if idx =? 3 then
    let len := line_len e + 4 in
    let quad := [char0 t; char1 t; char2 t; char3 t] in
    if len >=? 76
    then {| triplet := t; triplet_idx := 0; line_len := 0;
            out := out e ++ quad ++ [nl] |}
    else {| triplet := t; triplet_idx := 0; line_len := len;
            out := out e ++ quad |}
  else {| triplet := t; triplet_idx := idx; line_len := line_len e;
          out := out e |}.

(** [if (triplet_idx > 0) { ... }]: the final partial group, after
    [for (int i = triplet_idx; i < 3; i++) triplet[i] = 0;]. *)
Definition flush (e : encoder) : list ascii :=
  if triplet_idx e >? 0 then
    let t := fold_left (fun t i => set_triplet t i 0)
                       (filter (fun i => triplet_idx e <=? i) [0; 1; 2])
                       (triplet e) in
    out e ++ [char0 t; char1 t]
          ++ [if triplet_idx e >? 1 then char2 t else pad]
          ++ [pad]
  else out e.

(** What the pixel loop does with the word it read: the R, G, B bytes go
    through the byte loop. *)
Definition push_pixel (word : Z) (e : encoder) : encoder :=
  let '(r, g, b) := decode word in fold_left push_byte [r; g; b] e.

Definition serial_stream_base64 (cnn_buffer : option (list Z)) (width height : Z)
  : run (list ascii) :=
  match cnn_buffer with
  | None => Done []
  | Some buf =>
      let header :=
        line "<<<BASE64_IMG_START>>>"
        ++ text "WIDTH:" ++ fmt_d width ++ text ",HEIGHT:" ++ fmt_d height ++ [nl] in
      e <- for_each (upto height)
        (fun row e =>
           for_each (upto width)
             (fun col e =>
                word <- load buf (flat_index row width col) ;;
                Done (push_pixel word e))
             e)
        {| triplet := (0, 0, 0); triplet_idx := 0; line_len := 0; out := header |} ;;
      Done (flush e ++ [nl] ++ line "<<<BASE64_IMG_END>>>")
  end.

Definition serial_print_capture_info (capture_id : Z) (class_name : list ascii)
           (confidence : Z) (inference_time : Z) : list ascii :=
  [nl] ++ line RESULT_MARKER
  ++ text "CAPTURE_ID:" ++ fmt_d capture_id ++ [nl]
  ++ text "CLASS:" ++ class_name ++ [nl]
  ++ text "CONFIDENCE:" ++ fmt_d confidence ++ [nl]
  ++ text "INFERENCE_TIME_US:" ++ fmt_d (u32 inference_time) ++ [nl]
  ++ line RESULT_MARKER ++ [nl].

End Serial.

(* ================================================================== *)
(** ** AsciiPreview: display_utils.c *)

Module Display.
Import PixelCodec.

Definition BRIGHTNESS_EXTENDED : list ascii :=
  text "$@B%8&WM#*oahkbdpqwmZO0QLCJUYXzcvunxrjft/\|()1{}[]?-_+~<>i!lI;:,"
  ++ [ascii_of_nat 34] ++ text "^`'. ".

Definition BRIGHTNESS_STANDARD : list ascii := text "@%#*+=-:. ".

(** [for (i = start; i < bound; i += step)] with [int] arithmetic.  The
    step comes from the caller, so the loop need not end: [fuel] bounds
    the iterations the model follows. *)
Fixpoint for_step {S} (fuel : nat) (i bound step : Z)
         (body : Z -> S -> run S) (s : S) : run S :=
  if i <? bound then
    match fuel with
    | O => Waiting
    | Datatypes.S fuel' =>
        s' <- body i s ;;
        for_step fuel' (int32 (i + step)) bound step body s'
    end
  else Done s.

(** [Y = (uint8_t)(((uint16_t)(77 * r) + (uint16_t)(150 * g)
                    + (uint16_t)(29 * b)) >> 8);] *)
Definition luminance (r g b : Z) : Z :=
  u8 (Z.shiftr (u16 (77 * r) + u16 (150 * g) + u16 (29 * b)) 8).

(** [bstr[i]] for a C string: the byte after the last character is NUL. *)
Definition char_at (bstr : list ascii) (i : Z) : run ascii :=
  if (i <? 0) || (Z.of_nat (length bstr) <? i) then Undefined
  else Done (nth (Z.to_nat i) bstr zero).

(** [char_idx = (Y * (num_chars - 1)) / 255;
     putchar(bstr[(num_chars - 1) - char_idx]);]
    [num_chars] is a [size_t], so both expressions are unsigned. *)
Definition glyph (bstr : list ascii) (Y : Z) : run ascii :=
  let num_chars := Z.of_nat (length bstr) in
  let char_idx := int32 (u32 (Y * u32 (num_chars - 1)) / 255) in
  char_at bstr (u32 (u32 (num_chars - 1) - char_idx)).

Definition display_ascii_art (fuel : nat) (img : option (list Z))
           (width height ratio : Z) (brightness : option (list ascii))
  : run (list ascii) :=
  match img with
  | None => Done []
  | Some bytes =>
      let bstr := match brightness with
                  | Some b => b
                  | None => BRIGHTNESS_STANDARD
                  end in
      let ratio := if ratio <? 1 then 1 else ratio in
      let x_step := ratio in
      let y_step := int32 (ratio * 2) in
      for_step fuel 0 height y_step
        (fun y out =>
           out' <- for_step fuel 0 width x_step
             (fun x out =>
                let src := int32 (int32 (int32 (y * width) + x) * 4) in
                r <- load bytes src ;;
                g <- load bytes (src + 1) ;;
                b <- load bytes (src + 2) ;;
                c <- glyph bstr (luminance (u8 r) (u8 g) (u8 b)) ;;
                Done (out ++ [c]))
             out ;;
           Done (out' ++ [nl]))
        []
  end.

(** The loop nest shared, word for word, by [display_ascii_art_from_cnn]
    and [display_ascii_art_detailed], which differ in [bstr] only. *)
Definition render_cnn (fuel : nat) (bstr : list ascii) (buf : list Z)
           (width height ratio : Z) : run (list ascii) :=
  let ratio := if ratio <? 1 then 1 else ratio in
  let x_step := ratio in
  let y_step := int32 (ratio * 2) in
  for_step fuel 0 height y_step
    (fun y out =>
       out' <- for_step fuel 0 width x_step
         (fun x out =>
            let idx := int32 (int32 (y * width) + x) in
            word <- load buf idx ;;
            let '(r, g, b) := decode word in
            c <- glyph bstr (luminance r g b) ;;
            Done (out ++ [c]))
         out ;;
       Done (out' ++ [nl]))
    [].

Definition display_ascii_art_from_cnn (fuel : nat) (cnn_buffer : option (list Z))
           (width height ratio : Z) : run (list ascii) :=
  match cnn_buffer with
  | None => Done []
  | Some buf => render_cnn fuel BRIGHTNESS_STANDARD buf width height ratio
  end.

Definition display_ascii_art_detailed (fuel : nat) (cnn_buffer : option (list Z))
           (width height ratio : Z) : run (list ascii) :=
  match cnn_buffer with
  | None => Done []
  | Some buf => render_cnn fuel BRIGHTNESS_EXTENDED buf width height ratio
  end.


(** [for (int i = 0; i < width; i++) putchar(ch); putchar('\n');] *)
Definition display_separator (width : Z) (ch : ascii) : list ascii :=
  repeat ch (Z.to_nat width) ++ [nl].

(** [display_title]: the title after [(width - title_len) / 2] spaces, when
    that is positive. *)
Definition display_title (title : option (list ascii)) (width : Z) : list ascii :=
  match title with
  | None => []
  | Some t =>
      let title_len := int32 (Z.of_nat (length t)) in
      let padding := Z.quot (int32 (width - title_len)) 2 in
      (if padding >? 0 then repeat " "%char (Z.to_nat padding) else [])
      ++ t ++ [nl]
  end.

End Display.

(* ================================================================== *)
(** ** The capture cycle: main.c *)

Module Main.
Import Camera Inference Serial.

(** app_config.h *)
Definition IMAGE_SIZE_X : Z := 64 * 2.
Definition IMAGE_SIZE_Y : Z := 64 * 2.
Definition DATA565_SIZE : Z := IMAGE_SIZE_X * IMAGE_SIZE_Y * 2.
Definition INPUT_WORDS : Z := 16384.
Definition LIVE_FEED_DELAY_MS : Z := 50.

Inductive led_t := LED1 | LED2.
Definition OVERFLOW_LED := LED2.
Definition STATUS_LED1 := LED1.
Definition STATUS_LED2 := LED2.

(** tft_utils.h *)
Definition TFT_BLACK : Z := 0x0000.
Definition TFT_WHITE : Z := 0xFFFF.
Definition TFT_GREEN : Z := 0x07E0.
Definition TFT_YELLOW : Z := 0xFFE0.

Definition CLASS_NAMES : list (list ascii) := [text "Horse"; text "Human"].

(** What the program does to the world outside the accelerator, oldest
    first.  The TFT module and the delay routine are external
    collaborators: a call to one of them is recorded, not followed. *)
Inductive effect :=
| Console (s : list ascii)
| LedOff (led : led_t)
| LedOn (led : led_t)
| TftDisplayCnnBuffer (x y width height : Z) (buf : list Z)
| TftShowResults (confidences : list Z) (num_classes predicted_class : Z)
| TftPrint (x y : Z) (s : list ascii) (fg bg : Z)
| DelayMs (ms : Z).

Record world := {
  camera : camera_hw;          (* the driver's behaviour for the next frame *)
  cnn : cnn_hw;
  button : bool;               (* PB_Get(CAPTURE_BUTTON) *)
  input_buffer : list Z;       (* static uint32_t input_buffer[INPUT_WORDS] *)
  data565 : list Z;            (* static uint8_t data565[DATA565_SIZE] *)
  capture_count : Z;           (* static int capture_count *)
  log : list effect
}.

Definition say (w : world) (new : list effect) : world :=
  {| camera := camera w; cnn := cnn w; button := button w;
     input_buffer := input_buffer w; data565 := data565 w;
     capture_count := capture_count w; log := log w ++ new |}.

Definition with_cnn (w : world) (hw : cnn_hw) : world :=
  {| camera := camera w; cnn := hw; button := button w;
     input_buffer := input_buffer w; data565 := data565 w;
     capture_count := capture_count w; log := log w |}.

(** How a function of main.c ends. *)
Inductive ending :=
| Returns
| Halts.                       (* entered [while (1) {}] *)

Inductive loop_ctl := Break | Continue | Next.

Definition cells (p : option (list Z)) (old : list Z) : list Z :=
  match p with Some c => c | None => old end.

(** app_config.h defines TFT_ENABLE (as 0), SERIAL_STREAM_ENABLE and
    LIVE_FEED_ENABLE and sets ASCII_ART_ENABLE to 0: what main.c puts under
    [#ifdef TFT_ENABLE] and [#ifdef SERIAL_STREAM_ENABLE] is compiled, what
    it puts under [#if ASCII_ART_ENABLE] is not. *)
Section Program.
Variable CNN_NUM_OUTPUTS : nat.
Variable softmax_q17p14_q15 : list Z -> nat -> list Z.
Variable CNN_INFERENCE_TIMER : bool.   (* whether cnn.h defines it *)

(** [camera_utils_capture(input_buffer, INPUT_WORDS, data565, DATA565_SIZE)]
    and what it leaves in the two static buffers. *)
Definition capture_frame (w : world) : run (cam_status_t * world) :=
  cap <- camera_utils_capture (camera w)
           (Some (input_buffer w)) INPUT_WORDS
           (Some (data565 w)) DATA565_SIZE ;;
  Done (status cap,
        {| camera := camera w; cnn := cnn w; button := button w;
           input_buffer := cells (cnn_buffer (final cap)) (input_buffer w);
           data565 := cells (rgb565_buffer (final cap)) (data565 w);
           capture_count := capture_count w;
           log := log w ++ [Console (Camera.console cap)]
                      ++ (if overflow_led cap then [LedOn OVERFLOW_LED] else []) |}).

(** [(1000 * softmax[i] + 0x4000) >> 15], then [/ 10]. *)
Definition display_confidences (res : inference_result_t) : list Z :=
  map (fun i => Z.quot (tenths (nth i (softmax res) 0)) 10)
      (seq 0 CNN_NUM_OUTPUTS).

Definition class_name (i : Z) : list ascii := nth (Z.to_nat i) CLASS_NAMES [].

(** What [run_single_capture] does once [inference_wait] returned
    INFERENCE_OK. *)
Definition present (res : inference_result_t) (w : world) : run world :=
  let name := class_name (predicted_class res) in
  let w1 := say w
    [Console ([nl] ++ line "*** PASS ***" ++ [nl]);
     Console (inference_print_results CNN_NUM_OUTPUTS CNN_INFERENCE_TIMER
                (Some res) (Some CLASS_NAMES) (Z.of_nat CNN_NUM_OUTPUTS));
     Console (text "Prediction: " ++ name ++ text " ("
                ++ fmt_d (confidence_percent res)
                ++ text "% confidence)" ++ [nl; nl]);
     Console (serial_print_capture_info (capture_count w) name
                (confidence_percent res) (inference_time_us res));
     Console (line "Streaming image to PC...");
     Console (serial_send_image_start IMAGE_SIZE_X IMAGE_SIZE_Y (capture_count w))] in
  ppm <- serial_stream_ppm (Some (input_buffer w)) IMAGE_SIZE_X IMAGE_SIZE_Y ;;
  Done (say w1
    [Console ppm;
     Console serial_send_image_end;
     Console (line "Image sent! Use Python script to capture.");
     TftShowResults (display_confidences res) (Z.of_nat CNN_NUM_OUTPUTS)
                    (predicted_class res)]).

Definition run_single_capture (result : option inference_result_t) (w : world)
  : run (ending * option inference_result_t * world) :=
  let w1 := say w [LedOff STATUS_LED1; LedOff STATUS_LED2] in
  let count := int32 (capture_count w1 + 1) in
  let w2 :=
    say {| camera := camera w1; cnn := cnn w1; button := button w1;
           input_buffer := input_buffer w1; data565 := data565 w1;
           capture_count := count; log := log w1 |}
        [Console ([nl] ++ text "=== Capture #" ++ fmt_d count
                       ++ text " ===" ++ [nl])] in
  '(cam_ret, w3) <- capture_frame w2 ;;
  match cam_ret with
  | CAM_STATUS_OVERFLOW =>
      Done (Halts, result, say w3 [Console (line "Camera overflow! Halting.")])
  | _ =>
      let w4 := say w3 [TftDisplayCnnBuffer 0 0 IMAGE_SIZE_X IMAGE_SIZE_Y
                                            (input_buffer w3)] in
      let started := inference_start (cnn w4) in
      loaded <- inference_load_input (Some (input_buffer w4)) INPUT_WORDS started ;;
      '(st, result', hw) <- inference_wait CNN_NUM_OUTPUTS softmax_q17p14_q15
                                           result loaded ;;
      let w5 := with_cnn w4 hw in
      match st, result' with
      | INFERENCE_OK, Some res =>
          w6 <- present res w5 ;;
          Done (Returns, result', w6)
      | _, _ =>
          Done (Returns, result', say w5 [Console (line "Inference failed!")])
      end
  end.

(** [snprintf(buf, sizeof(buf), ...)] with [char buf[32]] *)
Definition snprintf32 (s : list ascii) : list ascii := firstn 31 s.

(** One pass through the body of [while (1)] in [run_live_feed]. *)
Definition live_feed_frame (frame_count : Z) (w : world)
  : run (loop_ctl * Z * world) :=
  if button w then
    Done (Break, frame_count,
          say w [Console ([nl; nl] ++ line "Exiting live feed mode...");
                 DelayMs 500])
  else
    '(cam_ret, w1) <- capture_frame w ;;
    match cam_ret with
    | CAM_STATUS_OVERFLOW =>
        Done (Continue, frame_count, say w1 [Console (line "Camera overflow!")])
    | _ =>
        let w2 := say w1 [TftDisplayCnnBuffer 0 0 IMAGE_SIZE_X IMAGE_SIZE_Y
                                              (input_buffer w1)] in
        let started := inference_start (cnn w2) in
        loaded <- inference_load_input (Some (input_buffer w2)) INPUT_WORDS started ;;
        '(st, result', hw) <- inference_wait CNN_NUM_OUTPUTS softmax_q17p14_q15
                                (Some {| raw_output := []; softmax := [];
                                         predicted_class := 0;
                                         confidence_percent := 0;
                                         inference_time_us := 0 |})
                                loaded ;;
        let w3 := with_cnn w2 hw in
        match st, result' with
        | INFERENCE_OK, Some res =>
            let frames := int32 (frame_count + 1) in
            let confidences := display_confidences res in
            let pred := predicted_class res in
            Done (Next, frames,
                  say w3
                    ([TftPrint 140 10
                        (snprintf32 (text "Frame: " ++ fmt_d frames))
                        TFT_WHITE TFT_BLACK;
                      TftPrint 140 40
                        (snprintf32 (text ">> " ++ class_name pred ++ text ": "
                                       ++ fmt_d (confidence_percent res)
                                       ++ text "% <<"))
                        TFT_YELLOW TFT_BLACK]
                     ++ map (fun i =>
                               TftPrint 140 (70 + Z.of_nat i * 20)
                                 (snprintf32 (class_name (Z.of_nat i) ++ text ": "
                                                ++ fmt_d (nth i confidences 0)
                                                ++ text "%  "))
                                 (if Z.of_nat i =? pred then TFT_GREEN else TFT_WHITE)
                                 TFT_BLACK)
                            (seq 0 CNN_NUM_OUTPUTS)
                     ++ [DelayMs LIVE_FEED_DELAY_MS]))
        | _, _ => Done (Continue, frame_count, w3)
        end
    end.

End Program.


(** *** Mode selection in [run_inference_loop] *)

Inductive mode := SingleCapture | LiveFeed.

(** [while (!check_button_press()) {}]: the button reads left. *)
Fixpoint wait_press (reads : list bool) : run (list bool) :=
  match reads with
  | [] => Waiting
  | true :: rest => Done rest
  | false :: rest => wait_press rest
  end.

(** [while (check_button_press() && hold_count < 10)
       { MXC_Delay(MXC_DELAY_MSEC(100)); hold_count++; }]
    The button is read before the count is compared. *)
Fixpoint hold (reads : list bool) (hold_count : Z) : run (Z * list bool) :=
  match reads with
  | [] => Waiting
  | pressed :: rest =>
      if pressed && (hold_count <? 10)
      then hold rest (int32 (hold_count + 1))
      else Done (hold_count, rest)
  end.

(** One mode selection: the mode run, the number of 100 ms delays spent,
    the button reads left. *)
Definition select_mode (reads : list bool) : run (mode * Z * list bool) :=
  rest <- wait_press reads ;;
  '(hold_count, rest') <- hold rest 0 ;;
  Done (if hold_count >=? 10 then LiveFeed else SingleCapture, hold_count, rest').

End Main.

(* ================================================================== *)
(** ** tft_utils.c *)

Module Tft.
Import PixelCodec Main.

Inductive tft_status_t := TFT_STATUS_OK | TFT_STATUS_ERROR.

(** tft_utils.h *)
Definition TFT_WIDTH : Z := 320.
Definition TFT_BLUE : Z := 0x001F.

Definition E_NO_ERROR : Z := 0.

(** Calls to the display driver (tft_ili9341.h), oldest first. *)
Inductive tft_op :=
| TftInit                                    (* MXC_TFT_Init(NULL, NULL) *)
| SetRotation270                             (* MXC_TFT_SetRotation(ROTATE_270) *)
| ClearScreen                                (* MXC_TFT_ClearScreen() *)
| WriteBufferRGB565 (x y : Z) (data : list Z) (width height : Z)
| SetForeGroundColor (color : Z)
| SetBackGroundColor (color : Z)
| PrintFont (x y : Z) (s : list ascii)       (* with ARIAL12X12 *)
| FillRect (x y width height color : Z).

(** The statics of tft_utils.c and what it did so far. *)
Record tft := {
  s_tft_initialized : Z;        (* static int s_tft_initialized *)
  rgb565_line : list Z;         (* static uint8_t rgb565_line[TFT_WIDTH * 2] *)
  driver : list tft_op;
  printed : list ascii          (* printf output *)
}.

Definition drive (t : tft) (new : list tft_op) : tft :=
  {| s_tft_initialized := s_tft_initialized t; rgb565_line := rgb565_line t;
     driver := driver t ++ new; printed := printed t |}.

(** [tft_utils_init]; [ret] is what [MXC_TFT_Init] returns. *)
Definition tft_utils_init (ret : Z) (t : tft) : tft_status_t * tft :=
  if ret =? E_NO_ERROR then
    (TFT_STATUS_OK,
     {| s_tft_initialized := 1; rgb565_line := rgb565_line t;
        driver := driver t ++ [TftInit; SetRotation270; ClearScreen];
        printed := printed t ++ line "Initializing TFT display..."
                             ++ line "TFT initialized successfully" |})
  else
    (TFT_STATUS_ERROR,
     {| s_tft_initialized := s_tft_initialized t; rgb565_line := rgb565_line t;
        driver := driver t ++ [TftInit];
        printed := printed t ++ line "Initializing TFT display..."
                             ++ text "TFT init failed with error " ++ fmt_d ret
                             ++ [nl] |}).

Definition tft_utils_display_image (x y width height : Z)
           (rgb565_data : option (list Z)) (t : tft) : tft :=
  if s_tft_initialized t =? 0 then t
  else match rgb565_data with
       | None => t
       | Some data => drive t [WriteBufferRGB565 x y data width height]
       end.

(** [a[i] = v] for an array whose cells are [cells]. *)
Definition poke (cells : list Z) (i v : Z) : run (list Z) :=
  if (0 <=? i) && (i <? Z.of_nat (length cells))
  then Done (update (Z.to_nat i) v cells)
  else Undefined.

(** Body of [for (int col = 0; col < width; col++)]; the state is the
    line buffer and [line_idx]. *)
Definition convert_pixel (cnn_buffer : list Z) (row width col : Z)
           (s : list Z * Z) : run (list Z * Z) :=
  let '(cells, line_idx) := s in
  let idx := int32 (int32 (row * width) + col) in
  word <- load cnn_buffer idx ;;
  let '(r, g, b) := decode word in
  let rgb565 := to_rgb565 r g b in
  cells1 <- poke cells line_idx (u8 (Z.land (Z.shiftr rgb565 8) 0xFF)) ;;
  cells2 <- poke cells1 (int32 (line_idx + 1)) (u8 (Z.land rgb565 0xFF)) ;;
  Done (cells2, int32 (line_idx + 2)).

(** Body of [for (int row = 0; row < height; row++)]. *)
Definition display_row (cnn_buffer : list Z) (x y width : Z) (row : Z) (t : tft)
  : run tft :=
  '(cells, _) <- for_each (upto width) (convert_pixel cnn_buffer row width)
                          (rgb565_line t, 0) ;;
  Done {| s_tft_initialized := s_tft_initialized t; rgb565_line := cells;
          driver := driver t ++ [WriteBufferRGB565 x (int32 (y + row)) cells width 1];
          printed := printed t |}.

Definition tft_utils_display_cnn_buffer (x y width height : Z)
           (cnn_buffer : option (list Z)) (t : tft) : run tft :=
  if s_tft_initialized t =? 0 then Done t
  else match cnn_buffer with
       | None => Done t
       | Some buf => for_each (upto height) (display_row buf x y width) t
       end.

Definition tft_utils_print (x y : Z) (s : option (list ascii))
           (fg_color bg_color : Z) (t : tft) : tft :=
  if s_tft_initialized t =? 0 then t
  else match s with
       | None => t
       | Some str => drive t [SetForeGroundColor fg_color;
                              SetBackGroundColor bg_color;
                              PrintFont x y str]
       end.

Definition tft_utils_clear (color : Z) (t : tft) : tft :=
  if s_tft_initialized t =? 0 then t
  else drive t [SetBackGroundColor color; ClearScreen].

Definition tft_utils_fill_rect (x y width height color : Z) (t : tft) : tft :=
  if s_tft_initialized t =? 0 then t
  else drive t [FillRect x y width height color].

(** [class_names[i]], for the pointer to rows of 20 characters it is given *)
Definition name_at (class_names : list (list ascii)) (i : Z) : run (list ascii) :=
  if i <? 0 then Undefined
  else match nth_error class_names (Z.to_nat i) with
       | Some name => Done name
       | None => Undefined
       end.

Definition bar_x : Z := 140.
Definition bar_y : Z := 180.
Definition bar_width : Z := 150.
Definition bar_height : Z := 20.
Definition spacing : Z := 25.

(** Body of [for (int i = 0; i < num_classes; i++)] in
    [tft_utils_show_results]. *)
Definition show_class (class_names : list (list ascii)) (confidences : list Z)
           (predicted_class : Z) (i : Z) (t : tft) : run tft :=
  let y_pos := int32 (bar_y + int32 (i * spacing)) in
  conf <- load confidences i ;;
  let fill_width := Z.quot (int32 (conf * bar_width)) 100 in
  let bar_color := if i =? predicted_class then TFT_GREEN else TFT_BLUE in
  name <- name_at class_names i ;;
  let t1 := tft_utils_print 10 (int32 (y_pos + 4))
              (Some (snprintf32 (name ++ text ":"))) TFT_WHITE TFT_BLACK t in
  let t2 := tft_utils_fill_rect bar_x y_pos bar_width bar_height TFT_BLACK t1 in
  let t3 := if fill_width >? 0
            then tft_utils_fill_rect bar_x y_pos fill_width bar_height bar_color t2
            else t2 in
  Done (tft_utils_print (bar_x + bar_width + 5) (int32 (y_pos + 4))
          (Some (snprintf32 (fmt_d conf ++ text "%"))) TFT_WHITE TFT_BLACK t3).

Definition tft_utils_show_results (class_names : list (list ascii))
           (confidences : list Z) (num_classes predicted_class : Z) (t : tft)
  : run tft :=
  if s_tft_initialized t =? 0 then Done t
  else
    t' <- for_each (upto num_classes)
            (show_class class_names confidences predicted_class) t ;;
    name <- name_at class_names predicted_class ;;
    Done (tft_utils_print 80 (bar_y - 30)
            (Some (snprintf32 (text ">> " ++ name ++ text " <<")))
            TFT_YELLOW TFT_BLACK t').

End Tft.

(* ================================================================== *)
(** ** Notions the specification uses *)

Module Spec.

(** [k] is the lowest index, among the first [n] entries of [v], that
    holds their maximum. *)
Definition lowest_argmax (v : list Z) (n : nat) (k : nat) : Prop :=
  (k < n)%nat
  /\ (forall i, (i < n)%nat -> nth i v 0 <= nth k v 0)
  /\ (forall i, (i < k)%nat -> nth i v 0 < nth k v 0).

(** The CNN interrupt eventually leaves a non-zero time in [cnn_time]. *)
Definition completes (hw : Inference.cnn_hw) : Prop :=
  Inference.cnn_time hw <> 0 \/ Exists (fun t => t <> 0) (Inference.wakeups hw).

(** The flat indices of the accelerator-buffer writes in a log. *)
Definition cnn_indices (log : list Camera.store) : list Z :=
  flat_map (fun s => match s with
                     | Camera.StoreCnn i _ => [i]
                     | Camera.StoreRgb565 _ _ => []
                     end) log.

(** A write that stays below the declared capacity of its buffer. *)
Definition below (cnn_buffer_size rgb565_size : Z) (s : Camera.store) : Prop :=
  match s with
  | Camera.StoreCnn i _ => i < cnn_buffer_size
  | Camera.StoreRgb565 i _ => i < rgb565_size
  end.

(** A write at a valid index of a buffer of the declared capacity. *)
Definition inside (cnn_buffer_size rgb565_size : Z) (s : Camera.store) : Prop :=
  match s with
  | Camera.StoreCnn i _ => 0 <= i < cnn_buffer_size
  | Camera.StoreRgb565 i _ => 0 <= i < rgb565_size
  end.

(** What every iteration of a capture pass keeps: the counters are [int]s
    and no write so far reached the declared capacity of its buffer. *)
Definition safe (cnn_buffer_size rgb565_size : Z) (c : Camera.capture) : Prop :=
  is_int (Camera.cnt c) /\ is_int (Camera.j c)
  /\ Forall (below cnn_buffer_size rgb565_size) (Camera.stores c).

(** The driver's answers hand over the scanlines [lines], in order, each
    after any number of "not yet" answers. *)
Inductive delivers : list Camera.poll -> list (list Z) -> Prop :=
| delivers_done ps : delivers ps []
| delivers_wait ps ls : delivers ps ls -> delivers (Camera.NoLine false :: ps) ls
| delivers_line ps l ls : delivers ps ls -> delivers (Camera.Line l :: ps) (l :: ls).

(** A source that streams a whole [w] x [h] frame of 4-byte samples. *)
Definition streams (cam : Camera.camera_hw) (lines : list (list Z)) : Prop :=
  delivers (Camera.cam_polls cam) lines
  /\ Z.of_nat (length lines) = Camera.cam_h cam
  /\ Forall (fun l => 4 * Camera.cam_w cam <= Z.of_nat (length l)) lines
  /\ 0 <= Camera.cam_w cam < 2 ^ 29
  /\ 0 <= Camera.cam_h cam < 2 ^ 31.

(** A pointer that is NULL or has at least [size] cells behind it. *)
Definition holds (p : option (list Z)) (size : Z) : Prop :=
  match p with
  | None => True
  | Some cells => size <= Z.of_nat (length cells)
  end.

(** The state of a capture pass after [p] pixels, buffers of at least the
    declared capacity behind both pointers: the first min(p, capacity)
    accelerator cells were written, one after the other, and every write
    landed inside the declared capacity. *)
Definition filled (cnn_buffer_size rgb565_size : Z) (p : Z) (c : Camera.capture)
  : Prop :=
  Camera.cnt c = Z.min p cnn_buffer_size
  /\ cnn_indices (Camera.stores c) = upto (Camera.cnt c)
  /\ Forall (inside cnn_buffer_size rgb565_size) (Camera.stores c)
  /\ (exists cells, Camera.cnn_buffer c = Some cells
                    /\ cnn_buffer_size <= Z.of_nat (length cells))
  /\ holds (Camera.rgb565_buffer c) rgb565_size
  /\ 0 <= Camera.j c <= rgb565_size.

(** *** Base64 (RFC 4648) *)

(** The standard alphabet: A-Z, a-z, 0-9, '+', '/'. *)
Definition alphabet : list ascii :=
  map ascii_of_nat (seq 65 26 ++ seq 97 26 ++ seq 48 10 ++ [43; 47])%nat.

Definition sextet (n : Z) : ascii := nth (Z.to_nat n) alphabet "="%char.

(** Three bytes make a 24-bit group. *)
Definition group24 (a b c : Z) : Z := a * 65536 + b * 256 + c.

(** A group is written as four sextets; a final group of one or two bytes
    is filled with zero bits and its unused sextets are written as '='. *)
Fixpoint base64 (bytes : list Z) : list ascii :=
  match bytes with
  | a :: b :: c :: rest =>
      let n := group24 a b c in
      sextet (n / 262144) :: sextet (n / 4096 mod 64)
             :: sextet (n / 64 mod 64) :: sextet (n mod 64) :: base64 rest
  | [a; b] =>
      let n := group24 a b 0 in
      [sextet (n / 262144); sextet (n / 4096 mod 64); sextet (n / 64 mod 64);
       "="%char]
  | [a] =>
      let n := group24 a 0 0 in
      [sextet (n / 262144); sextet (n / 4096 mod 64); "="%char; "="%char]
  | [] => []
  end.

(** A line break after every [width] characters; [col] characters are
    already on the current line. *)
Fixpoint break_lines (width col : nat) (cs : list ascii) : list ascii :=
  match cs with
  | [] => []
  | c :: rest =>
      if (Datatypes.S col =? width)%nat
      then c :: nl :: break_lines width 0 rest
      else c :: break_lines width (Datatypes.S col) rest
  end.

(** The three channels a packed word stands for, as the specification
    words it: the bias 0x00808080 is taken off and the word is unpacked,
    channel k being byte k of what is left (channel 0 is R, 1 is G, 2 is
    B).  Written with arithmetic on the word, not with the exporters'
    code. *)
Definition channels (word : Z) : Z * Z * Z :=
  let p := Z.lxor word 0x00808080 in
  (p mod 256, p / 256 mod 256, p / 65536 mod 256).

(** The R, G, B bytes of each pixel of a frame, in buffer order. *)
Definition frame_bytes (buf : list Z) : list Z :=
  flat_map (fun word => let '(r, g, b) := channels word in [r; g; b]) buf.

(** A frame given by the channel values of its pixels: every channel is a
    byte; the buffer holds the pixels' packed words; the byte stream is
    R, G, B of each pixel in turn. *)
Definition byte_pixel (p : Z * Z * Z) : Prop :=
  let '(r, g, b) := p in is_u8 r /\ is_u8 g /\ is_u8 b.

Definition packed_frame (pixels : list (Z * Z * Z)) : list Z :=
  map (fun '(r, g, b) => PixelCodec.encode r g b) pixels.

Definition pixel_bytes (pixels : list (Z * Z * Z)) : list Z :=
  flat_map (fun '(r, g, b) => [r; g; b]) pixels.

(** The base64 export of a [width] x [height] frame as the specification
    words it: start marker line, dimensions line, the body, a newline and
    the end marker line. *)
Definition base64_export (buf : list Z) (width height : Z) : list ascii :=
  line "<<<BASE64_IMG_START>>>"
  ++ text "WIDTH:" ++ fmt_d width ++ text ",HEIGHT:" ++ fmt_d height ++ [nl]
  ++ break_lines 76 0 (base64 (frame_bytes buf))
  ++ [nl] ++ line "<<<BASE64_IMG_END>>>".

(** A [width] x [height] frame held in a buffer of exactly that many words. *)
Definition frame (buf : list Z) (width height : Z) : Prop :=
  0 <= width /\ 0 <= height /\ width * height <= INT_MAX
  /\ Z.of_nat (length buf) = width * height.

End Spec.

(* ================================================================== *)
(** ** Concrete inputs *)

Module Examples.
Import Camera Inference Main.

(** A 2 x 1 frame, handed over after one "not yet". *)
Definition two_pixels : camera_hw :=
  {| cam_imgLen := 8; cam_w := 2; cam_h := 1;
     cam_polls := [NoLine false; Line [10; 20; 30; 0; 40; 50; 60; 0]];
     cam_overflow_count := 0 |}.

(** A 2 x 2 frame, one scanline per poll. *)
Definition four_pixels : camera_hw :=
  {| cam_imgLen := 16; cam_w := 2; cam_h := 2;
     cam_polls := [Line [10; 20; 30; 0; 40; 50; 60; 0];
                   Line [255; 0; 128; 0; 171; 18; 255; 0]];
     cam_overflow_count := 0 |}.

(** A 1 x 1 frame. *)
Definition one_pixel : camera_hw :=
  {| cam_imgLen := 4; cam_w := 1; cam_h := 1;
     cam_polls := [Line [255; 0; 128; 0]];
     cam_overflow_count := 0 |}.

(** The same frame from a source that overflowed three times. *)
Definition one_pixel_overflowed : camera_hw :=
  {| cam_imgLen := 4; cam_w := 1; cam_h := 1;
     cam_polls := [Line [255; 0; 128; 0]];
     cam_overflow_count := 3 |}.

Definition empty_result : inference_result_t :=
  {| raw_output := []; softmax := []; predicted_class := 0;
     confidence_percent := 0; inference_time_us := 0 |}.

(** An accelerator that completes on the second wake-up. *)
Definition accelerator (outputs : list Z) : cnn_hw :=
  {| cnn_time := 0; wakeups := [0; 1234]; fifo_status := [];
     cnn_output := outputs; ops := [] |}.

(** The program's static state before a capture, camera overflowed. *)
Definition overflowed_world : world :=
  {| camera := one_pixel_overflowed;
     cnn := accelerator [7; 7];
     button := false;
     input_buffer := repeat 0 (Z.to_nat INPUT_WORDS);
     data565 := repeat 0 (Z.to_nat DATA565_SIZE);
     capture_count := 0;
     log := [] |}.

(** A 2 x 2 frame as [camera_utils_capture] packs it. *)
Definition frame_2x2 : list Z :=
  [PixelCodec.encode 255 0 128; PixelCodec.encode 1 2 3;
   PixelCodec.encode 0 0 0; PixelCodec.encode 171 18 255].


(** An accelerator whose FIFO is full at the first and at the third read
    of its status register. *)
Definition busy_fifo : cnn_hw :=
  {| cnn_time := 0; wakeups := []; fifo_status := [1; 0; 3; 2];
     cnn_output := []; ops := [] |}.


(** The program's static state before a capture: a camera that streams
    its frame without overflow, a FIFO that is never full, an accelerator
    that completes on the second wake-up. *)
Definition clean_world : world :=
  {| camera := one_pixel;
     cnn := {| cnn_time := 0; wakeups := [0; 1234];
               fifo_status := repeat 0 (Z.to_nat INPUT_WORDS);
               cnn_output := [7; 9]; ops := [] |};
     button := false;
     input_buffer := repeat 0 (Z.to_nat INPUT_WORDS);
     data565 := repeat 0 (Z.to_nat DATA565_SIZE);
     capture_count := 0;
     log := [] |}.

End Examples.

(* ================================================================== *)
(** ** Further notions, for the properties of the rest of the code *)

Module Notions.
Import Spec.

(** An 8-bit pattern read as a two's complement number. *)
Definition int8 (x : Z) : Z := (x + 128) mod 256 - 128.

(** A test that holds for every byte. *)
Definition all_bytes (test : Z -> bool) : bool := forallb test (upto 256).


(** The FIFO status reads let [n] words through: each word is taken at
    the first read with bit 0 clear. *)
Inductive admits : list Z -> nat -> Prop :=
| admits_none reads : admits reads 0
| admits_full s reads n :
    Z.land s 1 <> 0 -> admits reads (S n) -> admits (s :: reads) (S n)
| admits_room s reads n :
    Z.land s 1 = 0 -> admits reads n -> admits (s :: reads) (S n).

(** *** The frame a source streams *)

(** The packed word of sample [i] of a scanline of 4-byte samples. *)
Definition sample_word (l : list Z) (i : nat) : Z :=
  PixelCodec.encode (u8 (nth (4 * i) l 0)) (u8 (nth (4 * i + 1) l 0))
                    (u8 (nth (4 * i + 2) l 0)).

Definition scanline_words (w : nat) (l : list Z) : list Z :=
  map (sample_word l) (seq 0 w).

(** The packed words of a streamed frame, row-major. *)
Definition frame_words (w : nat) (lines : list (list Z)) : list Z :=
  flat_map (scanline_words w) lines.

(** A write to the display buffer that stays within one scanline. *)
Definition in_first_scanline (w : Z) (s : Camera.store) : Prop :=
  match s with
  | Camera.StoreCnn _ _ => True
  | Camera.StoreRgb565 i _ => 0 <= i < 2 * w
  end.

(** *** Reading the exports back *)

(** The rows of a frame buffer: row [k] is the [width] words from
    [k * width] on. *)
Definition rows_of (height width : nat) (buf : list Z) : list (list Z) :=
  map (fun k => firstn width (skipn (k * width) buf)) (seq 0 height).

(** The value of a hexadecimal digit. *)
Definition hex_value (c : ascii) : Z :=
  let n := Z.of_nat (nat_of_ascii c) in
  if (48 <=? n) && (n <=? 57) then n - 48
  else if (65 <=? n) && (n <=? 70) then n - 55
  else 0.

(** Two hexadecimal digits per byte. *)
Fixpoint unhex (cs : list ascii) : list Z :=
  match cs with
  | hi :: lo :: rest => (16 * hex_value hi + hex_value lo) :: unhex rest
  | _ => []
  end.

(** The value of a base64 character: its place in the alphabet. *)
Fixpoint place (c : ascii) (l : list ascii) : Z :=
  match l with
  | [] => 0
  | x :: rest => if Ascii.eqb c x then 0 else 1 + place c rest
  end.

Definition sextet_value (c : ascii) : Z := place c alphabet.

(** Four characters give the three bytes of their 24-bit group. *)
Fixpoint unbase64 (cs : list ascii) : list Z :=
  match cs with
  | c0 :: c1 :: c2 :: c3 :: rest =>
      let n := ((sextet_value c0 * 64 + sextet_value c1) * 64 + sextet_value c2) * 64
               + sextet_value c3 in
      n / 65536 :: n / 256 mod 256 :: n mod 256 :: unbase64 rest
  | _ => []
  end.

(** A text without its line breaks. *)
Definition unwrap (cs : list ascii) : list ascii :=
  filter (fun c => negb (Ascii.eqb c nl)) cs.

(** The hexadecimal text of a pixel / of a row. *)
Definition hex_pixel (word : Z) : list ascii :=
  let '(r, g, b) := channels word in
  Serial.fmt_02X r ++ Serial.fmt_02X g ++ Serial.fmt_02X b.

(** The plain-text triple of the pixel in column [col]: three decimal
    numbers, each followed by a space, and a line break after every
    eighth pixel of the row. *)
Definition ppm_pixel (col : Z) (word : Z) : list ascii :=
  let '(r, g, b) := channels word in
  fmt_d r ++ [Serial.space] ++ fmt_d g ++ [Serial.space] ++ fmt_d b ++ [Serial.space]
  ++ (if Z.rem (col + 1) 8 =? 0 then [nl] else []).

Definition ppm_row (row : list Z) : list ascii :=
  flat_map (fun '(col, word) => ppm_pixel col word)
           (combine (upto (Z.of_nat (length row))) row)
  ++ [nl].

Definition ppm_header (width height : Z) : list ascii :=
  line "P3" ++ line "# Captured from MAX78000 CNN"
  ++ fmt_d width ++ [Serial.space] ++ fmt_d height ++ [nl] ++ line "255".

(** *** The preview of a frame *)

(** The character a ramp gives a luminance. *)
Definition shade (bstr : list ascii) (Y : Z) : ascii :=
  let n := Z.of_nat (length bstr) in
  nth (Z.to_nat (n - 1 - Y * (n - 1) / 255)) bstr zero.

Definition shade_word (bstr : list ascii) (word : Z) : ascii :=
  let '(r, g, b) := channels word in shade bstr (Display.luminance r g b).

(** One line per sampled row, one character per sampled column. *)
Definition preview (bstr : list ascii) (buf : list Z) (width height ratio : Z)
  : list ascii :=
  flat_map
    (fun y =>
       map (fun x => shade_word bstr (nth (Z.to_nat (y * width + x)) buf 0))
           (Camera.strided width ratio)
       ++ [nl])
    (Camera.strided height (2 * ratio)).


(** The accelerator buffer after the words [offered] were offered to a
    buffer of declared capacity [size] that held [cells0]: the first
    [size] of them took the place of the first cells. *)
Definition written (size : Z) (cells0 offered : list Z) (c : Camera.capture)
  : Prop :=
  Camera.cnn_buffer c
  = Some (firstn (Z.to_nat size) offered
          ++ skipn (Nat.min (length offered) (Z.to_nat size)) cells0).

(** The three colour bytes of sample [col] of a scanline. *)
Definition sample_bytes (l : list Z) (col : nat) : Z * Z * Z :=
  (u8 (nth (4 * col) l 0), u8 (nth (4 * col + 1) l 0), u8 (nth (4 * col + 2) l 0)).


(** *** What the display is sent *)

(** The two bytes of a pixel's RGB565 value, high byte first. *)
Definition rgb565_bytes (word : Z) : list Z :=
  let '(r, g, b) := channels word in
  let v := PixelCodec.to_rgb565 r g b in
  [u8 (Z.land (Z.shiftr v 8) 0xFF); u8 (Z.land v 0xFF)].

(** The line buffer after a row was converted into it. *)
Definition line_of (row : list Z) (old : list Z) : list Z :=
  flat_map rgb565_bytes row ++ skipn (2 * length row) old.

(** An uninitialised display module. *)
Definition dark (t : Tft.tft) : Prop := Tft.s_tft_initialized t = 0.


(** The words of columns 0 .. m-1 of row [row] of a frame. *)
Definition row_prefix (buf : list Z) (width row : Z) (m : nat) : list Z :=
  map (fun col => nth (Z.to_nat (row * width + Z.of_nat col)) buf 0) (seq 0 m).


(** A display module after a successful [tft_utils_init], and one before. *)
Definition lit_display : Tft.tft :=
  {| Tft.s_tft_initialized := 1;
     Tft.rgb565_line := repeat 0 (Z.to_nat (Tft.TFT_WIDTH * 2));
     Tft.driver := []; Tft.printed := [] |}.

Definition dark_display : Tft.tft :=
  {| Tft.s_tft_initialized := 0;
     Tft.rgb565_line := repeat 0 (Z.to_nat (Tft.TFT_WIDTH * 2));
     Tft.driver := []; Tft.printed := [] |}.


(** *** The preview of a byte image *)

(** The character for pixel [i] of an image of 4-byte pixels. *)
Definition shade_bytes (bstr : list ascii) (bytes : list Z) (i : Z) : ascii :=
  shade bstr
    (Display.luminance (u8 (nth (Z.to_nat (4 * i)) bytes 0))
                       (u8 (nth (Z.to_nat (4 * i + 1)) bytes 0))
                       (u8 (nth (Z.to_nat (4 * i + 2)) bytes 0))).

Definition preview_bytes (bstr : list ascii) (bytes : list Z)
           (width height ratio : Z) : list ascii :=
  flat_map
    (fun y =>
       map (fun x => shade_bytes bstr bytes (y * width + x))
           (Camera.strided width ratio)
       ++ [nl])
    (Camera.strided height (2 * ratio)).

(** The ramp [display_ascii_art] uses. *)
Definition ramp_of (brightness : option (list ascii)) : list ascii :=
  match brightness with
  | Some b => b
  | None => Display.BRIGHTNESS_STANDARD
  end.

End Notions.

(* ================================================================== *)
(** * Properties *)

Module CIntFacts.

Lemma u8_small x : is_u8 x -> u8 x = x.
Proof. unfold is_u8, u8; intros; apply Z.mod_small; lia. Qed.

Lemma u8_range x : is_u8 (u8 x).
Proof. unfold is_u8, u8. pose proof (Z.mod_pos_bound x (2 ^ 8)). lia. Qed.

Lemma u32_range x : is_u32 (u32 x).
Proof. unfold is_u32, u32. pose proof (Z.mod_pos_bound x (2 ^ 32)). lia. Qed.

Lemma int32_small x : - 2 ^ 31 <= x < 2 ^ 31 -> int32 x = x.
Proof. unfold int32; intros; rewrite Z.mod_small; lia. Qed.

Lemma int32_range x : - 2 ^ 31 <= int32 x < 2 ^ 31.
Proof.
  unfold int32. pose proof (Z.mod_pos_bound (x + 2 ^ 31) (2 ^ 32)). lia.
Qed.

Lemma u32_small x : is_u32 x -> u32 x = x.
Proof. unfold is_u32, u32; intros; apply Z.mod_small; lia. Qed.

End CIntFacts.
Import CIntFacts.

(* ------------------------------------------------------------------ *)
(** ** Loops *)

Module LoopFacts.

Lemma Done_inj {A} (a b : A) : Done a = Done b -> a = b.
Proof. intros H; injection H; auto. Qed.

Lemma Done_triple {A B C} (a a' : A) (b b' : B) (c c' : C) :
  Done (a, b, c) = Done (a', b', c') -> a = a' /\ b = b' /\ c = c'.
Proof. intros H; injection H; auto. Qed.

Lemma for_each_app {S} (l1 l2 : list Z) (body : Z -> S -> run S) (s : S) :
  for_each (l1 ++ l2) body s = (s' <- for_each l1 body s ;; for_each l2 body s').
Proof.
  revert s; induction l1 as [|i l1 IH]; intros s; cbn; [reflexivity|].
  destruct (body i s); cbn; auto.
Qed.

Lemma for_each_ext {S} (l : list Z) (f g : Z -> S -> run S) (s : S) :
  (forall i s, In i l -> f i s = g i s) -> for_each l f s = for_each l g s.
Proof.
  revert s; induction l as [|i l IH]; intros s H; cbn; [reflexivity|].
  rewrite (H i s) by (left; reflexivity).
  destruct (g i s); cbn; auto. apply IH. intros; apply H; right; assumption.
Qed.

Lemma for_each_map {S} (h : Z -> Z) (l : list Z) (body : Z -> S -> run S) (s : S) :
  for_each (map h l) body s = for_each l (fun i => body (h i)) s.
Proof.
  revert s; induction l as [|i l IH]; intros s; cbn; [reflexivity|].
  destruct (body (h i) s); cbn; auto.
Qed.

(** A property kept by every iteration holds when the loop returns. *)
Lemma for_each_invariant {S} (P : S -> Prop) (l : list Z) (body : Z -> S -> run S) :
  (forall i s s', In i l -> P s -> body i s = Done s' -> P s') ->
  forall s s', P s -> for_each l body s = Done s' -> P s'.
Proof.
  induction l as [|i l IH]; intros Hbody s s' HP Hrun; cbn in Hrun.
  - injection Hrun as <-. exact HP.
  - destruct (body i s) as [s1| |] eqn:Hb; cbn in Hrun; try discriminate.
    apply (IH (fun i s s' Hi => Hbody i s s' (or_intror Hi)) s1 s'); auto.
    apply (Hbody i s s1); auto. left; reflexivity.
Qed.

(** A counted property: each iteration returns and moves the count on. *)
Lemma for_each_counted {S} (P : nat -> S -> Prop) (l : list Z) (body : Z -> S -> run S) :
  forall m0,
  (forall m i s, In i l -> (m0 <= m < m0 + length l)%nat -> P m s ->
                 exists s', body i s = Done s' /\ P (Datatypes.S m) s') ->
  forall s, P m0 s -> exists s', for_each l body s = Done s' /\ P (m0 + length l)%nat s'.
Proof.
  induction l as [|i l IH]; intros m0 Hbody s HP; cbn.
  - exists s. rewrite Nat.add_0_r. auto.
  - destruct (Hbody m0 i s (or_introl eq_refl) ltac:(cbn; lia) HP) as (s1 & Hb & HP1).
    rewrite Hb; cbn.
    destruct (IH (Datatypes.S m0)
                 (fun m i s Hi Hm => Hbody m i s (or_intror Hi) ltac:(cbn; lia)) s1 HP1)
      as (s' & Hrun & HP').
    exists s'. split; [exact Hrun|].
    replace (m0 + Datatypes.S (length l))%nat with (Datatypes.S m0 + length l)%nat by lia.
    exact HP'.
Qed.

Lemma upto_length n : length (upto n) = Z.to_nat n.
Proof. unfold upto. rewrite length_map, length_seq. reflexivity. Qed.

Lemma in_upto i n : In i (upto n) <-> 0 <= i < n.
Proof.
  unfold upto. rewrite in_map_iff. split.
  - intros (k & <- & Hk). apply in_seq in Hk. lia.
  - intros Hi. exists (Z.to_nat i). split; [lia|]. apply in_seq. lia.
Qed.

Lemma upto_succ n : 0 <= n -> upto (n + 1) = upto n ++ [n].
Proof.
  intros Hn. unfold upto.
  replace (Z.to_nat (n + 1)) with (Datatypes.S (Z.to_nat n)) by lia.
  rewrite seq_S, map_app. cbn. rewrite Z2Nat.id by lia. reflexivity.
Qed.
Lemma load_app_middle pre x post :
  load (pre ++ x :: post) (Z.of_nat (length pre)) = Done x.
Proof.
  unfold load. destruct (Z.ltb_spec (Z.of_nat (length pre)) 0); [lia|].
  rewrite Nat2Z.id, nth_error_app2, Nat.sub_diag by lia. reflexivity.
Qed.

(** Reading the cells [base], [base + 1], ... of a buffer in a counted loop
    visits the segment that starts there, in order. *)
Lemma for_each_segment {S} (g : Z -> S -> S) (body : Z -> S -> run S) seg :
  (forall word s, body word s = Done (g word s)) ->
  forall pre post s,
    for_each (upto (Z.of_nat (length seg)))
      (fun col s => word <- load (pre ++ seg ++ post) (Z.of_nat (length pre) + col) ;;
                    body word s) s
    = Done (fold_left (fun s word => g word s) seg s).
Proof.
  intros Hbody. induction seg as [|x seg IH] using rev_ind; intros pre post s.
  - reflexivity.
  - rewrite length_app, Nat2Z.inj_add. cbn [length Z.of_nat Pos.of_succ_nat].
    rewrite upto_succ, for_each_app by lia.
    assert (E : pre ++ (seg ++ [x]) ++ post = pre ++ seg ++ x :: post)
      by (rewrite <- (app_assoc seg); reflexivity).
    rewrite E, (IH pre (x :: post) s). cbn [bind for_each].
    replace (pre ++ seg ++ x :: post) with ((pre ++ seg) ++ x :: post)
      by (rewrite <- app_assoc; reflexivity).
    replace (Z.of_nat (length pre) + Z.of_nat (length seg))
      with (Z.of_nat (length (pre ++ seg))) by (rewrite length_app; lia).
    rewrite load_app_middle. cbn [bind].
    rewrite Hbody, fold_left_app. reflexivity.
Qed.

(** The row-major loop nest over a [width] x [height] frame reads the
    buffer's cells front to back. *)
Lemma for_each_frame {S} (g : Z -> S -> S) (body : Z -> S -> run S)
      (index : Z -> Z -> Z) (width : Z) :
  0 <= width ->
  (forall word s, body word s = Done (g word s)) ->
  forall (rows : nat) done rest s,
    Z.of_nat (length done) = Z.of_nat rows * width ->
    (forall row col, 0 <= row < Z.of_nat rows -> 0 <= col < width ->
                     index row col = row * width + col) ->
    for_each (upto (Z.of_nat rows))
      (fun row s =>
         for_each (upto width)
           (fun col s => word <- load (done ++ rest) (index row col) ;; body word s) s) s
    = Done (fold_left (fun s word => g word s) done s).
Proof.
  intros Hw Hbody. induction rows as [|rows IH]; intros done rest s Hlen Hidx.
  - cbn in Hlen. destruct done; [reflexivity | cbn in Hlen; lia].
  - rewrite Nat2Z.inj_succ in *. unfold Z.succ in *.
    rewrite upto_succ, for_each_app by lia.
    set (n := Z.to_nat (Z.of_nat rows * width)).
    assert (Hn : Z.of_nat n = Z.of_nat rows * width) by (unfold n; nia).
    assert (Hpre : length (firstn n done) = n) by (apply firstn_length_le; nia).
    assert (Hseg : Z.of_nat (length (skipn n done)) = width)
      by (rewrite length_skipn; nia).
    pose proof (firstn_skipn n done) as Hsplit.
    remember (firstn n done) as pre eqn:Heqpre.
    remember (skipn n done) as seg eqn:Heqseg.
    clear Heqpre Heqseg. subst done.
    assert (E : (pre ++ seg) ++ rest = pre ++ seg ++ rest)
      by (symmetry; apply app_assoc).
    rewrite E.
    rewrite (IH pre (seg ++ rest) s) by (try lia; intros; apply Hidx; lia).
    cbn [bind for_each].
    rewrite (for_each_ext _ _
               (fun col s =>
                  word <- load (pre ++ seg ++ rest) (Z.of_nat (length pre) + col) ;;
                  body word s)).
    + rewrite <- Hseg.
      rewrite (for_each_segment g body seg Hbody). cbn [bind].
      rewrite fold_left_app. reflexivity.
    + intros col s' Hcol. apply in_upto in Hcol.
      rewrite Hidx by lia. rewrite Hpre, Hn. reflexivity.
Qed.


End LoopFacts.
Import LoopFacts.

(* ------------------------------------------------------------------ *)
(** ** PixelCodec *)

Module PixelCodecFacts.
Import PixelCodec.

Lemma byte_as_mod x : is_u8 x -> x = x mod 2 ^ 8.
Proof. intros; symmetry; apply Z.mod_small; unfold is_u8 in *; lia. Qed.

(** The bias is its own inverse on 32-bit words. *)
Lemma unbias x m : u32 (Z.lxor (u32 (Z.lxor x m)) m) = u32 x.
Proof. unfold u32. Z.bitblast. Qed.

Lemma encode_pack r g b : encode r g b = u32 (Z.lxor (pack r g b) BIAS).
Proof. reflexivity. Qed.

Ltac byte_bits :=
  Z.bitblast; subst; rewrite ?Z.testbit_neg_r by lia;
  rewrite ?andb_false_r, ?andb_true_r, ?andb_true_l, ?orb_false_r, ?orb_false_l;
  try reflexivity; try (f_equal; lia).

Ltac as_bytes Hr Hg Hb :=
  unfold pack, u8, u32;
  rewrite (byte_as_mod _ Hr), (byte_as_mod _ Hg), (byte_as_mod _ Hb);
  change 0xFF with (Z.ones 8).

Lemma pack_r r g b :
  is_u8 r -> is_u8 g -> is_u8 b -> u8 (Z.land (u32 (pack r g b)) 0xFF) = r.
Proof. intros Hr Hg Hb. as_bytes Hr Hg Hb. byte_bits. Qed.

Lemma pack_g r g b :
  is_u8 r -> is_u8 g -> is_u8 b ->
  u8 (Z.land (Z.shiftr (u32 (pack r g b)) 8) 0xFF) = g.
Proof. intros Hr Hg Hb. as_bytes Hr Hg Hb. byte_bits. Qed.

Lemma pack_b r g b :
  is_u8 r -> is_u8 g -> is_u8 b ->
  u8 (Z.land (Z.shiftr (u32 (pack r g b)) 16) 0xFF) = b.
Proof. intros Hr Hg Hb. as_bytes Hr Hg Hb. byte_bits. Qed.

(** C1.  For every byte triple, packing as (ch2<<16)|(ch1<<8)|ch0 and
    XOR-ing with 0x00808080 (camera_utils_capture), then XOR-ing again and
    unpacking the three bytes (the exporters), gives the triple back. *)
Theorem decode_encode r g b :
  is_u8 r -> is_u8 g -> is_u8 b -> decode (encode r g b) = (r, g, b).
Proof.
  intros Hr Hg Hb. unfold decode.
  rewrite encode_pack, unbias.
  rewrite pack_r, pack_g, pack_b by assumption.
  reflexivity.
Qed.

Lemma decode_encode_witness :
  PixelCodec.decode (PixelCodec.encode 255 0 128) = (255, 0, 128).
Proof. apply decode_encode; unfold is_u8; lia. Defined.

(** The exporters' unpacking computes the channels of the word, for every
    word. *)
Lemma channels_decode word : Spec.channels word = decode word.
Proof.
  unfold Spec.channels, decode, u8, u32.
  change BIAS with 8421504.
  generalize (Z.lxor word 8421504). intros p. cbv zeta.
  change 255 with (Z.ones 8).
  rewrite !Z.land_ones, !Z.shiftr_div_pow2 by lia.
  change (2 ^ 8) with 256. change (2 ^ 16) with 65536.
  f_equal; [f_equal|]; Z.to_euclidean_division_equations; lia.
Qed.

(** The channels of the packed word of a byte pixel are its channels. *)
Lemma channels_encode r g b :
  is_u8 r -> is_u8 g -> is_u8 b -> Spec.channels (encode r g b) = (r, g, b).
Proof.
  intros Hr Hg Hb. rewrite channels_decode. unfold decode.
  rewrite encode_pack, unbias.
  rewrite pack_r, pack_g, pack_b by assumption.
  reflexivity.
Qed.

End PixelCodecFacts.

(* ------------------------------------------------------------------ *)
(** ** FrameAssembler *)

Module CameraFacts.
Import PixelCodec Camera Spec.

(** An [int] never exceeds its conversion to [uint32_t]. *)
Lemma int_le_u32 x : is_int x -> x <= u32 x.
Proof.
  unfold is_int, u32. intros Hx.
  pose proof (Z.mod_pos_bound x (2 ^ 32) ltac:(lia)).
  destruct (Z_lt_le_dec x 0); [lia|].
  rewrite Z.mod_small; lia.
Qed.

Lemma int32_is_int x : is_int (int32 x).
Proof. apply int32_range. Qed.

Ltac run_cases H :=
  repeat match type of H with
         | bind ?m _ = Done _ =>
             let E := fresh "E" in
             destruct m eqn:E; cbn [bind] in H; try discriminate H
         | (if ?b then _ else _) = Done _ =>
             let E := fresh "E" in destruct b eqn:E
         | match ?x with Some _ => _ | None => _ end = Done _ =>
             let E := fresh "E" in destruct x eqn:E; try discriminate H
         | Done _ = Done _ => injection H as H
         end.

Section Bounds.
Variables cnn_buffer_size rgb565_size : Z.

Lemma put_cnn_safe r g b c c' :
  safe cnn_buffer_size rgb565_size c -> put_cnn cnn_buffer_size r g b c = Done c' ->
  safe cnn_buffer_size rgb565_size c' /\ j c' = j c.
Proof.
  unfold put_cnn. intros (Hc & Hj & Hs) H. run_cases H; subst c'; cbn.
  - split; [|reflexivity]. split; [apply int32_is_int|]. split; [exact Hj|].
    apply Forall_app; split; [exact Hs|].
    constructor; [|constructor]. cbn.
    apply Z.ltb_lt in E. pose proof (int_le_u32 _ Hc). lia.
  - exact (conj (conj Hc (conj Hj Hs)) eq_refl).
Qed.

Lemma put_rgb565_safe r g b c c' :
  safe cnn_buffer_size rgb565_size c ->
  put_rgb565 rgb565_size r g b c = Done c' ->
  safe cnn_buffer_size rgb565_size c'.
Proof.
  unfold put_rgb565. intros (Hc & Hj & Hs) H.
  destruct (rgb565_buffer c) as [cells|] eqn:Hbuf.
  - run_cases H; subst c'; cbn.
    + split; [exact Hc|]. split; [apply int32_is_int|].
      apply Forall_app; split; [exact Hs|].
      apply Z.ltb_lt in E.
      pose proof (int_le_u32 _ (int32_is_int (j c + 1))) as Hle.
      assert (j c < rgb565_size).
      { unfold is_int in Hj. destruct (Z_lt_le_dec (j c + 1) (2 ^ 31)).
        - rewrite int32_small in Hle, E by lia. lia.
        - replace (j c) with (2 ^ 31 - 1) in * by lia.
          change (u32 (int32 (2 ^ 31 - 1 + 1))) with (2 ^ 31) in E. lia. }
      constructor; [cbn; lia|]. constructor; [cbn; lia|]. constructor.
    + exact (conj Hc (conj Hj Hs)).
  - injection H as <-. exact (conj Hc (conj Hj Hs)).
Qed.

Lemma pixel_safe data k c c' :
  safe cnn_buffer_size rgb565_size c ->
  pixel cnn_buffer_size rgb565_size data k c = Done c' ->
  safe cnn_buffer_size rgb565_size c'.
Proof.
  unfold pixel. intros Hs H. run_cases H.
  destruct (put_cnn_safe _ _ _ _ _ Hs E2) as (Hs1 & _).
  eapply put_rgb565_safe; eauto.
Qed.

Lemma scanline_safe w row c c' :
  safe cnn_buffer_size rgb565_size c ->
  scanline cnn_buffer_size rgb565_size w row c = Done c' ->
  safe cnn_buffer_size rgb565_size c'.
Proof.
  unfold scanline. intros (Hc & Hj & Hs) H.
  destruct (wait_stream_buffer (polls c)) as [[data rest]| |] eqn:Hw;
    cbn [bind] in H; try discriminate.
  eapply (for_each_invariant (safe cnn_buffer_size rgb565_size)); [| |exact H].
  - intros i s s' _. apply pixel_safe.
  - split; [exact Hc|]. split; [unfold is_int; cbn; lia|exact Hs].
Qed.

Lemma capture_safe cam cnn_buffer rgb565_buffer r :
  camera_utils_capture cam cnn_buffer cnn_buffer_size rgb565_buffer rgb565_size = Done r ->
  safe cnn_buffer_size rgb565_size (final r).
Proof.
  unfold camera_utils_capture. intros H.
  match type of H with bind ?m _ = _ => destruct m as [c| |] eqn:Hloop end;
    cbn [bind] in H; try discriminate.
  assert (Hc : safe cnn_buffer_size rgb565_size c).
  { eapply (for_each_invariant (safe cnn_buffer_size rgb565_size)); [| |exact Hloop].
    - intros i s s' _. apply scanline_safe.
    - split; [unfold is_int; cbn; lia|]. split; [unfold is_int; cbn; lia|]. constructor. }
  destruct (cam_overflow_count cam >? 0); injection H as <-; exact Hc.
Qed.

End Bounds.

Lemma u32_int32 x : u32 (int32 x) = u32 x.
Proof.
  unfold u32, int32. rewrite Zminus_mod_idemp_l. f_equal. lia.
Qed.

Lemma length_update i v l : length (update i v l) = length l.
Proof.
  revert i; induction l as [|a l IH]; intros [|i]; cbn; auto.
Qed.

Lemma store_at_inside cells i v :
  0 <= i < Z.of_nat (length cells) ->
  exists cells', store_at (Some cells) i v = Done (Some cells')
                 /\ length cells' = length cells.
Proof.
  intros Hi. unfold store_at.
  replace ((0 <=? i) && (i <? Z.of_nat (length cells))) with true
    by (symmetry; apply andb_true_iff; split; [apply Z.leb_le | apply Z.ltb_lt]; lia).
  eexists; split; [reflexivity | apply length_update].
Qed.

Lemma load_inside bytes k :
  0 <= k < Z.of_nat (length bytes) -> exists v, load bytes k = Done v.
Proof.
  intros Hk. unfold load.
  destruct (Z.ltb_spec k 0); [lia|].
  destruct (nth_error bytes (Z.to_nat k)) eqn:E; [eauto|].
  apply nth_error_None in E. lia.
Qed.

Lemma cnn_indices_app l1 l2 : cnn_indices (l1 ++ l2) = cnn_indices l1 ++ cnn_indices l2.
Proof. unfold cnn_indices. apply flat_map_app. Qed.

Lemma wait_stream_buffer_delivers ps l ls :
  delivers ps (l :: ls) ->
  exists ps', wait_stream_buffer ps = Done (Some l, ps') /\ delivers ps' ls.
Proof.
  intros H. remember (l :: ls) as lines eqn:Hl.
  induction H as [ps|ps ls' H IH|ps l' ls' H IH]; [discriminate| |].
  - cbn. apply IH, Hl.
  - injection Hl as -> ->. cbn. eauto.
Qed.

Section Filling.
Variables cnn_buffer_size rgb565_size : Z.
Hypothesis cnn_size_int : 0 <= cnn_buffer_size <= INT_MAX.
Hypothesis rgb_size_int : 0 <= rgb565_size <= INT_MAX.

Lemma put_cnn_filled r g b p c :
  0 <= p -> filled cnn_buffer_size rgb565_size p c ->
  exists c', put_cnn cnn_buffer_size r g b c = Done c'
             /\ filled cnn_buffer_size rgb565_size (p + 1) c'
             /\ polls c' = polls c.
Proof.
  intros Hp (Hcnt & Hidx & Hin & (cells & Hbuf & Hlen) & Hrgb & Hj).
  unfold put_cnn, INT_MAX in *.
  assert (Hc0 : 0 <= cnt c < 2 ^ 31) by lia.
  rewrite u32_small by (unfold is_u32; lia).
  destruct (Z.ltb_spec (cnt c) cnn_buffer_size) as [Hlt|Hge].
  - rewrite Hbuf.
    destruct (store_at_inside cells (cnt c) (encode r g b) ltac:(lia))
      as (cells' & -> & Hlen').
    cbn [bind]. eexists; split; [reflexivity|]. cbn.
    rewrite int32_small by lia.
    split; [|reflexivity]. unfold filled; cbn.
    split; [lia|]. split.
    { rewrite cnn_indices_app, Hidx. cbn. symmetry. apply upto_succ. lia. }
    split.
    { apply Forall_app; split; [exact Hin|]. constructor; [cbn; lia|constructor]. }
    split; [exists cells'; split; [reflexivity | lia]|].
    split; assumption.
  - eexists; split; [reflexivity|]. split; [|reflexivity].
    unfold filled. split; [lia|]. split; [exact Hidx|]. split; [exact Hin|].
    split; [exists cells; auto|]. split; assumption.
Qed.

Lemma put_rgb565_filled r g b p c :
  filled cnn_buffer_size rgb565_size p c ->
  exists c', put_rgb565 rgb565_size r g b c = Done c'
             /\ filled cnn_buffer_size rgb565_size p c'
             /\ polls c' = polls c.
Proof.
  intros (Hcnt & Hidx & Hin & Hcnn & Hrgb & Hj).
  unfold put_rgb565, INT_MAX in *.
  destruct (rgb565_buffer c) as [cells|] eqn:Hbuf.
  - cbn in Hrgb. rewrite u32_int32, u32_small by (unfold is_u32; lia).
    destruct (Z.ltb_spec (j c + 1) rgb565_size) as [Hlt|Hge].
    + rewrite int32_small by lia.
      destruct (store_at_inside cells (j c)
                  (u8 (Z.land (Z.shiftr (to_rgb565 r g b) 8) 255)) ltac:(lia))
        as (cells1 & -> & Hlen1).
      cbn [bind].
      destruct (store_at_inside cells1 (j c + 1)
                  (u8 (Z.land (to_rgb565 r g b) 255)) ltac:(lia))
        as (cells2 & -> & Hlen2).
      cbn [bind]. eexists; split; [reflexivity|]. cbn.
      split; [|reflexivity]. unfold filled; cbn.
      rewrite int32_small by lia.
      split; [exact Hcnt|]. split.
      { rewrite cnn_indices_app, Hidx. cbn. apply app_nil_r. }
      split.
      { apply Forall_app; split; [exact Hin|].
        constructor; [cbn; lia|]. constructor; [cbn; lia|constructor]. }
      split; [exact Hcnn|]. split; [lia|lia].
    + eexists; split; [reflexivity|]. split; [|reflexivity].
      unfold filled. rewrite Hbuf. repeat split; try assumption; try lia.
  - eexists; split; [reflexivity|]. split; [|reflexivity].
    unfold filled. rewrite Hbuf. repeat split; try assumption; try lia.
Qed.

Lemma pixel_filled bytes k p c :
  0 <= p -> 0 <= k -> k + 2 < Z.of_nat (length bytes) ->
  filled cnn_buffer_size rgb565_size p c ->
  exists c', pixel cnn_buffer_size rgb565_size (Some bytes) k c = Done c'
             /\ filled cnn_buffer_size rgb565_size (p + 1) c'
             /\ polls c' = polls c.
Proof.
  intros Hp Hk Hlen Hf. unfold pixel, load_byte.
  destruct (load_inside bytes k ltac:(lia)) as (r & ->).
  destruct (load_inside bytes (k + 1) ltac:(lia)) as (g & ->).
  destruct (load_inside bytes (k + 2) ltac:(lia)) as (b & ->).
  cbn [bind].
  destruct (put_cnn_filled (u8 r) (u8 g) (u8 b) p c Hp Hf) as (c1 & -> & Hf1 & Hp1).
  cbn [bind].
  destruct (put_rgb565_filled (u8 r) (u8 g) (u8 b) (p + 1) c1 Hf1) as (c2 & -> & Hf2 & Hp2).
  exists c2. split; [reflexivity|]. split; [exact Hf2 | congruence].
Qed.

End Filling.

Lemma skipn_next {A} (l : list A) m :
  (m < length l)%nat -> exists x, skipn m l = x :: skipn (Datatypes.S m) l /\ In x l.
Proof.
  revert m; induction l as [|a l IH]; intros m Hm; cbn in Hm; [lia|].
  destruct m as [|m].
  - exists a. split; [reflexivity | left; reflexivity].
  - destruct (IH m ltac:(lia)) as (x & Hx & Hin).
    exists x. split; [exact Hx | right; exact Hin].
Qed.

Lemma strided_4 w : 0 <= w -> strided (4 * w) 4 = map (fun i => 4 * i) (upto w).
Proof.
  intros Hw. unfold strided. f_equal. f_equal.
  symmetry. apply (Z.div_unique _ _ _ 3); lia.
Qed.

Section Frames.
Variables cnn_buffer_size rgb565_size : Z.
Hypothesis cnn_size_int : 0 <= cnn_buffer_size <= INT_MAX.
Hypothesis rgb_size_int : 0 <= rgb565_size <= INT_MAX.

Lemma scanline_filled w row p c l ls :
  0 <= w < 2 ^ 29 -> 0 <= p ->
  filled cnn_buffer_size rgb565_size p c ->
  delivers (polls c) (l :: ls) ->
  4 * w <= Z.of_nat (length l) ->
  exists c', scanline cnn_buffer_size rgb565_size w row c = Done c'
             /\ filled cnn_buffer_size rgb565_size (p + w) c'
             /\ delivers (polls c') ls.
Proof.
  intros Hw Hp Hf Hd Hl. unfold scanline.
  destruct (wait_stream_buffer_delivers _ _ _ Hd) as (ps' & -> & Hd').
  cbn [bind].
  rewrite u32_small by (unfold is_u32; lia).
  rewrite int32_small by lia.
  rewrite strided_4, for_each_map by lia.
  set (c0 := {| cnt := cnt c; j := 0; cnn_buffer := cnn_buffer c;
                rgb565_buffer := rgb565_buffer c; stores := stores c;
                polls := ps' |}).
  destruct (for_each_counted
              (fun m s => filled cnn_buffer_size rgb565_size (p + Z.of_nat m) s
                          /\ polls s = ps')
              (upto w)
              (fun i => pixel cnn_buffer_size rgb565_size (Some l) (4 * i)) 0%nat)
    with (s := c0) as (c' & Hrun & Hf' & Hp').
  - intros m i s Hi _ (Hfs & Hps). apply in_upto in Hi.
    destruct (pixel_filled cnn_buffer_size rgb565_size cnn_size_int rgb_size_int
                l (4 * i) (p + Z.of_nat m) s) as (s' & Hs' & Hfs' & Hps');
      try lia; try assumption.
    exists s'. split; [exact Hs'|]. split; [|congruence].
    replace (p + Z.of_nat (Datatypes.S m)) with (p + Z.of_nat m + 1) by lia.
    exact Hfs'.
  - split; [|reflexivity].
    destruct Hf as (Hcnt & Hidx & Hin & Hcnn & Hrgb & Hj).
    unfold filled, c0; cbn. rewrite Z.add_0_r.
    repeat split; try assumption; lia.
  - exists c'. split; [exact Hrun|].
    rewrite upto_length in Hf'. cbn in Hf'.
    rewrite Z2Nat.id in Hf' by lia.
    split; [exact Hf' | congruence].
Qed.

(** A source that streams the whole frame into buffers of at least the
    declared capacity: the pass returns, with the status the overflow counter
    decides. *)
Lemma capture_total cam lines cells rgb565_buffer :
  streams cam lines ->
  cnn_buffer_size <= Z.of_nat (length cells) ->
  holds rgb565_buffer rgb565_size ->
  exists r,
    camera_utils_capture cam (Some cells) cnn_buffer_size rgb565_buffer rgb565_size
    = Done r
    /\ filled cnn_buffer_size rgb565_size (cam_w cam * cam_h cam) (final r)
    /\ status r = (if cam_overflow_count cam >? 0
                   then CAM_STATUS_OVERFLOW else CAM_STATUS_OK).
Proof.
  intros (Hd & Hlen & Hlines & Hw & Hh) Hcells Hrgb.
  unfold camera_utils_capture.
  rewrite int32_small by lia.
  destruct (for_each_counted
              (fun m s => filled cnn_buffer_size rgb565_size (Z.of_nat m * cam_w cam) s
                          /\ delivers (polls s) (skipn m lines))
              (upto (cam_h cam))
              (scanline cnn_buffer_size rgb565_size (cam_w cam)) 0%nat)
    with (s := {| cnt := 0; j := 0; cnn_buffer := Some cells;
                  rgb565_buffer := rgb565_buffer; stores := [];
                  polls := cam_polls cam |})
    as (c & Hrun & Hf & _).
  - intros m i s _ Hm (Hfs & Hds).
    rewrite upto_length in Hm.
    destruct (skipn_next lines m ltac:(lia)) as (l & Hskip & Hin).
    rewrite Hskip in Hds.
    rewrite Forall_forall in Hlines.
    destruct (scanline_filled (cam_w cam) i (Z.of_nat m * cam_w cam) s l _
                Hw ltac:(nia) Hfs Hds (Hlines l Hin)) as (s' & Hs' & Hfs' & Hds').
    exists s'. split; [exact Hs'|]. split; [|exact Hds'].
    replace (Z.of_nat (Datatypes.S m) * cam_w cam)
      with (Z.of_nat m * cam_w cam + cam_w cam) by lia.
    exact Hfs'.
  - split; [|exact Hd]. unfold filled; cbn. unfold INT_MAX in *.
    split; [lia|]. split; [reflexivity|]. split; [constructor|].
    split; [exists cells; auto|]. split; [exact Hrgb | lia].
  - rewrite Hrun. cbn [bind].
    rewrite upto_length in Hf. cbn in Hf. rewrite Z2Nat.id in Hf by lia.
    rewrite (Z.mul_comm (cam_h cam)) in Hf.
    destruct (cam_overflow_count cam >? 0);
      eexists; (split; [reflexivity|]); cbn; auto.
Qed.

End Frames.

(** The status of a pass that returns is decided by the overflow counter. *)
Lemma capture_status cam cnn_buffer cnn_buffer_size rgb565_buffer rgb565_size r :
  camera_utils_capture cam cnn_buffer cnn_buffer_size rgb565_buffer rgb565_size = Done r ->
  status r = (if cam_overflow_count cam >? 0
              then CAM_STATUS_OVERFLOW else CAM_STATUS_OK).
Proof.
  unfold camera_utils_capture. intros H.
  match type of H with bind ?m _ = _ => destruct m as [c| |] eqn:Hloop end;
    cbn [bind] in H; try discriminate.
  destruct (cam_overflow_count cam >? 0); injection H as <-; reflexivity.
Qed.

(** C5.  Whatever the source's width and height and whatever the declared
    capacities, a capture pass never writes the accelerator buffer at a
    flat index >= cnn_buffer_size, nor the display buffer at a byte index
    >= rgb565_size.  And when the source streams a whole frame into
    buffers of at least the declared capacity, the pass returns, every
    write has landed inside the declared capacity, and the accelerator
    cells written are 0, 1, ..., min(w*h, cnn_buffer_size) - 1: the pixels
    beyond the capacity are dropped. *)
Theorem capture_writes_bounded (cam : camera_hw)
        (cnn_buffer : option (list Z)) (cnn_buffer_size : Z)
        (rgb565_buffer : option (list Z)) (rgb565_size : Z) :
  (forall r,
      camera_utils_capture cam cnn_buffer cnn_buffer_size rgb565_buffer rgb565_size
      = Done r ->
      Forall (below cnn_buffer_size rgb565_size) (stores (final r)))
  /\ (forall lines cells,
         cnn_buffer = Some cells ->
         streams cam lines ->
         0 <= cnn_buffer_size <= INT_MAX ->
         0 <= rgb565_size <= INT_MAX ->
         cnn_buffer_size <= Z.of_nat (length cells) ->
         holds rgb565_buffer rgb565_size ->
         exists r,
           camera_utils_capture cam cnn_buffer cnn_buffer_size rgb565_buffer rgb565_size
           = Done r
           /\ Forall (inside cnn_buffer_size rgb565_size) (stores (final r))
           /\ cnn_indices (stores (final r))
              = upto (Z.min (cam_w cam * cam_h cam) cnn_buffer_size)).
Proof.
  split.
  - intros r Hr. apply (capture_safe _ _ _ _ _ _ Hr).
  - intros lines cells -> Hs Hc Hr Hlen Hrgb.
    destruct (capture_total cnn_buffer_size rgb565_size Hc Hr cam lines cells
                rgb565_buffer Hs Hlen Hrgb) as (r & Hrun & Hf & _).
    exists r. split; [exact Hrun|].
    destruct Hf as (Hcnt & Hidx & Hin & _).
    split; [exact Hin|]. rewrite Hidx, Hcnt. reflexivity.
Qed.

Lemma two_pixels_stream :
  streams Examples.two_pixels [[10; 20; 30; 0; 40; 50; 60; 0]].
Proof.
  unfold streams; cbn.
  split; [repeat constructor|]. split; [reflexivity|].
  split; [apply Forall_cons; [cbn; lia | apply Forall_nil]|]. lia.
Qed.

Lemma capture_writes_bounded_witness :
  exists r,
    camera_utils_capture Examples.two_pixels (Some [7; 7; 7]) 1 (Some [0; 0; 0; 0]) 4
    = Done r
    /\ Forall (inside 1 4) (stores (final r))
    /\ cnn_indices (stores (final r)) = upto (Z.min (2 * 1) 1).
Proof.
  apply (proj2 (capture_writes_bounded Examples.two_pixels (Some [7; 7; 7]) 1
                  (Some [0; 0; 0; 0]) 4)
               [[10; 20; 30; 0; 40; 50; 60; 0]] [7; 7; 7]).
  - reflexivity.
  - exact two_pixels_stream.
  - unfold INT_MAX; lia.
  - unfold INT_MAX; lia.
  - cbn; lia.
  - cbn; lia.
Defined.

(** Two pixels into three cells with a declared capacity of one: the first
    cell is written, the second pixel is dropped, the cells beyond the
    declared capacity keep their contents. *)
Lemma capture_drops_beyond_capacity :
  exists r,
    camera_utils_capture Examples.two_pixels (Some [7; 7; 7]) 1 None 0 = Done r
    /\ status r = CAM_STATUS_OK
    /\ cnn_buffer (final r) = Some [encode 10 20 30; 7; 7]
    /\ stores (final r) = [StoreCnn 0 (encode 10 20 30)].
Proof. eexists. split; [reflexivity|]. repeat split. Qed.

(** A NULL accelerator buffer with a non-zero declared capacity: the first
    pixel is written through the NULL pointer. *)
Lemma capture_null_cnn_buffer :
  camera_utils_capture Examples.one_pixel None 1 None 0 = Undefined.
Proof. reflexivity. Qed.

(** With a declared capacity of zero nothing is written, NULL or not; and
    a NULL display buffer is never written. *)
Lemma capture_zero_capacity cam rgb565_size r :
  camera_utils_capture cam None 0 None rgb565_size = Done r ->
  stores (final r) = [].
Proof.
  unfold camera_utils_capture. intros H.
  match type of H with bind ?m _ = _ => destruct m as [c| |] eqn:Hloop end;
    cbn [bind] in H; try discriminate.
  assert (Hc : stores c = [] /\ cnn_buffer c = None /\ rgb565_buffer c = None
               /\ is_int (cnt c)).
  { eapply (for_each_invariant
              (fun c => stores c = [] /\ cnn_buffer c = None /\ rgb565_buffer c = None
                        /\ is_int (cnt c))); [| |exact Hloop].
    - intros row s s' _ Hs Hrow. unfold scanline in Hrow.
      destruct (wait_stream_buffer (polls s)) as [[data rest]| |];
        cbn [bind] in Hrow; try discriminate.
      eapply (for_each_invariant
                (fun c => stores c = [] /\ cnn_buffer c = None
                          /\ rgb565_buffer c = None /\ is_int (cnt c)));
        [| |exact Hrow]; [|exact Hs].
      intros k t t' _ (Ht1 & Ht2 & Ht3 & Ht4) Hpix. unfold pixel in Hpix.
      run_cases Hpix.
      unfold put_cnn in E2.
      destruct (Z.ltb_spec (u32 (cnt t)) 0) as [Hlt|_].
      { pose proof (u32_range (cnt t)) as Hu. unfold is_u32 in Hu. lia. }
      injection E2 as <-.
      unfold put_rgb565 in Hpix. rewrite Ht3 in Hpix. injection Hpix as <-.
      auto.
    - cbn. repeat split; unfold is_int; lia. }
  destruct (cam_overflow_count cam >? 0); injection H as <-; apply Hc.
Qed.


End CameraFacts.

(* ------------------------------------------------------------------ *)
(** ** The capture cycle *)

Module MainFacts.
Import Camera Inference Main Spec CameraFacts.

Lemma capture_frame_returns (w : world) lines :
  streams (camera w) lines ->
  Z.of_nat (length (input_buffer w)) = INPUT_WORDS ->
  Z.of_nat (length (data565 w)) = DATA565_SIZE ->
  exists cap w',
    camera_utils_capture (camera w) (Some (input_buffer w)) INPUT_WORDS
                         (Some (data565 w)) DATA565_SIZE = Done cap
    /\ capture_frame w = Done (status cap, w')
    /\ cnn w' = cnn w
    /\ status cap = (if cam_overflow_count (camera w) >? 0
                     then CAM_STATUS_OVERFLOW else CAM_STATUS_OK).
Proof.
  intros Hs Hin Hd.
  assert (Hin' : INPUT_WORDS <= Z.of_nat (length (input_buffer w))) by lia.
  assert (Hd' : holds (Some (data565 w)) DATA565_SIZE) by (unfold holds; lia).
  destruct (capture_total INPUT_WORDS DATA565_SIZE
              ltac:(unfold INPUT_WORDS, INT_MAX; lia)
              ltac:(unfold DATA565_SIZE, IMAGE_SIZE_X, IMAGE_SIZE_Y, INT_MAX; lia)
              (camera w) lines (input_buffer w) (Some (data565 w)) Hs Hin' Hd')
    as (cap & Hcap & _ & Hst).
  unfold capture_frame. rewrite Hcap. cbn [bind].
  eexists _, _. split; [reflexivity|]. split; [reflexivity|]. split; [reflexivity|].
  exact Hst.
Qed.

(** C4.  A capture pass returns CAM_STATUS_OVERFLOW exactly when the
    overflow counter the source reports after the scanlines is non-zero,
    and CAM_STATUS_OK otherwise; and on CAM_STATUS_OVERFLOW neither caller
    goes on to the accelerator with that frame: [run_single_capture] halts
    and the live feed skips to the next frame, the accelerator untouched
    (no start, no FIFO write, no wait). *)
Theorem overflow_is_terminal (n : nat) (softmax_fn : list Z -> nat -> list Z)
        (timer : bool) (w : world) (result : option inference_result_t)
        (frame_count : Z) (lines : list (list Z)) :
  streams (camera w) lines ->
  Z.of_nat (length (input_buffer w)) = INPUT_WORDS ->
  Z.of_nat (length (data565 w)) = DATA565_SIZE ->
  0 <= cam_overflow_count (camera w) ->
  (forall cnn_buffer cnn_buffer_size rgb565_buffer rgb565_size r,
      camera_utils_capture (camera w) cnn_buffer cnn_buffer_size
                           rgb565_buffer rgb565_size = Done r ->
      (status r = CAM_STATUS_OVERFLOW <-> cam_overflow_count (camera w) <> 0)
      /\ (status r = CAM_STATUS_OK <-> cam_overflow_count (camera w) = 0))
  /\ (exists cap,
         camera_utils_capture (camera w) (Some (input_buffer w)) INPUT_WORDS
                              (Some (data565 w)) DATA565_SIZE = Done cap)
  /\ (cam_overflow_count (camera w) <> 0 ->
      (exists w', run_single_capture n softmax_fn timer result w
                  = Done (Halts, result, w')
                  /\ cnn w' = cnn w)
      /\ (button w = false ->
          exists w', live_feed_frame n softmax_fn frame_count w
                     = Done (Continue, frame_count, w')
                     /\ cnn w' = cnn w)).
Proof.
  intros Hs Hin Hd Hov. split; [|split].
  - intros cb cs rb rs r Hr. rewrite (capture_status _ _ _ _ _ _ Hr).
    destruct (Z.gtb_spec (cam_overflow_count (camera w)) 0);
      split; split; intros; try congruence; try lia; try reflexivity.
  - destruct (capture_frame_returns w lines Hs Hin Hd) as (cap & _ & Hcap & _).
    eauto.
  - intros Hne. split.
    + unfold run_single_capture.
      match goal with
      | |- context [capture_frame ?w2] =>
          destruct (capture_frame_returns w2 lines Hs Hin Hd)
            as (cap & w3 & _ & Hcap & Hcnn & Hst)
      end.
      rewrite Hcap. cbn [bind].
      cbn [camera say] in Hst.
      destruct (Z.gtb_spec (cam_overflow_count (camera w)) 0); [|lia].
      rewrite Hst. eexists. split; [reflexivity|]. cbn. exact Hcnn.
    + intros Hb. unfold live_feed_frame. rewrite Hb.
      destruct (capture_frame_returns w lines Hs Hin Hd)
        as (cap & w1 & _ & Hcap & Hcnn & Hst).
      rewrite Hcap. cbn [bind].
      destruct (Z.gtb_spec (cam_overflow_count (camera w)) 0); [|lia].
      rewrite Hst. eexists. split; [reflexivity|]. cbn. exact Hcnn.
Qed.
Lemma capture_frame_status (w : world) st w1 :
  capture_frame w = Done (st, w1) ->
  cnn w1 = cnn w
  /\ st = (if cam_overflow_count (camera w) >? 0
           then CAM_STATUS_OVERFLOW else CAM_STATUS_OK).
Proof.
  unfold capture_frame. intros H.
  match type of H with bind ?m _ = _ => destruct m as [cap| |] eqn:Hcap end;
    cbn [bind] in H; try discriminate.
  injection H as <- <-. split; [reflexivity|].
  apply (capture_status _ _ _ _ _ _ Hcap).
Qed.

Lemma load_input_appends input_data num_words hw hw' :
  inference_load_input input_data num_words hw = Done hw' ->
  exists pushed, ops hw' = ops hw ++ pushed.
Proof.
  unfold inference_load_input.
  apply (for_each_invariant (fun h => exists pushed, ops h = ops hw ++ pushed)).
  - intros i s s' _ (pushed & Hs) Hpush. unfold push_word in Hpush.
    destruct (wait_fifo (fifo_status s)); cbn [bind] in Hpush; try discriminate.
    destruct input_data as [words|]; try discriminate.
    destruct (load words i); cbn [bind] in Hpush; try discriminate.
    injection Hpush as <-. cbn [ops]. rewrite Hs, <- app_assoc. eauto.
  - exists []. symmetry. apply app_nil_r.
Qed.

Lemma inference_wait_appends n softmax_fn result hw st result' hw' :
  inference_wait n softmax_fn result hw = Done (st, result', hw') ->
  exists more, ops hw' = ops hw ++ more.
Proof.
  unfold inference_wait. intros H. destruct result.
  - destruct (wait_cnn_time (cnn_time hw) (wakeups hw) []) as [[[t rest] slept]| |];
      cbn [bind] in H; try discriminate.
    destruct (find_max n (softmax_fn (cnn_output hw) n)).
    injection H as _ _ <-. cbn [ops]. eauto.
  - injection H as _ _ <-. exists []. symmetry. apply app_nil_r.
Qed.

Lemma present_keeps_cnn n timer res (w w' : world) :
  present n timer res w = Done w' -> cnn w' = cnn w.
Proof.
  unfold present. intros H.
  match type of H with bind ?m _ = _ => destruct m as [ppm| |] end;
    cbn [bind] in H; [|discriminate H ..].
  apply Done_inj in H. subst w'. reflexivity.
Qed.

(** The other branch of the overflow test: a frame without overflow is handed to the
    accelerator, whose first operation after the capture is the start. *)
Lemma clean_frame_reaches_accelerator (n : nat) (softmax_fn : list Z -> nat -> list Z)
      (timer : bool) (w : world) (result : option inference_result_t) e r w' :
  cam_overflow_count (camera w) <= 0 ->
  run_single_capture n softmax_fn timer result w = Done (e, r, w') ->
  e = Returns /\ exists rest, ops (cnn w') = ops (cnn w) ++ CnnStart :: rest.
Proof.
  intros Hov H. unfold run_single_capture in H.
  match type of H with bind ?m _ = _ => destruct m as [[st w3]| |] eqn:Hcap end;
    cbn [bind] in H; try discriminate.
  apply capture_frame_status in Hcap. destruct Hcap as (Hcnn & Hst).
  cbn [camera say cnn] in Hcnn, Hst.
  destruct (Z.gtb_spec (cam_overflow_count (camera w)) 0); [lia|]. subst st.
  match type of H with bind ?m _ = _ => destruct m as [loaded| |] eqn:Hload end;
    cbn [bind] in H; try discriminate.
  apply load_input_appends in Hload. destruct Hload as (pushed & Hpushed).
  match type of H with bind ?m _ = _ => destruct m as [[[s res] hw]| |] eqn:Hwait end;
    cbn [bind] in H; try discriminate.
  apply inference_wait_appends in Hwait. destruct Hwait as (more & Hmore).
  assert (Hops : ops hw = ops (cnn w) ++ CnnStart :: pushed ++ more).
  { rewrite Hmore, Hpushed. cbn [ops inference_start say cnn].
    rewrite Hcnn, <- !app_assoc. reflexivity. }
  destruct s; [destruct res as [res0|]| |];
    [| apply Done_triple in H; destruct H as (<- & _ & <-);
       cbn [cnn say with_cnn]; split; [reflexivity | eauto] ..].
  match type of H with bind ?m _ = _ => destruct m as [w6| |] eqn:Hpresent end;
    cbn [bind] in H; [|discriminate H ..].
  apply present_keeps_cnn in Hpresent.
  apply Done_triple in H. destruct H as (<- & _ & <-).
  rewrite Hpresent. cbn [cnn say with_cnn].
  split; [reflexivity | eauto].
Qed.

Lemma one_line_streams cam l :
  cam_polls cam = [Line l] -> cam_h cam = 1 ->
  4 * cam_w cam <= Z.of_nat (length l) -> 0 <= cam_w cam < 2 ^ 29 ->
  streams cam [l].
Proof.
  intros Hp Hh Hl Hw. unfold streams. rewrite Hp, Hh.
  split; [repeat constructor|]. split; [reflexivity|].
  split; [apply Forall_cons; [exact Hl | apply Forall_nil]|]. split; [exact Hw | lia].
Qed.

Lemma overflow_is_terminal_witness :
  (exists w', run_single_capture 2 (fun _ _ => [100; 100]) false
                (Some Examples.empty_result) Examples.overflowed_world
              = Done (Halts, Some Examples.empty_result, w')
              /\ cnn w' = cnn Examples.overflowed_world)
  /\ (button Examples.overflowed_world = false ->
      exists w', live_feed_frame 2 (fun _ _ => [100; 100]) 0 Examples.overflowed_world
                 = Done (Continue, 0, w')
                 /\ cnn w' = cnn Examples.overflowed_world).
Proof.
  apply (overflow_is_terminal 2 (fun _ _ => [100; 100]) false
           Examples.overflowed_world (Some Examples.empty_result) 0
           [[255; 0; 128; 0]]).
  - apply one_line_streams; cbn; try reflexivity; lia.
  - vm_compute. reflexivity.
  - vm_compute. reflexivity.
  - cbn. lia.
  - cbn. lia.
Defined.


End MainFacts.

(* ------------------------------------------------------------------ *)
(** ** FrameExporter *)

Module SerialFacts.
Import PixelCodec Serial Spec.

Lemma table_is_alphabet : text base64_table = alphabet.
Proof. reflexivity. Qed.

Lemma table_char_sextet i : 0 <= i < 64 -> table_char i = sextet i.
Proof.
  intros Hi. unfold table_char, sextet. rewrite table_is_alphabet.
  apply nth_indep. change (length alphabet) with 64%nat. lia.
Qed.

Lemma lor_shiftl_low u v k :
  0 <= k -> 0 <= v < 2 ^ k -> Z.lor (Z.shiftl u k) v = u * 2 ^ k + v.
Proof.
  intros Hk Hv. rewrite <- Z.shiftl_mul_pow2 by lia.
  apply Z.or_to_plus.
  rewrite <- (Z.mod_small v (2 ^ k)) by lia.
  Z.bitblast; subst; rewrite ?Z.testbit_neg_r by lia;
    rewrite ?andb_false_r, ?andb_false_l; try reflexivity.
Qed.

Ltac to_arith :=
  change 0x3F with (Z.ones 6); change 0x03 with (Z.ones 2);
  change 0x0F with (Z.ones 4);
  rewrite ?Z.land_ones, ?Z.shiftr_div_pow2 by lia;
  rewrite ?lor_shiftl_low by (try lia; apply Z.mod_pos_bound; lia);
  change (2 ^ 2) with 4; change (2 ^ 4) with 16; change (2 ^ 6) with 64.

Ltac euclid := Z.to_euclidean_division_equations; lia.

Section Sextets.
Variables a b c : Z.
Hypothesis byte_a : is_u8 a.
Hypothesis byte_b : is_u8 b.
Hypothesis byte_c : is_u8 c.

Lemma index0 : Z.land (Z.shiftr a 2) 0x3F = group24 a b c / 262144.
Proof. unfold group24, is_u8 in *. to_arith. euclid. Qed.

Lemma index1 :
  Z.lor (Z.shiftl (Z.land a 0x03) 4) (Z.land (Z.shiftr b 4) 0x0F) = group24 a b c / 4096 mod 64.
Proof. unfold group24, is_u8 in *. to_arith. euclid. Qed.

Lemma index2 :
  Z.lor (Z.shiftl (Z.land b 0x0F) 2) (Z.land (Z.shiftr c 6) 0x03) = group24 a b c / 64 mod 64.
Proof. unfold group24, is_u8 in *. to_arith. euclid. Qed.

Lemma index3 : Z.land c 0x3F = group24 a b c mod 64.
Proof. unfold group24, is_u8 in *. to_arith. euclid. Qed.

Lemma char0_sextet : char0 (a, b, c) = sextet (group24 a b c / 262144).
Proof.
  unfold char0. rewrite index0. apply table_char_sextet.
  unfold group24, is_u8 in *. euclid.
Qed.

Lemma char1_sextet : char1 (a, b, c) = sextet (group24 a b c / 4096 mod 64).
Proof.
  unfold char1. rewrite index1. apply table_char_sextet. apply Z.mod_pos_bound; lia.
Qed.

Lemma char2_sextet : char2 (a, b, c) = sextet (group24 a b c / 64 mod 64).
Proof.
  unfold char2. rewrite index2. apply table_char_sextet. apply Z.mod_pos_bound; lia.
Qed.

Lemma char3_sextet : char3 (a, b, c) = sextet (group24 a b c mod 64).
Proof.
  unfold char3. rewrite index3. apply table_char_sextet. apply Z.mod_pos_bound; lia.
Qed.

End Sextets.
Lemma decode_bytes word r g b :
  decode word = (r, g, b) -> is_u8 r /\ is_u8 g /\ is_u8 b.
Proof.
  unfold decode. intros H. injection H as <- <- <-.
  repeat split; apply u8_range.
Qed.

(** The four characters the encoder writes for a full group are the
    group's four sextets. *)
Lemma quad_sextets a b c rest :
  is_u8 a -> is_u8 b -> is_u8 c ->
  char0 (a, b, c) :: char1 (a, b, c) :: char2 (a, b, c) :: char3 (a, b, c)
        :: base64 rest
  = base64 (a :: b :: c :: rest).
Proof.
  intros Ha Hb Hc. cbn [base64].
  rewrite (char0_sextet a b c Ha Hb Hc), (char1_sextet a b c Ha Hb Hc),
          (char2_sextet a b c Ha Hb Hc), (char3_sextet a b c Ha Hb Hc).
  reflexivity.
Qed.

Lemma push_first t len o v :
  push_byte {| triplet := t; triplet_idx := 0; line_len := len; out := o |} v
  = {| triplet := set_triplet t 0 v; triplet_idx := 1; line_len := len; out := o |}.
Proof. reflexivity. Qed.

Lemma push_second t len o v :
  push_byte {| triplet := t; triplet_idx := 1; line_len := len; out := o |} v
  = {| triplet := set_triplet t 1 v; triplet_idx := 2; line_len := len; out := o |}.
Proof. reflexivity. Qed.

Lemma push_third t len o v :
  push_byte {| triplet := t; triplet_idx := 2; line_len := len; out := o |} v
  = let t' := set_triplet t 2 v in
    {| triplet := t'; triplet_idx := 0;
       line_len := if len + 4 >=? 76 then 0 else len + 4;
       out := o ++ [char0 t'; char1 t'; char2 t'; char3 t']
                ++ if len + 4 >=? 76 then [nl] else [] |}.
Proof.
  unfold push_byte. cbn [triplet triplet_idx line_len out].
  change (2 + 1 =? 3) with true. cbv iota zeta.
  destruct (len + 4 >=? 76); [reflexivity|].
  rewrite app_nil_r. reflexivity.
Qed.

(** Pushing the three bytes of a pixel into an encoder with no pending
    byte. *)
Lemma push_rgb e r g b :
  triplet_idx e = 0 ->
  fold_left push_byte [r; g; b] e
  = {| triplet := (r, g, b); triplet_idx := 0;
       line_len := if line_len e + 4 >=? 76 then 0 else line_len e + 4;
       out := out e ++ [char0 (r, g, b); char1 (r, g, b);
                        char2 (r, g, b); char3 (r, g, b)]
                    ++ if line_len e + 4 >=? 76 then [nl] else [] |}.
Proof.
  destruct e as [[[t0 t1] t2] idx len o]. cbn [triplet_idx line_len out]. intros ->.
  cbn [fold_left]. rewrite push_first, push_second, push_third. reflexivity.
Qed.

Lemma break_quad m c0 c1 c2 c3 rest :
  (m < 19)%nat ->
  break_lines 76 (4 * m) (c0 :: c1 :: c2 :: c3 :: rest)
  = c0 :: c1 :: c2 :: c3
       :: (if (m =? 18)%nat then nl :: break_lines 76 0 rest
           else break_lines 76 (4 * Datatypes.S m) rest).
Proof.
  intros Hm. remember (4 * m)%nat as col eqn:Hcol.
  cbn [break_lines].
  destruct (Nat.eqb_spec (Datatypes.S col) 76); [lia|].
  destruct (Nat.eqb_spec (Datatypes.S (Datatypes.S col)) 76); [lia|].
  destruct (Nat.eqb_spec (Datatypes.S (Datatypes.S (Datatypes.S col))) 76); [lia|].
  destruct (Nat.eqb_spec (Datatypes.S (Datatypes.S (Datatypes.S (Datatypes.S col)))) 76),
           (Nat.eqb_spec m 18); try lia; [reflexivity|].
  replace (4 * Datatypes.S m)%nat
    with (Datatypes.S (Datatypes.S (Datatypes.S (Datatypes.S col)))) by lia.
  reflexivity.
Qed.

(** Over whole pixels the encoder writes the base64 text of the bytes,
    broken after every 76 characters. *)
Lemma encode_words ws : forall e m,
  triplet_idx e = 0 -> line_len e = Z.of_nat (4 * m) -> (m < 19)%nat ->
  let e' := fold_left (fun e word => push_pixel word e) ws e in
  triplet_idx e' = 0
  /\ out e' = out e ++ break_lines 76 (4 * m) (base64 (frame_bytes ws)).
Proof.
  induction ws as [|word ws IH]; intros e m Hidx Hlen Hm; cbn zeta.
  - cbn. rewrite app_nil_r. auto.
  - cbn [fold_left].
    destruct (decode word) as [[r g] b] eqn:Hdec.
    destruct (decode_bytes _ _ _ _ Hdec) as (Hr & Hg & Hb).
    assert (Hpw : push_pixel word e = fold_left push_byte [r; g; b] e)
      by (unfold push_pixel; rewrite Hdec; reflexivity).
    rewrite Hpw, (push_rgb e r g b Hidx).
    assert (Hbytes : frame_bytes (word :: ws) = r :: g :: b :: frame_bytes ws)
      by (unfold frame_bytes; cbn [flat_map];
          rewrite PixelCodecFacts.channels_decode, Hdec; reflexivity).
    rewrite Hbytes, <- quad_sextets, break_quad by assumption.
    rewrite Hlen.
    destruct (Nat.eqb_spec m 18) as [->|Hne].
    + destruct (Z.geb_spec (Z.of_nat (4 * 18) + 4) 76) as [Hge|Hlt]; [|lia].
      match goal with
      | |- context [fold_left _ ws ?e1] =>
          destruct (IH e1 0%nat eq_refl eq_refl ltac:(lia)) as (H1 & H2)
      end.
      cbn zeta in H1, H2. split; [exact H1|].
      rewrite H2. cbn [out]. rewrite <- !app_assoc. reflexivity.
    + destruct (Z.geb_spec (Z.of_nat (4 * m) + 4) 76) as [Hge|Hlt]; [lia|].
      match goal with
      | |- context [fold_left _ ws ?e1] =>
          destruct (IH e1 (Datatypes.S m) eq_refl ltac:(cbn [line_len]; lia) ltac:(lia))
            as (H1 & H2)
      end.
      cbn zeta in H1, H2. split; [exact H1|].
      rewrite H2. cbn [out]. rewrite <- !app_assoc. reflexivity.
Qed.

Lemma flat_index_small row width height col :
  0 <= row < height -> 0 <= col < width -> width * height <= INT_MAX ->
  flat_index row width col = row * width + col.
Proof.
  intros Hrow Hcol Hmax. unfold flat_index, INT_MAX in *.
  rewrite (int32_small (row * width)) by nia.
  apply int32_small. nia.
Qed.

(** The final partial group: one leftover byte gives two characters and
    "==", two give three characters and "=". *)
Lemma flush_one e a :
  is_u8 a -> triplet_idx e = 0 -> flush (push_byte e a) = out e ++ base64 [a].
Proof.
  intros Ha. destruct e as [[[t0 t1] t2] idx len o].
  cbn [triplet_idx out]. intros ->.
  rewrite push_first. unfold flush. cbn -[char0 char1 char2 char3].
  rewrite (char0_sextet a 0 0), (char1_sextet a 0 0)
    by (assumption || (unfold is_u8; lia)).
  reflexivity.
Qed.

Lemma flush_two e a b :
  is_u8 a -> is_u8 b -> triplet_idx e = 0 ->
  flush (fold_left push_byte [a; b] e) = out e ++ base64 [a; b].
Proof.
  intros Ha Hb. destruct e as [[[t0 t1] t2] idx len o].
  cbn [triplet_idx out]. intros ->.
  cbn [fold_left]. rewrite push_first, push_second.
  unfold flush. cbn -[char0 char1 char2 char3].
  rewrite (char0_sextet a b 0), (char1_sextet a b 0), (char2_sextet a b 0)
    by (assumption || (unfold is_u8; lia)).
  reflexivity.
Qed.

Lemma base64_frame buf width height :
  frame buf width height ->
  serial_stream_base64 (Some buf) width height = Done (base64_export buf width height).
Proof.
  intros (Hw & Hh & Hmax & Hlen). unfold serial_stream_base64.
  set (header := line "<<<BASE64_IMG_START>>>" ++ _).
  set (e0 := {| triplet := (0, 0, 0); triplet_idx := 0; line_len := 0; out := header |}).
  pose proof (for_each_frame push_pixel (fun word e => Done (push_pixel word e))
                (fun row col => flat_index row width col) width Hw
                (fun _ _ => eq_refl) (Z.to_nat height) buf [] e0) as Hloop.
  rewrite app_nil_r, Z2Nat.id in Hloop by exact Hh.
  rewrite Hloop.
  - cbn [bind].
    destruct (encode_words buf e0 0%nat eq_refl eq_refl ltac:(lia)) as (Hidx & Hout).
    cbn zeta in Hidx, Hout.
    unfold flush. rewrite Hidx. cbn [Z.gtb Z.compare].
    rewrite Hout. unfold base64_export, e0, header. cbn [out Nat.mul].
    rewrite <- !app_assoc. reflexivity.
  - lia.
  - intros row col Hrow Hcol. apply (flat_index_small row width height); lia.
Qed.

(** The byte stream of a frame of byte pixels is their channel values. *)
Lemma frame_bytes_packed pixels :
  Forall byte_pixel pixels -> frame_bytes (packed_frame pixels) = pixel_bytes pixels.
Proof.
  unfold frame_bytes, packed_frame, pixel_bytes.
  induction 1 as [|[[r g] b] pixels (Hr & Hg & Hb) _ IH]; [reflexivity|].
  cbn [map flat_map].
  rewrite (PixelCodecFacts.channels_encode r g b Hr Hg Hb), IH. reflexivity.
Qed.

(** C6.  For every frame, [serial_stream_base64] writes the start marker
    line, a WIDTH:<w>,HEIGHT:<h> line, then the R, G, B bytes of each pixel
    in row-major order, three bytes to four characters of the standard
    alphabet with a line break after every 76 characters, then a newline
    and the end marker line.  The bytes are those the specification gives
    a packed word (bias off, byte k is channel k), for every buffer; and
    for a frame given by its pixels' channel values, as the capture packs
    them, they are exactly those values, R, G, B per pixel.  The encoder
    pads a final group of one or two bytes with '='; and a 1-pixel frame
    with channels (255, 0, 128) gives exactly the four characters "/wCA"
    with no padding. *)
Theorem base64_export_correct :
  (forall buf width height,
      frame buf width height ->
      serial_stream_base64 (Some buf) width height
      = Done (base64_export buf width height))
  /\ (forall pixels width height,
         Forall byte_pixel pixels ->
         frame (packed_frame pixels) width height ->
         serial_stream_base64 (Some (packed_frame pixels)) width height
         = Done (line "<<<BASE64_IMG_START>>>"
                   ++ text "WIDTH:" ++ fmt_d width
                   ++ text ",HEIGHT:" ++ fmt_d height ++ [nl]
                   ++ break_lines 76 0 (base64 (pixel_bytes pixels))
                   ++ [nl] ++ line "<<<BASE64_IMG_END>>>"))
  /\ (forall e a,
         is_u8 a -> triplet_idx e = 0 -> flush (push_byte e a) = out e ++ base64 [a])
  /\ (forall e a b,
         is_u8 a -> is_u8 b -> triplet_idx e = 0 ->
         flush (fold_left push_byte [a; b] e) = out e ++ base64 [a; b])
  /\ serial_stream_base64 (Some [encode 255 0 128]) 1 1
     = Done (line "<<<BASE64_IMG_START>>>" ++ line "WIDTH:1,HEIGHT:1"
               ++ line "/wCA" ++ line "<<<BASE64_IMG_END>>>").
Proof.
  split; [exact base64_frame|].
  split.
  { intros pixels width height Hpixels Hframe.
    rewrite (base64_frame _ width height Hframe).
    unfold base64_export. rewrite (frame_bytes_packed pixels Hpixels).
    reflexivity. }
  split; [exact flush_one|].
  split; [exact flush_two|].
  reflexivity.
Qed.

Lemma base64_export_correct_witness :
  serial_stream_base64 (Some Examples.frame_2x2) 2 2
  = Done (base64_export Examples.frame_2x2 2 2)
  /\ serial_stream_base64
       (Some (packed_frame [(255, 0, 128); (1, 2, 3); (0, 0, 0); (171, 18, 255)]))
       2 2
     = Done (line "<<<BASE64_IMG_START>>>"
               ++ text "WIDTH:" ++ fmt_d 2 ++ text ",HEIGHT:" ++ fmt_d 2 ++ [nl]
               ++ break_lines 76 0
                    (base64 (pixel_bytes
                               [(255, 0, 128); (1, 2, 3); (0, 0, 0); (171, 18, 255)]))
               ++ [nl] ++ line "<<<BASE64_IMG_END>>>").
Proof.
  split.
  - apply (proj1 base64_export_correct).
    unfold frame, INT_MAX. cbn. lia.
  - apply (proj1 (proj2 base64_export_correct)).
    + repeat (apply Forall_cons; [unfold byte_pixel, is_u8; lia|]).
      apply Forall_nil.
    + unfold frame, INT_MAX. cbn. lia.
Defined.


(** Hex export of the single pixel R=0xAB, G=0x12, B=0xFF. *)
Lemma hex_single_pixel :
  serial_stream_hex (Some [encode 0xAB 0x12 0xFF]) 1 1
  = Done (line "=== HEX IMAGE DATA ===" ++ line "Size: 1x1" ++ line "AB12FF"
            ++ line "=== END HEX DATA ===").
Proof. reflexivity. Qed.

(** End to end: a 2 x 2 frame goes through the frame assembler and comes
    out of the plain-text export with the channel values it had. *)
Lemma capture_then_ppm :
  exists r buf,
    Camera.camera_utils_capture Examples.four_pixels (Some [0; 0; 0; 0]) 4 None 0
    = Done r
    /\ Camera.cnn_buffer (Camera.final r) = Some buf
    /\ serial_stream_ppm (Some buf) 2 2
       = Done (line "P3" ++ line "# Captured from MAX78000 CNN"
                 ++ line "2 2" ++ line "255"
                 ++ line "10 20 30 40 50 60 "
                 ++ line "255 0 128 171 18 255 ").
Proof.
  eexists _, _. split; [reflexivity|]. split; reflexivity.
Qed.

End SerialFacts.

(* ------------------------------------------------------------------ *)
(** ** AsciiPreview *)

Module DisplayFacts.
Import PixelCodec Display Spec.

(** A stepping loop whose steps are positive and cannot leave [int] ends
    within [bound - i] iterations. *)
Lemma for_step_ends {S} (body : Z -> S -> run S) bound step :
  0 < step -> bound + step <= 2 ^ 31 ->
  (forall i s, body i s <> Waiting) ->
  forall fuel i s,
    0 <= i -> bound - i <= Z.of_nat fuel ->
    for_step fuel i bound step body s <> Waiting.
Proof.
  intros Hstep Hbound Hbody. induction fuel as [|fuel IH]; intros i s Hi Hfuel.
  - cbn. destruct (Z.ltb_spec i bound); [lia | discriminate].
  - cbn [for_step]. destruct (Z.ltb_spec i bound); [|discriminate].
    specialize (Hbody i s).
    destruct (body i s) as [s'| |]; cbn [bind]; [|discriminate | congruence].
    rewrite int32_small by lia. apply IH; lia.
Qed.

Lemma load_not_waiting buf i : load buf i <> Waiting.
Proof.
  unfold load. destruct (i <? 0); [discriminate|].
  destruct (nth_error buf (Z.to_nat i)); discriminate.
Qed.

Lemma glyph_not_waiting bstr Y : glyph bstr Y <> Waiting.
Proof.
  unfold glyph, char_at.
  match goal with |- (if ?b then _ else _) <> _ => destruct b end; discriminate.
Qed.

Ltac not_waiting :=
  repeat match goal with
         | |- bind (load ?b ?i) _ <> Waiting =>
             let H := fresh in
             pose proof (load_not_waiting b i) as H;
             destruct (load b i); cbn [bind]; [clear H | discriminate | congruence]
         | |- bind (glyph ?b ?y) _ <> Waiting =>
             let H := fresh in
             pose proof (glyph_not_waiting b y) as H;
             destruct (glyph b y); cbn [bind]; [clear H | discriminate | congruence]
         | |- context [decode ?w] => destruct (decode w) as [[? ?] ?]
         | |- Done _ <> Waiting => discriminate
         end.

Lemma render_cnn_ends bstr buf width height ratio :
  ratio <= 1 -> width <= INT_MAX -> height < INT_MAX ->
  exists fuel, render_cnn fuel bstr buf width height ratio <> Waiting.
Proof.
  intros Hr Hw Hh. unfold INT_MAX in *.
  exists (Z.to_nat (Z.max width height)). unfold render_cnn.
  replace (if ratio <? 1 then 1 else ratio) with 1
    by (destruct (Z.ltb_spec ratio 1); lia).
  change (int32 (1 * 2)) with 2.
  apply for_step_ends; try lia.
  intros y out.
  match goal with
  | |- bind ?m _ <> Waiting =>
      assert (Hin : m <> Waiting);
      [| destruct m; cbn [bind]; [discriminate | discriminate | congruence]]
  end.
  apply for_step_ends; try lia.
  intros x out'. not_waiting.
Qed.

Lemma display_ascii_art_ends bytes width height ratio brightness :
  ratio <= 1 -> width <= INT_MAX -> height < INT_MAX ->
  exists fuel,
    display_ascii_art fuel (Some bytes) width height ratio brightness <> Waiting.
Proof.
  intros Hr Hw Hh. unfold INT_MAX in *.
  exists (Z.to_nat (Z.max width height)). unfold display_ascii_art.
  replace (if ratio <? 1 then 1 else ratio) with 1
    by (destruct (Z.ltb_spec ratio 1); lia).
  change (int32 (1 * 2)) with 2.
  apply for_step_ends; try lia.
  intros y out.
  match goal with
  | |- bind ?m _ <> Waiting =>
      assert (Hin : m <> Waiting);
      [| destruct m; cbn [bind]; [discriminate | discriminate | congruence]]
  end.
  apply for_step_ends; try lia.
  intros x out'. not_waiting.
Qed.

Lemma clamp_below ratio : ratio < 1 -> (if ratio <? 1 then 1 else ratio) = 1.
Proof. intros H. destruct (Z.ltb_spec ratio 1); [reflexivity | lia]. Qed.

(** C10.  Every ASCII preview renderer raises a ratio below 1 to 1: for
    every frame and every ratio < 1, [display_ascii_art],
    [display_ascii_art_from_cnn] and [display_ascii_art_detailed] do
    exactly what they do with ratio 1; and with such a ratio their loops
    end (the steps are 1 and 2, never 0). *)
Theorem ratio_clamped_to_one (fuel : nat) (img cnn_buffer : option (list Z))
        (width height ratio : Z) (brightness : option (list ascii)) :
  ratio < 1 ->
  display_ascii_art fuel img width height ratio brightness
  = display_ascii_art fuel img width height 1 brightness
  /\ display_ascii_art_from_cnn fuel cnn_buffer width height ratio
     = display_ascii_art_from_cnn fuel cnn_buffer width height 1
  /\ display_ascii_art_detailed fuel cnn_buffer width height ratio
     = display_ascii_art_detailed fuel cnn_buffer width height 1
  /\ (width <= INT_MAX -> height < INT_MAX ->
      (exists enough,
          display_ascii_art enough img width height ratio brightness <> Waiting)
      /\ (exists enough,
             display_ascii_art_from_cnn enough cnn_buffer width height ratio <> Waiting)
      /\ (exists enough,
             display_ascii_art_detailed enough cnn_buffer width height ratio <> Waiting)).
Proof.
  intros Hr. split; [|split; [|split]].
  - unfold display_ascii_art. destruct img; [|reflexivity].
    rewrite (clamp_below ratio Hr). reflexivity.
  - unfold display_ascii_art_from_cnn, render_cnn. destruct cnn_buffer; [|reflexivity].
    rewrite (clamp_below ratio Hr). reflexivity.
  - unfold display_ascii_art_detailed, render_cnn. destruct cnn_buffer; [|reflexivity].
    rewrite (clamp_below ratio Hr). reflexivity.
  - intros Hw Hh. split; [|split].
    + destruct img as [bytes|].
      * apply display_ascii_art_ends; lia.
      * exists 0%nat. discriminate.
    + destruct cnn_buffer as [buf|].
      * apply render_cnn_ends; lia.
      * exists 0%nat. discriminate.
    + destruct cnn_buffer as [buf|].
      * apply render_cnn_ends; lia.
      * exists 0%nat. discriminate.
Qed.

Lemma ratio_clamped_to_one_witness :
  display_ascii_art 4 (Some [0; 0; 0; 0; 255; 255; 255; 0]) 2 1 (-3) None
  = display_ascii_art 4 (Some [0; 0; 0; 0; 255; 255; 255; 0]) 2 1 1 None
  /\ display_ascii_art_from_cnn 4 (Some Examples.frame_2x2) 2 1 (-3)
     = display_ascii_art_from_cnn 4 (Some Examples.frame_2x2) 2 1 1
  /\ display_ascii_art_detailed 4 (Some Examples.frame_2x2) 2 1 (-3)
     = display_ascii_art_detailed 4 (Some Examples.frame_2x2) 2 1 1
  /\ (2 <= INT_MAX -> 1 < INT_MAX ->
      (exists enough,
          display_ascii_art enough (Some [0; 0; 0; 0; 255; 255; 255; 0]) 2 1 (-3) None
          <> Waiting)
      /\ (exists enough,
             display_ascii_art_from_cnn enough (Some Examples.frame_2x2) 2 1 (-3)
             <> Waiting)
      /\ (exists enough,
             display_ascii_art_detailed enough (Some Examples.frame_2x2) 2 1 (-3)
             <> Waiting)).
Proof.
  apply (ratio_clamped_to_one 4 (Some [0; 0; 0; 0; 255; 255; 255; 0])
           (Some Examples.frame_2x2) 2 1 (-3) None).
  lia.
Defined.

(** C7, as the code behaves.  With ratio 1 and the 10-glyph ramp a pixel of
    luminance 0 is drawn with the ramp's last character (the space) and a
    pixel of luminance 255 with its first ('@'): the ramp is indexed with
    N-1-index, and index 0 belongs to luminance 0. *)
Theorem ascii_endpoints :
  luminance 0 0 0 = 0
  /\ luminance 255 255 255 = 255
  /\ glyph BRIGHTNESS_STANDARD 0 = Done " "%char
  /\ glyph BRIGHTNESS_STANDARD 255 = Done "@"%char
  /\ nth 0 BRIGHTNESS_STANDARD zero = "@"%char
  /\ nth 9 BRIGHTNESS_STANDARD zero = " "%char
  /\ display_ascii_art_from_cnn 2 (Some [encode 0 0 0; encode 255 255 255]) 2 1 1
     = Done [" "%char; "@"%char; nl]
  /\ display_ascii_art 2 (Some [0; 0; 0; 0; 255; 255; 255; 0]) 2 1 1 None
     = Done [" "%char; "@"%char; nl].
Proof. repeat split. Qed.

End DisplayFacts.

(* ------------------------------------------------------------------ *)
(** ** NULL buffers *)

Module NullBufferFacts.
Import Camera Serial Display.

(** C8, as the code behaves.  Every exporter and every preview renderer
    returns without writing a character when its buffer is NULL.  The
    frame assembler guards the display buffer only: with a NULL
    accelerator buffer and a non-zero declared capacity the first pixel is
    written through the NULL pointer. *)
Theorem null_buffers :
  (forall width height, serial_stream_ppm None width height = Done [])
  /\ (forall width height, serial_stream_hex None width height = Done [])
  /\ (forall width height, serial_stream_base64 None width height = Done [])
  /\ (forall fuel width height ratio brightness,
         display_ascii_art fuel None width height ratio brightness = Done [])
  /\ (forall fuel width height ratio,
         display_ascii_art_from_cnn fuel None width height ratio = Done [])
  /\ (forall fuel width height ratio,
         display_ascii_art_detailed fuel None width height ratio = Done [])
  /\ (exists r, camera_utils_capture Examples.one_pixel (Some [0]) 1 None 0 = Done r
                /\ stores (final r) = [StoreCnn 0 (PixelCodec.encode 255 0 128)])
  /\ camera_utils_capture Examples.one_pixel None 1 None 0 = Undefined
  /\ camera_utils_capture Examples.one_pixel None 1 (Some [0; 0]) 2 = Undefined.
Proof.
  repeat split.
  eexists. split; reflexivity.
Qed.

End NullBufferFacts.

(* ------------------------------------------------------------------ *)
(** ** ResultInterpreter *)

Module InferenceFacts.
Import Inference Spec.

Section Interpreter.
Variable n : nat.
Variable softmax_fn : list Z -> nat -> list Z.

(** The loop invariant: after index [m] the leader is the lowest index
    holding the maximum of entries [0..m]. *)
Lemma find_max_upto sm m :
  exists k,
    fold_left (leader sm) (seq 1 m) (nth 0 sm 0, 0) = (nth k sm 0, Z.of_nat k)
    /\ (k <= m)%nat
    /\ (forall i, (i <= m)%nat -> nth i sm 0 <= nth k sm 0)
    /\ (forall i, (i < k)%nat -> nth i sm 0 < nth k sm 0).
Proof.
  induction m as [|m IH].
  - exists 0%nat. cbn. repeat split; try lia.
    intros i Hi. replace i with 0%nat by lia. lia.
  - destruct IH as (k & Hk & Hle & Hmax & Hlow).
    rewrite seq_S, fold_left_app, Hk. cbn [fold_left leader].
    change (1 + m)%nat with (S m).
    destruct (nth (S m) sm 0 >? nth k sm 0) eqn:Hgt.
    + exists (S m). apply Z.gtb_lt in Hgt.
      repeat split; try lia.
      * intros i Hi. destruct (Nat.eq_dec i (S m)) as [->|]; [lia|].
        specialize (Hmax i ltac:(lia)). lia.
      * intros i Hi. specialize (Hmax i ltac:(lia)). lia.
    + exists k.
      assert (nth (S m) sm 0 <= nth k sm 0)
        by (destruct (Z.gtb_spec (nth (S m) sm 0) (nth k sm 0)); [discriminate | lia]).
      repeat split; try lia; auto.
      intros i Hi. destruct (Nat.eq_dec i (S m)) as [->|]; [lia|].
      apply Hmax. lia.
Qed.

Lemma find_max_spec sm :
  (1 <= n)%nat ->
  exists k, find_max n sm = (nth k sm 0, Z.of_nat k) /\ lowest_argmax sm n k.
Proof.
  intros Hn. destruct (find_max_upto sm (n - 1)) as (k & Hk & Hle & Hmax & Hlow).
  exists k. split; [exact Hk|].
  repeat split; [lia | | exact Hlow].
  intros i Hi. apply Hmax. lia.
Qed.

(** The wait loop leaves as soon as [cnn_time] is non-zero. *)
Lemma wait_cnn_time_done wake : forall time slept,
  time <> 0 \/ Exists (fun t => t <> 0) wake ->
  exists t rest slept',
    wait_cnn_time time wake slept = Done (t, rest, slept') /\ t <> 0.
Proof.
  induction wake as [|t0 wake IH]; intros time slept H; cbn.
  - destruct (Z.eqb_spec time 0) as [->|Hne].
    + destruct H as [H|H]; [congruence | inversion H].
    + eauto.
  - destruct (Z.eqb_spec time 0) as [->|Hne]; [|eauto].
    apply IH. destruct H as [H|H]; [congruence|].
    inversion H; subst; auto.
Qed.

(** What [inference_wait] returns on a non-NULL result once the
    accelerator completes. *)
Lemma inference_wait_returns res0 hw :
  completes hw ->
  exists time rest slept max_val max_idx,
    find_max n (softmax_fn (cnn_output hw) n) = (max_val, max_idx)
    /\ inference_wait n softmax_fn (Some res0) hw
       = Done (INFERENCE_OK,
               Some {| raw_output := cnn_output hw;
                       softmax := softmax_fn (cnn_output hw) n;
                       predicted_class := max_idx;
                       confidence_percent := percent max_val;
                       inference_time_us := time |},
               {| cnn_time := time; wakeups := rest;
                  fifo_status := fifo_status hw; cnn_output := cnn_output hw;
                  ops := ops hw ++ slept ++ [CnnUnload] |}).
Proof.
  intros Hc.
  destruct (wait_cnn_time_done (wakeups hw) (cnn_time hw) [] Hc)
    as (t & rest & slept & Hw & _).
  destruct (find_max n (softmax_fn (cnn_output hw) n)) as [mv mi] eqn:Hf.
  exists t, rest, slept, mv, mi. split; [reflexivity|].
  unfold inference_wait. rewrite Hw. cbn. rewrite Hf. reflexivity.
Qed.

End Interpreter.

(** C2.  Whenever the accelerator completes, [inference_wait] returns
    INFERENCE_OK and sets predicted_class to the lowest index among the
    indices that share the maximum of the softmax vector: a later equal
    value never replaces the leader.  In particular the vector
    [100, 100] gives class 0. *)
Theorem argmax_lowest_index (n : nat) (softmax_fn : list Z -> nat -> list Z)
        (res0 : inference_result_t) (hw : cnn_hw) :
  (1 <= n)%nat ->
  completes hw ->
  exists res hw' k,
    inference_wait n softmax_fn (Some res0) hw = Done (INFERENCE_OK, Some res, hw')
    /\ softmax res = softmax_fn (cnn_output hw) n
    /\ predicted_class res = Z.of_nat k
    /\ lowest_argmax (softmax res) n k
    /\ (softmax res = [100; 100] -> predicted_class res = 0).
Proof.
  intros Hn Hc.
  destruct (inference_wait_returns n softmax_fn res0 hw Hc)
    as (t & rest & slept & mv & mi & Hf & Hw).
  destruct (find_max_spec n (softmax_fn (cnn_output hw) n) Hn) as (k & Hk & Hlow).
  rewrite Hk in Hf. injection Hf as <- <-.
  eexists _, _, k. split; [exact Hw|]. cbn.
  repeat split; try apply Hlow.
  intros Heq. destruct Hlow as (_ & _ & Hlt).
  destruct k as [|k]; [reflexivity|].
  specialize (Hlt 0%nat ltac:(lia)). rewrite Heq in Hlt.
  destruct k as [|[|k]]; cbn in Hlt; lia.
Qed.

Lemma argmax_lowest_index_witness :
  exists res hw' k,
    inference_wait 2 (fun _ _ => [100; 100])
      (Some {| raw_output := []; softmax := []; predicted_class := 0;
               confidence_percent := 0; inference_time_us := 0 |})
      {| cnn_time := 0; wakeups := [0; 1234]; fifo_status := [];
         cnn_output := [7; 7]; ops := [CnnStart] |}
    = Done (INFERENCE_OK, Some res, hw')
    /\ softmax res = [100; 100]
    /\ predicted_class res = Z.of_nat k
    /\ lowest_argmax (softmax res) 2 k
    /\ (softmax res = [100; 100] -> predicted_class res = 0).
Proof.
  apply (argmax_lowest_index 2 (fun _ _ => [100; 100])).
  - lia.
  - right. cbn. apply Exists_cons_tl, Exists_cons_hd. lia.
Defined.

Lemma percent_q15 x : is_q15 x -> percent x = (x * 100) / 32768.
Proof.
  unfold is_q15, percent. intros Hx.
  rewrite int32_small by lia. rewrite Z.shiftr_div_pow2 by lia. reflexivity.
Qed.

Lemma percent_mono x y : is_q15 x -> is_q15 y -> x <= y -> percent x <= percent y.
Proof.
  intros Hx Hy Hle. rewrite !percent_q15 by assumption.
  apply Z.div_le_mono; lia.
Qed.

Lemma nth_update_same k v l : (k < length l)%nat -> nth k (update k v l) 0 = v.
Proof.
  revert k; induction l as [|a l IH]; intros [|k] Hk; cbn in *; try lia; auto.
  apply IH. lia.
Qed.

Lemma nth_update_other i k v l : i <> k -> nth i (update k v l) 0 = nth i l 0.
Proof.
  revert i k; induction l as [|a l IH]; intros [|i] [|k] Hne; cbn; try congruence; auto.
Qed.

(** C3.  For a softmax vector of Q15 values in [0, 32768),
    [inference_wait] sets confidence_percent to
    floor (max_value * 100 / 32768), an integer between 0 and 100. *)
Theorem confidence_percent_formula (n : nat) (softmax_fn : list Z -> nat -> list Z)
        (res0 : inference_result_t) (hw : cnn_hw) :
  (1 <= n)%nat ->
  completes hw ->
  (forall i, (i < n)%nat -> 0 <= nth i (softmax_fn (cnn_output hw) n) 0 < 32768) ->
  exists res hw' k,
    inference_wait n softmax_fn (Some res0) hw = Done (INFERENCE_OK, Some res, hw')
    /\ softmax res = softmax_fn (cnn_output hw) n
    /\ lowest_argmax (softmax res) n k
    /\ confidence_percent res = (nth k (softmax res) 0 * 100) / 32768
    /\ 0 <= confidence_percent res <= 100.
Proof.
  intros Hn Hc Hrange.
  destruct (inference_wait_returns n softmax_fn res0 hw Hc)
    as (t & rest & slept & mv & mi & Hf & Hw).
  destruct (find_max_spec n (softmax_fn (cnn_output hw) n) Hn) as (k & Hk & Hlow).
  rewrite Hk in Hf. injection Hf as <- <-.
  eexists _, _, k. split; [exact Hw|].
  cbn [softmax confidence_percent predicted_class].
  pose proof (Hrange k ltac:(apply Hlow)) as Hv.
  assert (Hq : is_q15 (nth k (softmax_fn (cnn_output hw) n) 0)) by (unfold is_q15; lia).
  rewrite (percent_q15 _ Hq).
  repeat split; try apply Hlow.
  - apply Z.div_pos; lia.
  - apply Z.div_le_upper_bound; lia.
Qed.

Lemma confidence_percent_formula_witness :
  exists res hw' k,
    inference_wait 2 (fun _ _ => [8192; 24576])
      (Some {| raw_output := []; softmax := []; predicted_class := 0;
               confidence_percent := 0; inference_time_us := 0 |})
      {| cnn_time := 0; wakeups := [0; 1234]; fifo_status := [];
         cnn_output := [-3; 5]; ops := [CnnStart] |}
    = Done (INFERENCE_OK, Some res, hw')
    /\ softmax res = [8192; 24576]
    /\ lowest_argmax (softmax res) 2 k
    /\ confidence_percent res = (nth k (softmax res) 0 * 100) / 32768
    /\ 0 <= confidence_percent res <= 100.
Proof.
  apply (confidence_percent_formula 2 (fun _ _ => [8192; 24576])).
  - lia.
  - right. cbn. apply Exists_cons_tl, Exists_cons_hd. lia.
  - intros [|[|i]] Hi; cbn; lia.
Defined.

(** C9.  Raising the winning class's Q15 value, every other entry held
    fixed, never lowers the confidence_percent that [inference_wait]
    reports. *)
Theorem confidence_monotone (n : nat) (softmax_fn softmax_fn' : list Z -> nat -> list Z)
        (res0 : inference_result_t) (hw : cnn_hw) (k : nat) (v : Z) :
  (1 <= n)%nat ->
  completes hw ->
  length (softmax_fn (cnn_output hw) n) = n ->
  (forall i, (i < n)%nat -> is_q15 (nth i (softmax_fn (cnn_output hw) n) 0)) ->
  lowest_argmax (softmax_fn (cnn_output hw) n) n k ->
  is_q15 v ->
  nth k (softmax_fn (cnn_output hw) n) 0 <= v ->
  softmax_fn' (cnn_output hw) n = update k v (softmax_fn (cnn_output hw) n) ->
  exists res res' hw1 hw2,
    inference_wait n softmax_fn (Some res0) hw = Done (INFERENCE_OK, Some res, hw1)
    /\ inference_wait n softmax_fn' (Some res0) hw = Done (INFERENCE_OK, Some res', hw2)
    /\ predicted_class res = Z.of_nat k
    /\ confidence_percent res <= confidence_percent res'.
Proof.
  intros Hn Hc Hlen Hq Hwin Hv Hle Hsm'.
  destruct (inference_wait_returns n softmax_fn res0 hw Hc)
    as (t & rest & slept & mv & mi & Hf & Hw).
  destruct (inference_wait_returns n softmax_fn' res0 hw Hc)
    as (t' & rest' & slept' & mv' & mi' & Hf' & Hw').
  destruct (find_max_spec n (softmax_fn (cnn_output hw) n) Hn) as (k1 & Hk1 & Hlow1).
  destruct (find_max_spec n (softmax_fn' (cnn_output hw) n) Hn) as (k2 & Hk2 & Hlow2).
  rewrite Hk1 in Hf. injection Hf as <- <-.
  rewrite Hk2 in Hf'. injection Hf' as <- <-.
  assert (k1 = k) as ->.
  { destruct Hwin as (Hkn & Hmax & Hlt), Hlow1 as (Hkn1 & Hmax1 & Hlt1).
    destruct (Nat.lt_trichotomy k1 k) as [H|[H|H]]; [|exact H|].
    - specialize (Hlt _ H). specialize (Hmax1 _ Hkn). lia.
    - specialize (Hlt1 _ H). specialize (Hmax _ Hkn1). lia. }
  eexists _, _, _, _. split; [exact Hw|]. split; [exact Hw'|].
  cbn [softmax confidence_percent predicted_class].
  split; [reflexivity|].
  set (sm := softmax_fn (cnn_output hw) n) in *.
  destruct Hwin as (Hkn & _ & _).
  assert (Hk_new : nth k (softmax_fn' (cnn_output hw) n) 0 = v)
    by (rewrite Hsm'; apply nth_update_same; lia).
  assert (Hq' : forall i, (i < n)%nat -> is_q15 (nth i (softmax_fn' (cnn_output hw) n) 0)).
  { intros i Hi. destruct (Nat.eq_dec i k) as [->|Hne].
    - rewrite Hk_new. exact Hv.
    - rewrite Hsm', nth_update_other by exact Hne. apply Hq, Hi. }
  destruct Hlow2 as (Hk2n & Hmax2 & _).
  apply percent_mono.
  - apply Hq, Hkn.
  - apply Hq', Hk2n.
  - specialize (Hmax2 k Hkn). rewrite Hk_new in Hmax2. lia.
Qed.

Lemma confidence_monotone_witness :
  exists res res' hw1 hw2,
    inference_wait 2 (fun _ _ => [8192; 24576])
      (Some {| raw_output := []; softmax := []; predicted_class := 0;
               confidence_percent := 0; inference_time_us := 0 |})
      {| cnn_time := 0; wakeups := [0; 1234]; fifo_status := [];
         cnn_output := [-3; 5]; ops := [CnnStart] |}
    = Done (INFERENCE_OK, Some res, hw1)
    /\ inference_wait 2 (fun _ _ => [8192; 30000])
      (Some {| raw_output := []; softmax := []; predicted_class := 0;
               confidence_percent := 0; inference_time_us := 0 |})
      {| cnn_time := 0; wakeups := [0; 1234]; fifo_status := [];
         cnn_output := [-3; 5]; ops := [CnnStart] |}
    = Done (INFERENCE_OK, Some res', hw2)
    /\ predicted_class res = 1
    /\ confidence_percent res <= confidence_percent res'.
Proof.
  apply (confidence_monotone 2 (fun _ _ => [8192; 24576]) (fun _ _ => [8192; 30000])
           _ _ 1%nat 30000).
  - lia.
  - right. cbn. apply Exists_cons_tl, Exists_cons_hd. lia.
  - reflexivity.
  - intros [|[|i]] Hi; cbn; unfold is_q15; lia.
  - cbn. repeat split; try lia.
    + intros [|[|i]] Hi; cbn; lia.
    + intros [|i] Hi; cbn; lia.
  - unfold is_q15; lia.
  - cbn. lia.
  - reflexivity.
Defined.

End InferenceFacts.

(* ------------------------------------------------------------------ *)
(** ** PixelCodec, further *)

Module CodecLaws.
Import PixelCodec Notions PixelCodecFacts.

(** A test checked on the 256 byte values holds for every byte. *)
Lemma by_bytes (test : Z -> bool) :
  all_bytes test = true -> forall x, is_u8 x -> test x = true.
Proof.
  unfold all_bytes. rewrite forallb_forall. intros H x Hx.
  apply H, in_upto. unfold is_u8 in Hx. lia.
Qed.

Lemma pack_bytes_of x :
  pack (u8 (Z.land x 0xFF)) (u8 (Z.land (Z.shiftr x 8) 0xFF))
       (u8 (Z.land (Z.shiftr x 16) 0xFF))
  = x mod 2 ^ 24.
Proof.
  unfold pack, u8, u32. change 0xFF with (Z.ones 8).
  Z.bitblast; subst; rewrite ?Z.testbit_neg_r by lia;
    rewrite ?andb_false_r, ?andb_true_r, ?andb_true_l, ?orb_false_r, ?orb_false_l;
    try reflexivity; try (f_equal; lia).
Qed.

Lemma rebias x m :
  m = m mod 2 ^ 24 ->
  u32 (Z.lxor (u32 (Z.lxor x m) mod 2 ^ 24) m) = x mod 2 ^ 24.
Proof.
  intros Hm. unfold u32. rewrite Hm.
  Z.bitblast; subst; rewrite ?Z.testbit_neg_r by lia;
    rewrite ?andb_false_r, ?andb_true_r, ?andb_true_l, ?orb_false_r, ?orb_false_l,
            ?xorb_false_r, ?xorb_false_l;
    try reflexivity;
    repeat match goal with
           | |- context [Z.testbit ?a ?i] => destruct (Z.testbit a i)
           end; reflexivity.
Qed.

(** X1.  Unpacking a word and packing the three bytes again gives the low
    24 bits of the word: the top byte of a packed pixel carries nothing,
    and on 24-bit words [encode] undoes [decode]. *)
Theorem encode_decode (word : Z) :
  let '(r, g, b) := decode word in encode r g b = word mod 2 ^ 24.
Proof.
  unfold decode, encode. rewrite pack_bytes_of. apply rebias. reflexivity.
Qed.

Ltac bits :=
  Z.bitblast; subst; rewrite ?Z.testbit_neg_r by lia;
  rewrite ?andb_false_r, ?andb_true_r, ?andb_true_l, ?andb_false_l,
          ?orb_false_r, ?orb_false_l, ?xorb_false_r, ?xorb_false_l;
  try reflexivity; try (f_equal; lia);
  try (repeat match goal with
              | |- context [Z.testbit ?a ?i] => destruct (Z.testbit a i)
              end; reflexivity).

Lemma biased_byte0 r g b m :
  u32 (Z.lxor (pack r g b) m) mod 2 ^ 8 = Z.lxor (r mod 2 ^ 8) (m mod 2 ^ 8).
Proof. unfold pack, u32. bits. Qed.

Lemma biased_byte1 r g b m :
  is_u8 r ->
  u32 (Z.lxor (pack r g b) m) / 2 ^ 8 mod 2 ^ 8
  = Z.lxor (g mod 2 ^ 8) (m / 2 ^ 8 mod 2 ^ 8).
Proof. intros Hr. unfold pack, u32. rewrite (byte_as_mod r Hr). bits. Qed.

Lemma biased_byte2 r g b m :
  is_u8 r -> is_u8 g ->
  u32 (Z.lxor (pack r g b) m) / 2 ^ 16 mod 2 ^ 8
  = Z.lxor (b mod 2 ^ 8) (m / 2 ^ 16 mod 2 ^ 8).
Proof.
  intros Hr Hg. unfold pack, u32.
  rewrite (byte_as_mod r Hr), (byte_as_mod g Hg). bits.
Qed.

Lemma encode_low24 r g b m :
  is_u8 r -> is_u8 g -> is_u8 b -> m = m mod 2 ^ 24 ->
  u32 (Z.lxor (pack r g b) m) = u32 (Z.lxor (pack r g b) m) mod 2 ^ 24.
Proof.
  intros Hr Hg Hb Hm. unfold pack, u32.
  rewrite (byte_as_mod r Hr), (byte_as_mod g Hg), (byte_as_mod b Hb), Hm.
  bits.
Qed.

Lemma flip_top_bit x : is_u8 x -> int8 (Z.lxor x 128) = x - 128.
Proof.
  intros Hx. apply Z.eqb_eq.
  apply (by_bytes (fun x => int8 (Z.lxor x 128) =? x - 128)); [reflexivity | exact Hx].
Qed.

(** X2.  What the XOR with 0x00808080 does: each byte of the packed word,
    read as a signed 8-bit number, is the channel minus 128 (R in the low
    byte, then G, then B), and the top byte is zero. *)
Theorem encode_signed_channels (r g b : Z) :
  is_u8 r -> is_u8 g -> is_u8 b ->
  let w := encode r g b in
  int8 (w mod 256) = r - 128
  /\ int8 (w / 256 mod 256) = g - 128
  /\ int8 (w / 65536 mod 256) = b - 128
  /\ 0 <= w < 2 ^ 24.
Proof.
  intros Hr Hg Hb. cbv zeta. unfold encode.
  change 256 with (2 ^ 8). change 65536 with (2 ^ 16).
  rewrite biased_byte0, biased_byte1, biased_byte2 by assumption.
  rewrite <- (byte_as_mod r Hr), <- (byte_as_mod g Hg), <- (byte_as_mod b Hb).
  change (BIAS mod 2 ^ 8) with 128. change (BIAS / 2 ^ 8 mod 2 ^ 8) with 128.
  change (BIAS / 2 ^ 16 mod 2 ^ 8) with 128.
  rewrite !flip_top_bit by assumption.
  repeat split; try reflexivity.
  - apply Z.mod_pos_bound. lia.
  - rewrite (encode_low24 r g b BIAS Hr Hg Hb eq_refl).
    apply Z.mod_pos_bound. lia.
Qed.

Lemma encode_signed_channels_witness :
  let w := encode 255 0 128 in
  int8 (w mod 256) = 255 - 128
  /\ int8 (w / 256 mod 256) = 0 - 128
  /\ int8 (w / 65536 mod 256) = 128 - 128
  /\ 0 <= w < 2 ^ 24.
Proof. apply encode_signed_channels; unfold is_u8; lia. Defined.

Lemma mask_F8 r : is_u8 r -> Z.land r 0xF8 = Z.shiftl (Z.shiftr r 3) 3.
Proof.
  intros Hr. apply Z.eqb_eq.
  apply (by_bytes (fun r => Z.land r 0xF8 =? Z.shiftl (Z.shiftr r 3) 3));
    [reflexivity | exact Hr].
Qed.

Lemma mask_FC g : is_u8 g -> Z.land g 0xFC = Z.shiftl (Z.shiftr g 2) 2.
Proof.
  intros Hg. apply Z.eqb_eq.
  apply (by_bytes (fun g => Z.land g 0xFC =? Z.shiftl (Z.shiftr g 2) 2));
    [reflexivity | exact Hg].
Qed.

(** X3.  The 16-bit display word keeps the top five bits of R, the top six
    of G and the top five of B, in that order from the most significant
    bit down. *)
Theorem rgb565_fields (r g b : Z) :
  is_u8 r -> is_u8 g -> is_u8 b ->
  let v := to_rgb565 r g b in
  0 <= v < 2 ^ 16
  /\ v / 2 ^ 11 = r / 2 ^ 3
  /\ v / 2 ^ 5 mod 2 ^ 6 = g / 2 ^ 2
  /\ v mod 2 ^ 5 = b / 2 ^ 3.
Proof.
  intros Hr Hg Hb. cbv zeta. unfold to_rgb565, u16.
  rewrite (mask_F8 r Hr), (mask_FC g Hg).
  split; [apply Z.mod_pos_bound; lia|].
  rewrite (byte_as_mod r Hr), (byte_as_mod g Hg), (byte_as_mod b Hb).
  repeat split; bits; rewrite Z.mod_pow2_bits_low by lia; reflexivity.
Qed.

Lemma rgb565_fields_witness :
  let v := to_rgb565 255 0 128 in
  0 <= v < 2 ^ 16
  /\ v / 2 ^ 11 = 255 / 2 ^ 3
  /\ v / 2 ^ 5 mod 2 ^ 6 = 0 / 2 ^ 2
  /\ v mod 2 ^ 5 = 128 / 2 ^ 3.
Proof. apply rgb565_fields; unfold is_u8; lia. Defined.

End CodecLaws.

(* ------------------------------------------------------------------ *)
(** ** Inference, further *)

Module InferenceLaws.
Import Inference Spec Notions Examples InferenceFacts.

(** One admitted word: the spin ends and the rest of the reads admit the
    other words. *)
Lemma admits_wait reads n :
  admits reads (S n) ->
  exists rest, wait_fifo reads = Done rest /\ admits rest n.
Proof.
  intros H. remember (S n) as m eqn:Em. revert n Em.
  induction H as [reads | s reads m Hs H IH | s reads m Hs H IH]; intros n Em.
  - discriminate Em.
  - destruct (IH n Em) as (rest & Hw & Ha).
    exists rest. split; [|exact Ha].
    cbn. destruct (Z.eqb_spec (Z.land s 1) 0) as [E|E]; [contradiction | exact Hw].
  - injection Em as ->. exists reads. split; [|exact H].
    cbn. rewrite Hs. reflexivity.
Qed.

Lemma admits_fewer reads n m : admits reads n -> (m <= n)%nat -> admits reads m.
Proof.
  intros H. revert m.
  induction H as [reads | s reads n Hs H IH | s reads n Hs H IH]; intros m Hm.
  - replace m with 0%nat by lia. constructor.
  - destruct m as [|m]; [constructor|].
    apply admits_full; [exact Hs | apply IH; exact Hm].
  - destruct m as [|m]; [constructor|].
    apply admits_room; [exact Hs | apply IH; lia].
Qed.

(** The loop over [m] words from position [length pre] on. *)
Lemma push_words m : forall k pre rest hw,
  admits (fifo_status hw) (m + k) ->
  (m <= length rest)%nat ->
  exists hw',
    for_each (map (fun i => Z.of_nat (length pre + i)) (seq 0 m))
             (push_word (Some (pre ++ rest))) hw = Done hw'
    /\ ops hw' = ops hw ++ map FifoPush (firstn m rest)
    /\ admits (fifo_status hw') k
    /\ cnn_time hw' = cnn_time hw /\ wakeups hw' = wakeups hw
    /\ cnn_output hw' = cnn_output hw.
Proof.
  induction m as [|m IH]; intros k pre rest hw Ha Hlen.
  - exists hw. cbn. rewrite app_nil_r. repeat split; auto.
  - destruct rest as [|x rest]; [cbn in Hlen; lia|].
    destruct (admits_wait _ _ Ha) as (reads' & Hw & Ha').
    cbn [seq map]. rewrite <- seq_shift, map_map. cbn [for_each].
    unfold push_word at 1. rewrite Hw. cbn [bind].
    rewrite Nat.add_0_r, load_app_middle. cbn [bind].
    set (hw1 := {| cnn_time := cnn_time hw; wakeups := wakeups hw;
                   fifo_status := reads'; cnn_output := cnn_output hw;
                   ops := ops hw ++ [FifoPush x] |}).
    destruct (IH k (pre ++ [x]) rest hw1 Ha' ltac:(cbn in Hlen; lia))
      as (hw' & Hrun & Hops & Hadm & Ht & Hwk & Hout).
    exists hw'.
    assert (E : pre ++ x :: rest = (pre ++ [x]) ++ rest)
      by (rewrite <- app_assoc; reflexivity).
    rewrite E.
    rewrite (map_ext (fun i => Z.of_nat (length pre + S i))
                     (fun i => Z.of_nat (length (pre ++ [x]) + i))).
    2:{ intros i. rewrite length_app. cbn. f_equal. lia. }
    rewrite Hrun. split; [reflexivity|].
    split; [|auto].
    rewrite Hops. cbn. rewrite <- app_assoc. reflexivity.
Qed.

Lemma upto_seq n : upto (Z.of_nat n) = map (fun i => Z.of_nat (0 + i)) (seq 0 n).
Proof. unfold upto. rewrite Nat2Z.id. reflexivity. Qed.

(** X4. Given a buffer of at least [n] words and a FIFO that lets [n]
    words through, [inference_load_input] returns after writing exactly
    the first [n] words of the buffer to the FIFO, in order, and touches
    nothing else of the accelerator. *)
Theorem load_input_pushes (words : list Z) (n : nat) (hw : cnn_hw) :
  admits (fifo_status hw) n ->
  (n <= length words)%nat ->
  exists hw',
    inference_load_input (Some words) (Z.of_nat n) hw = Done hw'
    /\ ops hw' = ops hw ++ map FifoPush (firstn n words)
    /\ cnn_time hw' = cnn_time hw /\ wakeups hw' = wakeups hw
    /\ cnn_output hw' = cnn_output hw.
Proof.
  intros Ha Hlen.
  destruct (push_words n 0 [] words hw ltac:(rewrite Nat.add_0_r; exact Ha) Hlen)
    as (hw' & Hrun & Hops & _ & Ht & Hw & Ho).
  exists hw'. unfold inference_load_input. rewrite upto_seq.
  cbn [length app] in Hrun. rewrite Hrun. auto.
Qed.

Lemma busy_fifo_admits : admits (fifo_status busy_fifo) 2.
Proof.
  cbn. apply admits_full; [discriminate|].
  apply admits_room; [reflexivity|].
  apply admits_full; [discriminate|].
  apply admits_room; [reflexivity|]. constructor.
Defined.

Lemma load_input_pushes_witness :
  exists hw',
    inference_load_input (Some [5; 6; 7]) 2 busy_fifo = Done hw'
    /\ ops hw' = [FifoPush 5; FifoPush 6]
    /\ cnn_time hw' = 0 /\ wakeups hw' = [] /\ cnn_output hw' = [].
Proof.
  apply (load_input_pushes [5; 6; 7] 2 busy_fifo busy_fifo_admits).
  cbn. lia.
Defined.

Lemma load_beyond l i : (length l <= Z.to_nat i)%nat -> load l i = Undefined.
Proof.
  intros H. unfold load. destruct (i <? 0); [reflexivity|].
  destruct (nth_error l (Z.to_nat i)) eqn:E; [|reflexivity].
  apply nth_error_None in H. congruence.
Qed.

(** X5. Asked for more words than the buffer holds, or given a NULL
    buffer and asked for at least one word, [inference_load_input] reads
    outside it: the first words go to the FIFO, the next read is
    undefined. The function has no length to check against. *)
Theorem load_input_overrun (n : nat) (hw : cnn_hw) :
  admits (fifo_status hw) n ->
  (1 <= n)%nat ->
  inference_load_input None (Z.of_nat n) hw = Undefined
  /\ forall words, (length words < n)%nat ->
       inference_load_input (Some words) (Z.of_nat n) hw = Undefined.
Proof.
  intros Ha Hn. split.
  - unfold inference_load_input. rewrite upto_seq.
    destruct n as [|n]; [lia|]. cbn [seq map for_each].
    destruct (admits_wait _ _ Ha) as (rest & Hw & _).
    unfold push_word. rewrite Hw. reflexivity.
  - intros words Hlen.
    unfold inference_load_input. rewrite upto_seq.
    replace n with (length words + S (n - length words - 1))%nat in * by lia.
    set (k := (n - length words - 1)%nat) in *.
    rewrite seq_app, map_app, for_each_app.
    destruct (push_words (length words) (S k) [] words hw Ha (le_n _))
      as (hw1 & Hrun & _ & Ha1 & _).
    cbn [length app] in Hrun. rewrite Hrun. cbn [bind Nat.add seq map for_each].
    destruct (admits_wait _ _ Ha1) as (rest & Hw & _).
    unfold push_word at 1. rewrite Hw. cbn [bind].
    rewrite load_beyond by lia. reflexivity.
Qed.

Lemma load_input_overrun_witness :
  inference_load_input None 2 busy_fifo = Undefined
  /\ forall words, (length words < 2)%nat ->
       inference_load_input (Some words) 2 busy_fifo = Undefined.
Proof.
  apply (load_input_overrun 2 busy_fifo busy_fifo_admits). lia.
Defined.

(** The wait loop sleeps through the zero wake-ups and stops at the first
    non-zero one. *)
Lemma wait_cnn_time_wakes k : forall t rest slept,
  t <> 0 ->
  wait_cnn_time 0 (repeat 0 k ++ t :: rest) slept
  = Done (t, rest, slept ++ repeat Wfi (S k)).
Proof.
  induction k as [|k IH]; intros t rest slept Ht.
  - cbn. destruct rest; cbn; destruct (Z.eqb_spec t 0); try contradiction; reflexivity.
  - cbn [repeat app wait_cnn_time Z.eqb]. rewrite IH by exact Ht.
    rewrite <- app_assoc. reflexivity.
Qed.

Lemma first_wakeup wake :
  Exists (fun t => t <> 0) wake ->
  exists k t rest, wake = repeat 0 k ++ t :: rest /\ t <> 0.
Proof.
  induction wake as [|t0 wake IH]; intros H; [inversion H|].
  destruct (Z.eq_dec t0 0) as [->|Hne].
  - destruct IH as (k & t & rest & -> & Ht).
    { inversion H; subst; [contradiction | assumption]. }
    exists (S k), t, rest. split; [reflexivity | exact Ht].
  - exists 0%nat, t0, wake. split; [reflexivity | exact Hne].
Qed.

(** X6. [inference_run] never reports a time left over from an earlier
    run: it clears [cnn_time], starts the accelerator, sleeps until the
    first wake-up that finds [cnn_time] non-zero (at least once), unloads,
    and reports that time, whatever [cnn_time] held before the call. *)
Theorem run_reports_fresh_time (n : nat) (softmax_fn : list Z -> nat -> list Z)
        (res0 : inference_result_t) (hw : cnn_hw) :
  Exists (fun t => t <> 0) (wakeups hw) ->
  exists res hw' k,
    inference_run n softmax_fn (Some res0) hw = Done (INFERENCE_OK, Some res, hw')
    /\ inference_time_us res <> 0
    /\ wakeups hw = repeat 0 k ++ inference_time_us res :: wakeups hw'
    /\ cnn_time hw' = inference_time_us res
    /\ ops hw' = ops hw ++ [CnnStart] ++ repeat Wfi (S k) ++ [CnnUnload].
Proof.
  intros H. destruct (first_wakeup _ H) as (k & t & rest & Hwake & Ht).
  destruct (find_max n (softmax_fn (cnn_output hw) n)) as [mv mi] eqn:Hf.
  eexists _, _, k. split.
  - unfold inference_run, inference_wait, inference_start.
    cbn [cnn_time wakeups cnn_output fifo_status ops].
    rewrite Hwake, wait_cnn_time_wakes by exact Ht.
    cbn [bind]. rewrite Hf. reflexivity.
  - cbn [inference_time_us wakeups cnn_time ops app].
    repeat split; auto.
    rewrite <- app_assoc. reflexivity.
Qed.

Lemma run_reports_fresh_time_witness :
  exists res hw' k,
    inference_run 2 (fun raw _ => raw) (Some empty_result)
                  {| cnn_time := 77; wakeups := [0; 0; 1234; 5]; fifo_status := [];
                     cnn_output := [7; 9]; ops := [] |}
    = Done (INFERENCE_OK, Some res, hw')
    /\ inference_time_us res <> 0
    /\ [0; 0; 1234; 5] = repeat 0 k ++ inference_time_us res :: wakeups hw'
    /\ cnn_time hw' = inference_time_us res
    /\ ops hw' = [] ++ [CnnStart] ++ repeat Wfi (S k) ++ [CnnUnload].
Proof.
  apply (run_reports_fresh_time 2 (fun raw _ => raw) empty_result
           {| cnn_time := 77; wakeups := [0; 0; 1234; 5]; fifo_status := [];
              cnn_output := [7; 9]; ops := [] |}).
  cbn. do 2 apply Exists_cons_tl. apply Exists_cons_hd. lia.
Defined.

(** X7. [inference_wait] does not check that a run was started: when
    [cnn_time] is still non-zero from an earlier run it returns at once,
    without sleeping, reports that old time and classifies whatever
    [cnn_unload] delivers. *)
Theorem wait_takes_stale_time (n : nat) (softmax_fn : list Z -> nat -> list Z)
        (res0 : inference_result_t) (hw : cnn_hw) :
  cnn_time hw <> 0 ->
  exists res hw',
    inference_wait n softmax_fn (Some res0) hw = Done (INFERENCE_OK, Some res, hw')
    /\ inference_time_us res = cnn_time hw
    /\ raw_output res = cnn_output hw
    /\ wakeups hw' = wakeups hw
    /\ ops hw' = ops hw ++ [CnnUnload].
Proof.
  intros Ht.
  destruct (find_max n (softmax_fn (cnn_output hw) n)) as [mv mi] eqn:Hf.
  assert (Hw : wait_cnn_time (cnn_time hw) (wakeups hw) []
               = Done (cnn_time hw, wakeups hw, [])).
  { destruct (wakeups hw); cbn;
      destruct (Z.eqb_spec (cnn_time hw) 0); try contradiction; reflexivity. }
  eexists _, _. split.
  - unfold inference_wait. rewrite Hw. cbn [bind]. rewrite Hf. reflexivity.
  - cbn. auto.
Qed.

Lemma wait_takes_stale_time_witness :
  exists res hw',
    inference_wait 2 (fun raw _ => raw) (Some empty_result)
                   {| cnn_time := 77; wakeups := [0; 1234]; fifo_status := [];
                      cnn_output := [7; 9]; ops := [] |}
    = Done (INFERENCE_OK, Some res, hw')
    /\ inference_time_us res = 77
    /\ raw_output res = [7; 9]
    /\ wakeups hw' = [0; 1234]
    /\ ops hw' = [] ++ [CnnUnload].
Proof.
  apply (wait_takes_stale_time 2 (fun raw _ => raw) empty_result
           {| cnn_time := 77; wakeups := [0; 1234]; fifo_status := [];
              cnn_output := [7; 9]; ops := [] |}).
  cbn. lia.
Defined.

(** X8. The two roundings of a Q15 probability agree to within one: the
    per-class figure printed by [inference_print_results], rounded to a
    tenth of a percent, has an integer part equal to the truncated
    [confidence_percent] of the same value or one above it, and never
    exceeds 100.0. *)
Theorem printed_percent_near_confidence (v : Z) :
  0 <= v < 32768 ->
  tenths v = (1000 * v + 16384) / 32768
  /\ 0 <= tenths v <= 1000
  /\ 0 <= Z.rem (tenths v) 10 <= 9
  /\ percent v <= Z.quot (tenths v) 10 <= percent v + 1.
Proof.
  intros Hv.
  assert (Et : tenths v = (1000 * v + 16384) / 32768).
  { unfold tenths. rewrite int32_small by lia.
    rewrite Z.shiftr_div_pow2 by lia. reflexivity. }
  rewrite percent_q15 by (unfold is_q15; lia).
  rewrite Et.
  assert (0 <= (1000 * v + 16384) / 32768 <= 1000)
    by (Z.to_euclidean_division_equations; lia).
  rewrite Z.rem_mod_nonneg, Z.quot_div_nonneg by lia.
  repeat split; try lia; Z.to_euclidean_division_equations; lia.
Qed.

Lemma printed_percent_near_confidence_witness :
  tenths 32767 = (1000 * 32767 + 16384) / 32768
  /\ 0 <= tenths 32767 <= 1000
  /\ 0 <= Z.rem (tenths 32767) 10 <= 9
  /\ percent 32767 <= Z.quot (tenths 32767) 10 <= percent 32767 + 1.
Proof.
  apply (printed_percent_near_confidence 32767). lia.
Defined.

End InferenceLaws.

(* ------------------------------------------------------------------ *)
(** ** Display, further *)

Module DisplayLaws.
Import PixelCodec Camera Display Spec Notions DisplayFacts.

Lemma luminance_mean r g b :
  is_u8 r -> is_u8 g -> is_u8 b ->
  luminance r g b = (77 * r + 150 * g + 29 * b) / 256.
Proof.
  unfold is_u8, luminance, u16, u8. intros Hr Hg Hb.
  rewrite Z.shiftr_div_pow2 by lia.
  rewrite (Z.mod_small (77 * r)), (Z.mod_small (150 * g)), (Z.mod_small (29 * b))
    by lia.
  change (2 ^ 8) with 256. apply Z.mod_small.
  Z.to_euclidean_division_equations; lia.
Qed.

(** X9. For 8-bit channels the luminance is the weighted mean
    (77 r + 150 g + 29 b) / 256: none of the 16-bit and 8-bit casts
    truncates, the value lies between the smallest and the largest
    channel, and a gray pixel keeps its level. *)
Theorem luminance_weighted_mean (r g b : Z) :
  is_u8 r -> is_u8 g -> is_u8 b ->
  luminance r g b = (77 * r + 150 * g + 29 * b) / 256
  /\ Z.min r (Z.min g b) <= luminance r g b <= Z.max r (Z.max g b)
  /\ (r = g -> g = b -> luminance r g b = r).
Proof.
  intros Hr Hg Hb. rewrite luminance_mean by assumption.
  unfold is_u8 in *.
  repeat split; intros; Z.to_euclidean_division_equations; lia.
Qed.

Lemma luminance_weighted_mean_witness :
  luminance 255 0 0 = (77 * 255 + 150 * 0 + 29 * 0) / 256
  /\ Z.min 255 (Z.min 0 0) <= luminance 255 0 0 <= Z.max 255 (Z.max 0 0)
  /\ (255 = 0 -> 0 = 0 -> luminance 255 0 0 = 255).
Proof.
  apply (luminance_weighted_mean 255 0 0); unfold is_u8; lia.
Defined.

Lemma luminance_byte r g b : is_u8 (luminance r g b).
Proof. unfold luminance. apply u8_range. Qed.

(** The index the code computes for a ramp of [n] characters stays in the
    ramp. *)
Lemma glyph_shade bstr Y :
  1 <= Z.of_nat (length bstr) <= 2 ^ 24 -> is_u8 Y ->
  glyph bstr Y = Done (shade bstr Y)
  /\ 0 <= Z.of_nat (length bstr) - 1 - Y * (Z.of_nat (length bstr) - 1) / 255
     <= Z.of_nat (length bstr) - 1.
Proof.
  unfold is_u8. intros Hn HY. unfold glyph, shade, char_at.
  set (n := Z.of_nat (length bstr)) in *.
  assert (Hq : 0 <= Y * (n - 1) / 255 <= n - 1).
  { split; [apply Z.div_pos; nia|].
    apply Z.div_le_upper_bound; nia. }
  assert (Hp : 0 <= Y * (n - 1) < 2 ^ 32) by nia.
  rewrite (u32_small (n - 1)) by (unfold is_u32; lia).
  rewrite (u32_small (Y * (n - 1))) by (unfold is_u32; lia).
  rewrite int32_small by lia.
  rewrite u32_small by (unfold is_u32; lia).
  split; [|lia].
  destruct (Z.ltb_spec (n - 1 - Y * (n - 1) / 255) 0); [lia|].
  destruct (Z.ltb_spec n (n - 1 - Y * (n - 1) / 255)); [lia|].
  reflexivity.
Qed.

(** X10. With a ramp of 1 to 2^24 characters the character drawn for a
    luminance Y is always one of the ramp, never the terminating NUL or
    anything outside the string: it is the one at index
    N-1 - Y (N-1) / 255, and that index never rises when the luminance
    does. *)
Theorem glyph_in_ramp (bstr : list ascii) (Y Y' : Z) :
  1 <= Z.of_nat (length bstr) <= 2 ^ 24 ->
  is_u8 Y -> is_u8 Y' -> Y <= Y' ->
  glyph bstr Y = Done (shade bstr Y)
  /\ In (shade bstr Y) bstr
  /\ Z.of_nat (length bstr) - 1 - Y' * (Z.of_nat (length bstr) - 1) / 255
     <= Z.of_nat (length bstr) - 1 - Y * (Z.of_nat (length bstr) - 1) / 255.
Proof.
  intros Hn HY HY' Hle.
  destruct (glyph_shade bstr Y Hn HY) as [Hg Hi].
  split; [exact Hg|]. split.
  - unfold shade. apply nth_In. lia.
  - unfold is_u8 in *.
    assert (Y * (Z.of_nat (length bstr) - 1) / 255
            <= Y' * (Z.of_nat (length bstr) - 1) / 255)
      by (apply Z.div_le_mono; nia).
    lia.
Qed.

Lemma glyph_in_ramp_witness :
  glyph BRIGHTNESS_EXTENDED 100 = Done (shade BRIGHTNESS_EXTENDED 100)
  /\ In (shade BRIGHTNESS_EXTENDED 100) BRIGHTNESS_EXTENDED
  /\ Z.of_nat (length BRIGHTNESS_EXTENDED) - 1
     - 200 * (Z.of_nat (length BRIGHTNESS_EXTENDED) - 1) / 255
     <= Z.of_nat (length BRIGHTNESS_EXTENDED) - 1
        - 100 * (Z.of_nat (length BRIGHTNESS_EXTENDED) - 1) / 255.
Proof.
  apply (glyph_in_ramp BRIGHTNESS_EXTENDED 100 200);
    [cbn; lia | unfold is_u8; lia | unfold is_u8; lia | lia].
Defined.

Lemma glyph_empty Y : is_u8 Y -> glyph [] Y = Undefined.
Proof.
  intros HY.
  assert (H : all_bytes (fun y => match glyph [] y with
                                  | Undefined => true
                                  | _ => false
                                  end) = true) by (vm_compute; reflexivity).
  unfold all_bytes in H. rewrite forallb_forall in H.
  specialize (H Y ltac:(apply in_upto; unfold is_u8 in HY; lia)).
  destruct (glyph [] Y); [discriminate | reflexivity | discriminate].
Qed.

(** X11. An empty brightness string is not replaced by the default ramp
    (only NULL is): [num_chars - 1] wraps to the largest [size_t] and the
    first pixel drawn indexes the string far outside it. Whatever the
    image, with at least one row and one column the call is undefined. *)
Theorem empty_ramp_undefined (fuel : nat) (bytes : list Z)
        (width height ratio : Z) :
  1 <= width -> 1 <= height ->
  display_ascii_art (S fuel) (Some bytes) width height ratio (Some [])
  = Undefined.
Proof.
  intros Hw Hh. unfold display_ascii_art. cbn [for_step].
  destruct (Z.ltb_spec 0 height); [|lia].
  destruct (Z.ltb_spec 0 width); [|lia].
  cbn [bind].
  destruct (load bytes (int32 (int32 (int32 (0 * width) + 0) * 4)))
    as [r| |] eqn:Er; cbn [bind]; [|reflexivity|].
  2:{ exfalso. exact (load_not_waiting _ _ Er). }
  destruct (load bytes (int32 (int32 (int32 (0 * width) + 0) * 4) + 1))
    as [g| |] eqn:Eg; cbn [bind]; [|reflexivity|].
  2:{ exfalso. exact (load_not_waiting _ _ Eg). }
  destruct (load bytes (int32 (int32 (int32 (0 * width) + 0) * 4) + 2))
    as [b| |] eqn:Eb; cbn [bind]; [|reflexivity|].
  2:{ exfalso. exact (load_not_waiting _ _ Eb). }
  rewrite glyph_empty by apply luminance_byte. reflexivity.
Qed.

Lemma empty_ramp_undefined_witness :
  display_ascii_art 1 (Some [0; 0; 0; 0]) 1 1 1 (Some []) = Undefined.
Proof.
  apply (empty_ramp_undefined 0 [0; 0; 0; 0] 1 1 1); lia.
Defined.

(** A stepping loop with a positive step that cannot leave [int] visits
    the multiples of the step below the bound. *)
Lemma for_step_strided {S} (body : Z -> S -> run S) bound step :
  0 < step -> bound + step <= 2 ^ 31 ->
  forall m k fuel s,
    (k + m = Z.to_nat ((bound + step - 1) / step))%nat ->
    (m <= fuel)%nat ->
    for_step fuel (step * Z.of_nat k) bound step body s
    = for_each (map (fun i => step * Z.of_nat i) (seq k m)) body s.
Proof.
  intros Hstep Hbound.
  induction m as [|m IH]; intros k fuel s Hk Hfuel.
  - cbn [seq map for_each].
    assert (bound <= step * Z.of_nat k).
    { destruct (Z.le_gt_cases bound 0) as [Hb|Hb]; [nia|].
      assert (Z.of_nat k = (bound + step - 1) / step).
      { rewrite Nat.add_0_r in Hk. rewrite Hk, Z2Nat.id; [reflexivity|].
        apply Z.div_pos; lia. }
      Z.to_euclidean_division_equations; nia. }
    destruct fuel; cbn [for_step];
      destruct (Z.ltb_spec (step * Z.of_nat k) bound); try lia; reflexivity.
  - destruct fuel as [|fuel]; [lia|].
    assert (Hlt : step * Z.of_nat k < bound).
    { assert (Z.of_nat k + 1 <= (bound + step - 1) / step) by lia.
      Z.to_euclidean_division_equations; nia. }
    cbn [seq map for_each for_step].
    destruct (Z.ltb_spec (step * Z.of_nat k) bound); [|lia].
    destruct (body (step * Z.of_nat k) s) as [s'| |]; cbn [bind]; try reflexivity.
    rewrite int32_small by lia.
    replace (step * Z.of_nat k + step) with (step * Z.of_nat (Datatypes.S k)) by lia.
    apply IH; lia.
Qed.

Lemma for_step_is_strided {S} (body : Z -> S -> run S) bound step fuel s :
  0 < step -> bound + step <= 2 ^ 31 ->
  bound <= Z.of_nat fuel ->
  for_step fuel 0 bound step body s = for_each (strided bound step) body s.
Proof.
  intros Hstep Hbound Hfuel.
  pose proof (for_step_strided body bound step Hstep Hbound
                (Z.to_nat ((bound + step - 1) / step)) 0 fuel s eq_refl) as H.
  rewrite Z.mul_0_r in H. rewrite H.
  - unfold strided, upto. rewrite map_map. reflexivity.
  - destruct (Z.le_gt_cases bound 0) as [Hb|Hb].
    + replace (Z.to_nat ((bound + step - 1) / step)) with 0%nat; [lia|].
      assert ((bound + step - 1) / step <= 0)
        by (Z.to_euclidean_division_equations; nia).
      lia.
    + assert ((bound + step - 1) / step <= bound)
        by (Z.to_euclidean_division_equations; nia).
      lia.
Qed.

Lemma in_strided i bound step :
  0 < step -> In i (strided bound step) -> 0 <= i < bound.
Proof.
  intros Hstep Hin. unfold strided in Hin. apply in_map_iff in Hin.
  destruct Hin as (k & <- & Hk). apply in_upto in Hk.
  Z.to_euclidean_division_equations; nia.
Qed.

(** A loop that appends one character per index. *)
Lemma for_each_chars (f : Z -> ascii) (body : Z -> list ascii -> run (list ascii))
      (l : list Z) :
  (forall i out, In i l -> body i out = Done (out ++ [f i])) ->
  forall out, for_each l body out = Done (out ++ map f l).
Proof.
  induction l as [|i l IH]; intros Hbody out; cbn [for_each map].
  - rewrite app_nil_r. reflexivity.
  - rewrite Hbody by (left; reflexivity). cbn [bind].
    rewrite IH by (intros; apply Hbody; right; assumption).
    rewrite <- app_assoc. reflexivity.
Qed.

Lemma for_each_lines (f : Z -> list ascii)
      (body : Z -> list ascii -> run (list ascii)) (l : list Z) :
  (forall i out, In i l -> body i out = Done (out ++ f i)) ->
  forall out, for_each l body out = Done (out ++ flat_map f l).
Proof.
  induction l as [|i l IH]; intros Hbody out; cbn [for_each flat_map].
  - rewrite app_nil_r. reflexivity.
  - rewrite Hbody by (left; reflexivity). cbn [bind].
    rewrite IH by (intros; apply Hbody; right; assumption).
    rewrite <- app_assoc. reflexivity.
Qed.

Lemma load_nth buf i :
  0 <= i < Z.of_nat (length buf) -> load buf i = Done (nth (Z.to_nat i) buf 0).
Proof.
  intros Hi. unfold load. destruct (Z.ltb_spec i 0); [lia|].
  destruct (nth_error buf (Z.to_nat i)) eqn:E.
  - rewrite (nth_error_nth _ _ _ E). reflexivity.
  - apply nth_error_None in E. lia.
Qed.

Lemma render_cnn_preview fuel bstr buf width height ratio :
  frame buf width height ->
  1 <= Z.of_nat (length bstr) <= 2 ^ 24 ->
  height + 2 * Z.max ratio 1 <= INT_MAX ->
  width + Z.max ratio 1 <= INT_MAX ->
  Z.max width height <= Z.of_nat fuel ->
  render_cnn fuel bstr buf width height ratio
  = Done (preview bstr buf width height (Z.max ratio 1)).
Proof.
  intros (Hw & Hh & Hwh & Hlen) Hn Hhr Hwr Hfuel.
  unfold render_cnn, preview, INT_MAX in *.
  replace (if ratio <? 1 then 1 else ratio) with (Z.max ratio 1)
    by (destruct (Z.ltb_spec ratio 1); lia).
  set (r := Z.max ratio 1) in *.
  assert (Hr : 1 <= r) by lia.
  rewrite (int32_small (r * 2)) by lia.
  replace (r * 2) with (2 * r) by lia.
  rewrite for_step_is_strided by lia.
  rewrite (for_each_lines
             (fun y => map (fun x => shade_word bstr (nth (Z.to_nat (y * width + x)) buf 0))
                           (strided width r) ++ [nl])).
  { reflexivity. }
  intros y out Hy. apply in_strided in Hy; [|lia].
  rewrite for_step_is_strided by lia.
  rewrite (for_each_chars
             (fun x => shade_word bstr (nth (Z.to_nat (y * width + x)) buf 0))).
  { cbn [bind]. rewrite <- app_assoc. reflexivity. }
  intros x out' Hx. apply in_strided in Hx; [|lia].
  assert (Hidx : 0 <= y * width + x < width * height) by nia.
  rewrite (int32_small (y * width)) by nia.
  rewrite int32_small by lia.
  rewrite load_nth by lia. cbn [bind].
  unfold shade_word. rewrite PixelCodecFacts.channels_decode.
  destruct (decode _) as [[cr cg] cb].
  destruct (glyph_shade bstr (luminance cr cg cb) Hn (luminance_byte _ _ _)) as [-> _].
  reflexivity.
Qed.

(** X12. Both accelerator-buffer previews return the sampled picture: for
    a [width] x [height] frame and any ratio (raised to 1 when below),
    they print one line per [2 ratio]-th row and in it one ramp character
    per [ratio]-th column, each the shade of the luminance of that pixel,
    reading only cells of the frame, provided the loop counters cannot
    pass [INT_MAX] ([height + 2 ratio] and [width + ratio] at most
    [INT_MAX]). *)
Theorem previews_sample_the_frame (fuel : nat) (buf : list Z)
        (width height ratio : Z) :
  frame buf width height ->
  height + 2 * Z.max ratio 1 <= INT_MAX ->
  width + Z.max ratio 1 <= INT_MAX ->
  Z.max width height <= Z.of_nat fuel ->
  display_ascii_art_from_cnn fuel (Some buf) width height ratio
  = Done (preview BRIGHTNESS_STANDARD buf width height (Z.max ratio 1))
  /\ display_ascii_art_detailed fuel (Some buf) width height ratio
     = Done (preview BRIGHTNESS_EXTENDED buf width height (Z.max ratio 1)).
Proof.
  intros Hf Hh Hw Hfuel. split.
  - apply render_cnn_preview; auto. cbn. lia.
  - apply render_cnn_preview; auto. cbn. lia.
Qed.

Lemma previews_sample_the_frame_witness :
  display_ascii_art_from_cnn 2 (Some Examples.frame_2x2) 2 2 1
  = Done (preview BRIGHTNESS_STANDARD Examples.frame_2x2 2 2 (Z.max 1 1))
  /\ display_ascii_art_detailed 2 (Some Examples.frame_2x2) 2 2 1
     = Done (preview BRIGHTNESS_EXTENDED Examples.frame_2x2 2 2 (Z.max 1 1)).
Proof.
  apply (previews_sample_the_frame 2 Examples.frame_2x2 2 2 1).
  - unfold frame, INT_MAX. cbn. lia.
  - unfold INT_MAX. lia.
  - unfold INT_MAX. lia.
  - lia.
Defined.

(** X13. [display_title] never cuts the title: it prints it whole, after
    a left margin of floor((width - length) / 2) spaces when the title is
    shorter than the width and of none otherwise, so that a title that
    fits ends within the width and the two margins differ by at most
    one; NULL prints nothing. *)
Theorem title_centred (t : list ascii) (width : Z) :
  0 <= width < 2 ^ 31 ->
  Z.of_nat (length t) < 2 ^ 31 ->
  display_title (Some t) width
  = repeat " "%char (Z.to_nat (Z.max 0 ((width - Z.of_nat (length t)) / 2)))
    ++ t ++ [nl]
  /\ (Z.of_nat (length t) <= width ->
      0 <= (width - Z.of_nat (length t)
            - Z.max 0 ((width - Z.of_nat (length t)) / 2))
           - Z.max 0 ((width - Z.of_nat (length t)) / 2) <= 1)
  /\ display_title None width = [].
Proof.
  intros Hw Hlen. unfold display_title.
  rewrite (int32_small (Z.of_nat (length t))) by lia.
  rewrite int32_small by lia.
  split; [|split; [|reflexivity]].
  - destruct (Z.le_gt_cases (Z.of_nat (length t)) width) as [Hfit|Hlong].
    + rewrite Z.quot_div_nonneg by lia.
      rewrite Z.max_r by (apply Z.div_pos; lia).
      destruct (Z.gtb_spec ((width - Z.of_nat (length t)) / 2) 0) as [Hp|Hp].
      * reflexivity.
      * replace (Z.to_nat ((width - Z.of_nat (length t)) / 2)) with 0%nat
          by (assert (0 <= (width - Z.of_nat (length t)) / 2)
                by (apply Z.div_pos; lia); lia).
        reflexivity.
    + assert (Hq : Z.quot (width - Z.of_nat (length t)) 2 <= 0).
      { rewrite <- (Z.opp_involutive (width - Z.of_nat (length t))).
        rewrite Z.quot_opp_l by lia.
        assert (0 <= Z.quot (- (width - Z.of_nat (length t))) 2)
          by (apply Z.quot_pos; lia).
        lia. }
      destruct (Z.gtb_spec (Z.quot (width - Z.of_nat (length t)) 2) 0); [lia|].
      rewrite Z.max_l by (Z.to_euclidean_division_equations; lia).
      reflexivity.
  - intros Hfit. rewrite Z.max_r by (apply Z.div_pos; lia).
    Z.to_euclidean_division_equations; lia.
Qed.

Lemma title_centred_witness :
  display_title (Some (text "Horse")) 10
  = repeat " "%char (Z.to_nat (Z.max 0 ((10 - Z.of_nat (length (text "Horse"))) / 2)))
    ++ text "Horse" ++ [nl]
  /\ (Z.of_nat (length (text "Horse")) <= 10 ->
      0 <= (10 - Z.of_nat (length (text "Horse"))
            - Z.max 0 ((10 - Z.of_nat (length (text "Horse"))) / 2))
           - Z.max 0 ((10 - Z.of_nat (length (text "Horse"))) / 2) <= 1)
  /\ display_title None 10 = [].
Proof.
  apply (title_centred (text "Horse") 10); cbn; lia.
Defined.

End DisplayLaws.

(* ------------------------------------------------------------------ *)
(** ** Camera, further: what a capture pass leaves in the buffers *)

Module CaptureLaws.
Import PixelCodec Camera Spec Notions PixelCodecFacts CameraFacts DisplayLaws.

Lemma update_app_middle pre x v post :
  update (length pre) v (pre ++ x :: post) = pre ++ v :: post.
Proof.
  induction pre as [|a pre IH]; cbn; [reflexivity|]. rewrite IH. reflexivity.
Qed.

Lemma decode_of_encode r g b :
  is_u8 r -> is_u8 g -> is_u8 b -> decode (encode r g b) = (r, g, b).
Proof.
  intros Hr Hg Hb. unfold decode.
  rewrite encode_pack, unbias.
  rewrite pack_r, pack_g, pack_b by assumption.
  reflexivity.
Qed.

(** A property counted by position: iteration [m] sees the [m]-th index. *)
Lemma for_each_indexed {S} (P : nat -> S -> Prop) (l : list Z)
      (body : Z -> S -> run S) :
  forall m0,
    (forall m i s, nth_error l m = Some i -> P (m0 + m)%nat s ->
                   exists s', body i s = Done s' /\ P (Datatypes.S (m0 + m)) s') ->
    forall s, P m0 s ->
              exists s', for_each l body s = Done s' /\ P (m0 + length l)%nat s'.
Proof.
  induction l as [|i l IH]; intros m0 Hbody s HP.
  - exists s. cbn. rewrite Nat.add_0_r. auto.
  - destruct (Hbody 0%nat i s eq_refl) as (s1 & Hb & HP1).
    { rewrite Nat.add_0_r. exact HP. }
    rewrite Nat.add_0_r in HP1.
    cbn [for_each]. rewrite Hb. cbn [bind length].
    destruct (IH (Datatypes.S m0)) with (s := s1) as (s' & Hrun & HP').
    + intros m i' t Hnth Ht.
      replace (Datatypes.S m0 + m)%nat with (m0 + Datatypes.S m)%nat by lia.
      apply (Hbody (Datatypes.S m) i' t Hnth).
      rewrite Nat.add_succ_r. exact Ht.
    + exact HP1.
    + exists s'. split; [exact Hrun|].
      rewrite Nat.add_succ_r. exact HP'.
Qed.

(** The same for a loop only known to return. *)
Lemma for_each_indexed_invariant {S} (P : nat -> S -> Prop) (l : list Z)
      (body : Z -> S -> run S) :
  forall m0,
    (forall m i s s', nth_error l m = Some i -> P (m0 + m)%nat s ->
                      body i s = Done s' -> P (Datatypes.S (m0 + m)) s') ->
    forall s s', P m0 s -> for_each l body s = Done s' -> P (m0 + length l)%nat s'.
Proof.
  induction l as [|i l IH]; intros m0 Hbody s s' HP Hrun.
  - cbn in Hrun. apply Done_inj in Hrun. subst s'. rewrite Nat.add_0_r. exact HP.
  - cbn [for_each] in Hrun.
    destruct (body i s) as [s1| |] eqn:Hb; cbn [bind] in Hrun; [|discriminate Hrun ..].
    pose proof (Hbody 0%nat i s s1 eq_refl) as HP1.
    rewrite Nat.add_0_r in HP1. specialize (HP1 HP Hb).
    cbn [length]. rewrite Nat.add_succ_r.
    apply (IH (Datatypes.S m0)) with (s := s1); [|exact HP1|exact Hrun].
    intros m i' t t' Hnth Ht Hbt.
    replace (Datatypes.S m0 + m)%nat with (m0 + Datatypes.S m)%nat by lia.
    apply (Hbody (Datatypes.S m) i' t t' Hnth); [|exact Hbt].
    rewrite Nat.add_succ_r. exact Ht.
Qed.

Lemma nth_upto n m i : nth_error (upto n) m = Some i -> i = Z.of_nat m /\ Z.of_nat m < n.
Proof.
  unfold upto. intros H.
  rewrite nth_error_map in H.
  destruct (nth_error (seq 0 (Z.to_nat n)) m) as [k|] eqn:E; [|discriminate].
  cbn in H. injection H as <-.
  assert (Hm : (m < length (seq 0 (Z.to_nat n)))%nat)
    by (apply nth_error_Some; congruence).
  rewrite length_seq in Hm.
  apply (nth_error_nth _ _ 0%nat) in E. rewrite seq_nth in E by lia.
  subst k. lia.
Qed.

Section Contents.
Variables cnn_buffer_size rgb565_size : Z.
Hypothesis cnn_size_int : 0 <= cnn_buffer_size <= INT_MAX.
Hypothesis rgb_size_int : 0 <= rgb565_size <= INT_MAX.
Variable cells0 : list Z.
Hypothesis cells0_hold : cnn_buffer_size <= Z.of_nat (length cells0).

Lemma put_cnn_written r g b offered c c' :
  filled cnn_buffer_size rgb565_size (Z.of_nat (length offered)) c ->
  written cnn_buffer_size cells0 offered c ->
  put_cnn cnn_buffer_size r g b c = Done c' ->
  written cnn_buffer_size cells0 (offered ++ [encode r g b]) c'.
Proof.
  intros (Hcnt & _) Hw H. unfold written in *. unfold put_cnn, INT_MAX in *.
  rewrite u32_small in H by (unfold is_u32; lia).
  destruct (Z.ltb_spec (cnt c) cnn_buffer_size) as [Hlt|Hge].
  - assert (Hlen : (length offered < Z.to_nat cnn_buffer_size)%nat) by lia.
    assert (Ecnt : cnt c = Z.of_nat (length offered)) by lia.
    rewrite Hw in H.
    rewrite firstn_all2 in H by lia.
    rewrite Nat.min_l in H by lia.
    destruct (skipn_next cells0 (length offered) ltac:(lia)) as (x & Hx & _).
    rewrite Hx in H. unfold store_at in H.
    rewrite length_app in H. cbn [length] in H.
    replace ((0 <=? cnt c) && (cnt c <? Z.of_nat (length offered + S (length (skipn (S (length offered)) cells0)))))
      with true in H
      by (symmetry; apply andb_true_iff; split; [apply Z.leb_le | apply Z.ltb_lt]; lia).
    cbn [bind] in H. apply Done_inj in H. subst c'. cbn [cnn_buffer].
    rewrite Ecnt, Nat2Z.id, update_app_middle.
    rewrite firstn_all2 by (rewrite length_app; cbn; lia).
    rewrite length_app. cbn [length].
    rewrite Nat.min_l by lia.
    rewrite <- app_assoc. cbn [app].
    replace (length offered + 1)%nat with (S (length offered)) by lia.
    reflexivity.
  - apply Done_inj in H. subst c'. rewrite Hw.
    rewrite firstn_app.
    replace (Z.to_nat cnn_buffer_size - length offered)%nat with 0%nat by lia.
    cbn [firstn]. rewrite app_nil_r.
    rewrite length_app. cbn [length].
    rewrite !Nat.min_r by lia. reflexivity.
Qed.

Lemma put_rgb565_keeps_cnn r g b c c' :
  put_rgb565 rgb565_size r g b c = Done c' -> cnn_buffer c' = cnn_buffer c.
Proof.
  unfold put_rgb565. intros H.
  destruct (rgb565_buffer c) as [cells|].
  - run_cases H; subst c'; reflexivity.
  - apply Done_inj in H. subst c'. reflexivity.
Qed.

Lemma pixel_written bytes (i : nat) offered c :
  4 * Z.of_nat i + 2 < Z.of_nat (length bytes) ->
  filled cnn_buffer_size rgb565_size (Z.of_nat (length offered)) c ->
  written cnn_buffer_size cells0 offered c ->
  exists c',
    pixel cnn_buffer_size rgb565_size (Some bytes) (4 * Z.of_nat i) c = Done c'
    /\ filled cnn_buffer_size rgb565_size (Z.of_nat (length offered) + 1) c'
    /\ written cnn_buffer_size cells0 (offered ++ [sample_word bytes i]) c'
    /\ polls c' = polls c.
Proof.
  intros Hlen Hf Hw.
  destruct (pixel_filled cnn_buffer_size rgb565_size cnn_size_int rgb_size_int
              bytes (4 * Z.of_nat i) (Z.of_nat (length offered)) c
              ltac:(lia) ltac:(lia) ltac:(lia) Hf) as (c' & Hrun & Hf' & Hp').
  exists c'. split; [exact Hrun|]. split; [exact Hf'|]. split; [|exact Hp'].
  unfold pixel, load_byte in Hrun.
  rewrite !load_nth in Hrun by lia. cbn [bind] in Hrun.
  replace (Z.to_nat (4 * Z.of_nat i)) with (4 * i)%nat in Hrun by lia.
  replace (Z.to_nat (4 * Z.of_nat i + 1)) with (4 * i + 1)%nat in Hrun by lia.
  replace (Z.to_nat (4 * Z.of_nat i + 2)) with (4 * i + 2)%nat in Hrun by lia.
  destruct (put_cnn cnn_buffer_size _ _ _ c) as [c1| |] eqn:Hput;
    cbn [bind] in Hrun; [|discriminate Hrun ..].
  pose proof (put_cnn_written _ _ _ offered c c1 Hf Hw Hput) as Hw1.
  unfold written in *. rewrite (put_rgb565_keeps_cnn _ _ _ _ _ Hrun). exact Hw1.
Qed.

Lemma scanline_written w row offered c l ls :
  0 <= w < 2 ^ 29 ->
  filled cnn_buffer_size rgb565_size (Z.of_nat (length offered)) c ->
  written cnn_buffer_size cells0 offered c ->
  delivers (polls c) (l :: ls) ->
  4 * w <= Z.of_nat (length l) ->
  exists c',
    scanline cnn_buffer_size rgb565_size w row c = Done c'
    /\ filled cnn_buffer_size rgb565_size (Z.of_nat (length offered) + w) c'
    /\ written cnn_buffer_size cells0 (offered ++ scanline_words (Z.to_nat w) l) c'
    /\ delivers (polls c') ls.
Proof.
  intros Hw Hf Hwr Hd Hl. unfold scanline.
  destruct (wait_stream_buffer_delivers _ _ _ Hd) as (ps' & -> & Hd').
  cbn [bind].
  rewrite u32_small by (unfold is_u32; lia).
  rewrite int32_small by lia.
  rewrite strided_4, for_each_map by lia.
  set (c0 := {| cnt := cnt c; j := 0; cnn_buffer := cnn_buffer c;
                rgb565_buffer := rgb565_buffer c; stores := stores c;
                polls := ps' |}).
  destruct (for_each_indexed
              (fun m s =>
                 filled cnn_buffer_size rgb565_size
                        (Z.of_nat (length offered) + Z.of_nat m) s
                 /\ written cnn_buffer_size cells0
                            (offered ++ map (sample_word l) (seq 0 m)) s
                 /\ polls s = ps')
              (upto w)
              (fun i => pixel cnn_buffer_size rgb565_size (Some l) (4 * i)) 0%nat)
    with (s := c0) as (c' & Hrun & Hf' & Hw' & Hp').
  - intros m i s Hi (Hfs & Hws & Hps). cbn [Nat.add] in *.
    apply nth_upto in Hi. destruct Hi as [-> Hm].
    assert (Hlen : length (offered ++ map (sample_word l) (seq 0 m))
                   = (length offered + m)%nat)
      by (rewrite length_app, length_map, length_seq; reflexivity).
    destruct (pixel_written l m (offered ++ map (sample_word l) (seq 0 m)) s)
      as (s' & Hs' & Hfs' & Hws' & Hps'); try lia.
    { rewrite Hlen, Nat2Z.inj_add. exact Hfs. }
    { exact Hws. }
    exists s'. split; [exact Hs'|]. split; [|split; [|congruence]].
    + rewrite Hlen in Hfs'.
      replace (Z.of_nat (length offered) + Z.of_nat (Datatypes.S m))
        with (Z.of_nat (length offered + m) + 1) by lia.
      exact Hfs'.
    + rewrite seq_S, map_app. cbn [map Nat.add].
      rewrite <- app_assoc in Hws'. exact Hws'.
  - split; [|split; [|reflexivity]].
    + destruct Hf as (Hcnt & Hidx & Hin & Hcnn & Hrgb & Hj).
      unfold filled, c0; cbn. rewrite Z.add_0_r.
      repeat split; try assumption; lia.
    + cbn [seq map]. rewrite app_nil_r. exact Hwr.
  - exists c'. cbn [Nat.add] in *. rewrite upto_length in Hf', Hw'.
    rewrite Z2Nat.id in Hf' by lia.
    split; [exact Hrun|]. split; [exact Hf'|]. split; [exact Hw' | congruence].
Qed.

Lemma firstn_succ_skipn {A} (l : list A) m x rest :
  skipn m l = x :: rest -> firstn (Datatypes.S m) l = firstn m l ++ [x].
Proof.
  revert m; induction l as [|a l IH]; intros m H.
  - destruct m; discriminate H.
  - destruct m as [|m]; cbn in H.
    + injection H as -> _. reflexivity.
    + rewrite (firstn_cons (Datatypes.S m)), (firstn_cons m), (IH m H).
      reflexivity.
Qed.

Lemma length_frame_words w lines :
  length (frame_words w lines) = (length lines * w)%nat.
Proof.
  unfold frame_words. induction lines as [|l lines IH]; cbn [flat_map length Nat.mul].
  - reflexivity.
  - rewrite length_app, IH. unfold scanline_words.
    rewrite length_map, length_seq. reflexivity.
Qed.

(** A whole frame streamed into a buffer of at least the declared
    capacity: the pass returns and the buffer holds the frame's words. *)
Lemma capture_written cam lines rgb565_buffer :
  streams cam lines ->
  holds rgb565_buffer rgb565_size ->
  exists r,
    camera_utils_capture cam (Some cells0) cnn_buffer_size rgb565_buffer rgb565_size
    = Done r
    /\ written cnn_buffer_size cells0 (frame_words (Z.to_nat (cam_w cam)) lines)
               (final r)
    /\ status r = (if cam_overflow_count cam >? 0
                   then CAM_STATUS_OVERFLOW else CAM_STATUS_OK).
Proof.
  intros (Hd & Hlen & Hlines & Hw & Hh) Hrgb.
  unfold camera_utils_capture.
  rewrite int32_small by lia.
  set (w := Z.to_nat (cam_w cam)).
  destruct (for_each_indexed
              (fun m s =>
                 filled cnn_buffer_size rgb565_size
                        (Z.of_nat (length (frame_words w (firstn m lines)))) s
                 /\ written cnn_buffer_size cells0 (frame_words w (firstn m lines)) s
                 /\ delivers (polls s) (skipn m lines))
              (upto (cam_h cam))
              (scanline cnn_buffer_size rgb565_size (cam_w cam)) 0%nat)
    with (s := {| cnt := 0; j := 0; cnn_buffer := Some cells0;
                  rgb565_buffer := rgb565_buffer; stores := [];
                  polls := cam_polls cam |})
    as (c & Hrun & _ & Hwr & _).
  - intros m i s Hi (Hfs & Hws & Hds). cbn [Nat.add] in *.
    apply nth_upto in Hi. destruct Hi as [-> Hm].
    destruct (skipn_next lines m ltac:(lia)) as (l & Hskip & Hin).
    rewrite Hskip in Hds.
    rewrite Forall_forall in Hlines.
    destruct (scanline_written (cam_w cam) (Z.of_nat m)
                (frame_words w (firstn m lines)) s l _
                Hw Hfs Hws Hds (Hlines l Hin)) as (s' & Hs' & Hfs' & Hws' & Hds').
    exists s'. split; [exact Hs'|].
    rewrite (firstn_succ_skipn _ _ _ _ Hskip).
    unfold frame_words at 1 2. rewrite flat_map_app. cbn [flat_map].
    rewrite app_nil_r. fold (frame_words w (firstn m lines)).
    split; [|split; [exact Hws' | exact Hds']].
    rewrite length_app. unfold scanline_words at 1.
    rewrite length_map, length_seq, Nat2Z.inj_add. unfold w at 2.
    rewrite Z2Nat.id by lia. exact Hfs'.
  - cbn [firstn]. unfold frame_words; cbn [flat_map length].
    split; [|split; [|exact Hd]].
    + unfold filled; cbn. unfold INT_MAX in *.
      split; [lia|]. split; [reflexivity|]. split; [constructor|].
      split; [exists cells0; auto|]. split; [exact Hrgb | lia].
    + unfold written. cbn. rewrite firstn_nil. reflexivity.
  - rewrite Hrun. cbn [bind].
    cbn [Nat.add] in Hwr. rewrite upto_length in Hwr.
    replace (Z.to_nat (cam_h cam)) with (length lines) in Hwr by lia.
    rewrite firstn_all in Hwr.
    destruct (cam_overflow_count cam >? 0);
      eexists; (split; [reflexivity|]); cbn; auto.
Qed.

End Contents.

(** X14. What a capture pass leaves in the accelerator buffer: for a
    source that streams a whole frame into a buffer of at least the
    declared capacity, the pass returns and the buffer holds the packed
    words of the frame's pixels in row-major order, cut at the declared
    capacity, followed by its old cells from min(w h, capacity) on,
    untouched. *)
Theorem capture_contents (cam : camera_hw) (lines : list (list Z))
        (cells : list Z) (cnn_buffer_size : Z)
        (rgb565_buffer : option (list Z)) (rgb565_size : Z) :
  streams cam lines ->
  0 <= cnn_buffer_size <= INT_MAX ->
  0 <= rgb565_size <= INT_MAX ->
  cnn_buffer_size <= Z.of_nat (length cells) ->
  holds rgb565_buffer rgb565_size ->
  exists r,
    camera_utils_capture cam (Some cells) cnn_buffer_size rgb565_buffer rgb565_size
    = Done r
    /\ cnn_buffer (final r)
       = Some (firstn (Z.to_nat cnn_buffer_size)
                      (frame_words (Z.to_nat (cam_w cam)) lines)
               ++ skipn (Z.to_nat (Z.min (cam_w cam * cam_h cam) cnn_buffer_size))
                        cells).
Proof.
  intros Hs Hc Hr Hlen Hrgb.
  destruct (capture_written cnn_buffer_size rgb565_size Hc Hr cells Hlen
              cam lines rgb565_buffer Hs Hrgb) as (r & Hrun & Hw & _).
  exists r. split; [exact Hrun|].
  unfold written in Hw. rewrite Hw, length_frame_words.
  destruct Hs as (_ & Hh & _ & Hwd & Hht).
  do 3 f_equal. nia.
Qed.

Lemma capture_contents_witness :
  exists r,
    camera_utils_capture Examples.two_pixels (Some [7; 7; 7]) 1 (Some [0; 0; 0; 0]) 4
    = Done r
    /\ cnn_buffer (final r)
       = Some (firstn (Z.to_nat 1)
                      (frame_words (Z.to_nat (cam_w Examples.two_pixels))
                                   [[10; 20; 30; 0; 40; 50; 60; 0]])
               ++ skipn (Z.to_nat (Z.min (cam_w Examples.two_pixels
                                          * cam_h Examples.two_pixels) 1))
                        [7; 7; 7]).
Proof.
  apply (capture_contents Examples.two_pixels [[10; 20; 30; 0; 40; 50; 60; 0]]
           [7; 7; 7] 1 (Some [0; 0; 0; 0]) 4).
  - exact two_pixels_stream.
  - unfold INT_MAX; lia.
  - unfold INT_MAX; lia.
  - cbn; lia.
  - cbn; lia.
Defined.

Lemma nth_frame_words w lines : forall row col,
  (row < length lines)%nat -> (col < w)%nat ->
  nth (row * w + col) (frame_words w lines) 0
  = sample_word (nth row lines []) col.
Proof.
  unfold frame_words.
  induction lines as [|l lines IH]; intros row col Hrow Hcol; cbn in Hrow; [lia|].
  cbn [flat_map].
  assert (Hl : length (scanline_words w l) = w)
    by (unfold scanline_words; rewrite length_map, length_seq; reflexivity).
  destruct row as [|row].
  - cbn [Nat.mul Nat.add nth]. rewrite app_nth1 by lia.
    unfold scanline_words.
    rewrite (nth_indep _ 0 (sample_word l 0)) by (rewrite length_map, length_seq; lia).
    rewrite map_nth, seq_nth by lia. reflexivity.
  - rewrite app_nth2 by (rewrite Hl; cbn; lia).
    rewrite Hl. replace (Datatypes.S row * w + col - w)%nat with (row * w + col)%nat
      by (cbn; lia).
    cbn [nth]. apply IH; lia.
Qed.

(** X15. Capture is lossless for a frame that fits: when the declared
    capacity covers the w h pixels of the streamed frame, the pass
    returns and the word at cell [row * w + col] of the accelerator buffer
    decodes, with the exporters' decoding, to exactly the three colour
    bytes of sample [col] of scanline [row]; the fourth byte of each
    sample is dropped. *)
Theorem capture_keeps_every_pixel (cam : camera_hw) (lines : list (list Z))
        (cells : list Z) (cnn_buffer_size : Z)
        (rgb565_buffer : option (list Z)) (rgb565_size : Z) :
  streams cam lines ->
  cam_w cam * cam_h cam <= cnn_buffer_size <= INT_MAX ->
  0 <= rgb565_size <= INT_MAX ->
  cnn_buffer_size <= Z.of_nat (length cells) ->
  holds rgb565_buffer rgb565_size ->
  exists r buf,
    camera_utils_capture cam (Some cells) cnn_buffer_size rgb565_buffer rgb565_size
    = Done r
    /\ cnn_buffer (final r) = Some buf
    /\ length buf = length cells
    /\ forall row col,
         (row < Z.to_nat (cam_h cam))%nat -> (col < Z.to_nat (cam_w cam))%nat ->
         decode (nth (row * Z.to_nat (cam_w cam) + col) buf 0)
         = sample_bytes (nth row lines []) col.
Proof.
  intros Hs Hc Hr Hlen Hrgb.
  assert (Hs' := Hs). destruct Hs' as (_ & Hh & _ & Hwd & Hht).
  destruct (capture_written cnn_buffer_size rgb565_size ltac:(nia) Hr cells Hlen
              cam lines rgb565_buffer Hs Hrgb) as (r & Hrun & Hw & _).
  unfold written in Hw.
  pose proof (length_frame_words (Z.to_nat (cam_w cam)) lines) as Hfw.
  rewrite firstn_all2 in Hw by nia.
  rewrite Nat.min_l in Hw by nia.
  exists r. eexists. split; [exact Hrun|]. split; [exact Hw|]. split.
  - rewrite length_app, length_skipn. nia.
  - intros row col Hrow Hcol.
    rewrite app_nth1 by nia.
    rewrite nth_frame_words by lia.
    unfold sample_word, sample_bytes.
    apply decode_of_encode; apply u8_range.
Qed.

Lemma capture_keeps_every_pixel_witness :
  exists r buf,
    camera_utils_capture Examples.two_pixels (Some [7; 7; 7]) 3 (Some [0; 0; 0; 0]) 4
    = Done r
    /\ cnn_buffer (final r) = Some buf
    /\ length buf = length [7; 7; 7]
    /\ forall row col,
         (row < Z.to_nat (cam_h Examples.two_pixels))%nat ->
         (col < Z.to_nat (cam_w Examples.two_pixels))%nat ->
         decode (nth (row * Z.to_nat (cam_w Examples.two_pixels) + col) buf 0)
         = sample_bytes (nth row [[10; 20; 30; 0; 40; 50; 60; 0]] []) col.
Proof.
  apply (capture_keeps_every_pixel Examples.two_pixels
           [[10; 20; 30; 0; 40; 50; 60; 0]] [7; 7; 7] 3 (Some [0; 0; 0; 0]) 4).
  - exact two_pixels_stream.
  - unfold INT_MAX; cbn; lia.
  - unfold INT_MAX; lia.
  - cbn; lia.
  - cbn; lia.
Defined.

Lemma put_cnn_scanline w r g b size c c' :
  Forall (in_first_scanline w) (stores c) ->
  put_cnn size r g b c = Done c' ->
  Forall (in_first_scanline w) (stores c') /\ j c' = j c.
Proof.
  unfold put_cnn. intros Hs H. run_cases H; subst c'; cbn [stores j].
  - split; [|reflexivity]. apply Forall_app. split; [exact Hs|].
    apply Forall_cons; [exact I | apply Forall_nil].
  - split; [exact Hs | reflexivity].
Qed.

Lemma put_rgb565_scanline w r g b size (m : nat) c c' :
  Z.of_nat m < w -> w < 2 ^ 29 ->
  0 <= j c <= 2 * Z.of_nat m ->
  Forall (in_first_scanline w) (stores c) ->
  put_rgb565 size r g b c = Done c' ->
  0 <= j c' <= 2 * Z.of_nat (Datatypes.S m)
  /\ Forall (in_first_scanline w) (stores c').
Proof.
  unfold put_rgb565. intros Hm Hw Hj Hs H.
  destruct (rgb565_buffer c) as [cells|].
  - run_cases H; subst c'; cbn [stores j].
    + rewrite (int32_small (j c + 1)), (int32_small (j c + 2)) by lia.
      split; [lia|].
      apply Forall_app. split; [exact Hs|].
      apply Forall_cons; [unfold in_first_scanline; lia|].
      apply Forall_cons; [unfold in_first_scanline; lia | apply Forall_nil].
    + split; [lia | exact Hs].
  - apply Done_inj in H. subst c'. split; [lia | exact Hs].
Qed.

(** X16. The display buffer only ever receives one scanline: the byte
    index restarts at 0 on every row, so for a source of width w below
    2^29 every write to it lands in bytes 0 .. 2 w - 1, whatever its
    declared size, and each row overwrites the one before. *)
Theorem display_buffer_one_scanline (cam : camera_hw)
        (cnn_buffer : option (list Z)) (cnn_buffer_size : Z)
        (rgb565_buffer : option (list Z)) (rgb565_size : Z) (r : captured) :
  0 <= cam_w cam < 2 ^ 29 ->
  camera_utils_capture cam cnn_buffer cnn_buffer_size rgb565_buffer rgb565_size
  = Done r ->
  Forall (in_first_scanline (cam_w cam)) (stores (final r)).
Proof.
  intros Hw H. unfold camera_utils_capture in H.
  match type of H with bind ?m _ = _ => destruct m as [c| |] eqn:Hloop end;
    cbn [bind] in H; [|discriminate H ..].
  assert (Hc : Forall (in_first_scanline (cam_w cam)) (stores c)).
  { eapply (for_each_invariant
              (fun s => Forall (in_first_scanline (cam_w cam)) (stores s)));
      [| |exact Hloop]; [|apply Forall_nil].
    intros row s s' _ Hs Hrow. unfold scanline in Hrow.
    destruct (wait_stream_buffer (polls s)) as [[data rest]| |];
      cbn [bind] in Hrow; [|discriminate Hrow ..].
    rewrite u32_small in Hrow by (unfold is_u32; lia).
    rewrite int32_small in Hrow by lia.
    rewrite strided_4, for_each_map in Hrow by lia.
    pose proof (for_each_indexed_invariant
                  (fun m t => 0 <= j t <= 2 * Z.of_nat m
                              /\ Forall (in_first_scanline (cam_w cam)) (stores t))
                  (upto (cam_w cam))
                  (fun i => pixel cnn_buffer_size rgb565_size data (4 * i)) 0%nat)
      as Hinv.
    cbn [Nat.add] in Hinv.
    refine (proj2 (Hinv _ _ s' _ Hrow)).
    - intros m i t t' Hi (Hj & Ht) Hpix.
      apply nth_upto in Hi. destruct Hi as [-> Hm].
      unfold pixel in Hpix. run_cases Hpix.
      destruct (put_cnn_scanline _ _ _ _ _ _ _ Ht E2) as (Ht1 & Hj1).
      apply (put_rgb565_scanline (cam_w cam) _ _ _ _ m _ _ Hm ltac:(lia)
               ltac:(rewrite Hj1; exact Hj) Ht1 Hpix).
    - cbn [j stores]. split; [lia | exact Hs]. }
  destruct (cam_overflow_count cam >? 0); apply Done_inj in H; subst r; exact Hc.
Qed.

Lemma display_buffer_one_scanline_witness :
  exists r,
    camera_utils_capture Examples.four_pixels (Some [0; 0; 0; 0]) 4
                         (Some [0; 0; 0; 0; 0; 0; 0; 0]) 8 = Done r
    /\ Forall (in_first_scanline (cam_w Examples.four_pixels)) (stores (final r)).
Proof.
  eexists. split; [vm_compute; reflexivity|].
  apply (display_buffer_one_scanline Examples.four_pixels (Some [0; 0; 0; 0]) 4
           (Some [0; 0; 0; 0; 0; 0; 0; 0]) 8).
  - cbn. lia.
  - reflexivity.
Defined.

Lemma upto_first n : 1 <= n -> exists rest, upto n = 0 :: rest.
Proof.
  intros Hn. unfold upto. destruct (Z.to_nat n) as [|k] eqn:E; [lia|].
  cbn [seq map]. eexists. reflexivity.
Qed.

Lemma wait_stream_buffer_ends k rest :
  wait_stream_buffer (repeat (NoLine false) k ++ NoLine true :: rest)
  = Done (None, rest).
Proof. induction k as [|k IH]; cbn; [reflexivity | exact IH]. Qed.

(** X17. The wait for a scanline stops when the driver reports the image
    as received, with no scanline in hand, and the pixel loop then reads
    through the NULL pointer: when that happens before the first row of a
    frame of at least one column and one row, the pass is undefined,
    whatever the buffers. *)
Theorem capture_reads_null_scanline (cam : camera_hw) (k : nat) (rest : list poll)
        (cnn_buffer : option (list Z)) (cnn_buffer_size : Z)
        (rgb565_buffer : option (list Z)) (rgb565_size : Z) :
  cam_polls cam = repeat (NoLine false) k ++ NoLine true :: rest ->
  1 <= cam_w cam < 2 ^ 29 ->
  1 <= cam_h cam < 2 ^ 31 ->
  camera_utils_capture cam cnn_buffer cnn_buffer_size rgb565_buffer rgb565_size
  = Undefined.
Proof.
  intros Hp Hw Hh. unfold camera_utils_capture.
  rewrite int32_small by lia.
  destruct (upto_first (cam_h cam)) as (rows & ->); [lia|].
  cbn [for_each]. unfold scanline at 1. cbn [polls].
  rewrite Hp, wait_stream_buffer_ends. cbn [bind].
  rewrite u32_small by (unfold is_u32; lia).
  rewrite int32_small by lia.
  rewrite strided_4 by lia.
  destruct (upto_first (cam_w cam)) as (cols & ->); [lia|].
  reflexivity.
Qed.

Lemma capture_reads_null_scanline_witness :
  camera_utils_capture
    {| cam_imgLen := 4; cam_w := 1; cam_h := 1;
       cam_polls := [NoLine false; NoLine true]; cam_overflow_count := 0 |}
    (Some [0]) 1 None 0
  = Undefined.
Proof.
  apply (capture_reads_null_scanline
           {| cam_imgLen := 4; cam_w := 1; cam_h := 1;
              cam_polls := [NoLine false; NoLine true]; cam_overflow_count := 0 |}
           1 [] (Some [0]) 1 None 0).
  - reflexivity.
  - cbn. lia.
  - cbn. lia.
Defined.

End CaptureLaws.

(* ------------------------------------------------------------------ *)
(** ** Serial, further: the exports read back *)

Module SerialLaws.
Import PixelCodec Serial Spec Notions CameraFacts SerialFacts DisplayLaws CaptureLaws.

(** The cells [base], [base + 1], ... of a buffer are a segment of it. *)
Lemma segment_nth (buf : list Z) (n base : nat) :
  (base + n <= length buf)%nat ->
  map (fun col => nth (base + col) buf 0) (seq 0 n) = firstn n (skipn base buf).
Proof.
  revert base. induction n as [|n IH]; intros base Hlen; [reflexivity|].
  destruct (skipn_next buf base ltac:(lia)) as (x & Hx & _).
  rewrite Hx. cbn [seq map firstn].
  f_equal.
  - rewrite Nat.add_0_r.
    rewrite <- (firstn_skipn base buf) at 1.
    rewrite app_nth2 by (rewrite length_firstn; lia).
    rewrite length_firstn, Nat.min_l, Nat.sub_diag, Hx by lia. reflexivity.
  - rewrite <- seq_shift, map_map. rewrite <- (IH (Datatypes.S base)) by lia.
    apply map_ext. intros col. f_equal. lia.
Qed.

Lemma rows_of_row (buf : list Z) (height width : nat) (row : nat) :
  length buf = (height * width)%nat -> (row < height)%nat ->
  map (fun col => nth (Z.to_nat (Z.of_nat row * Z.of_nat width + col)) buf 0)
      (upto (Z.of_nat width))
  = firstn width (skipn (row * width) buf).
Proof.
  intros Hlen Hrow. unfold upto. rewrite Nat2Z.id, map_map.
  rewrite <- segment_nth by nia.
  apply map_ext. intros col. f_equal. lia.
Qed.

Lemma concat_rows_of (width : nat) : forall (height : nat) (buf : list Z),
  length buf = (height * width)%nat -> concat (rows_of height width buf) = buf.
Proof.
  unfold rows_of. induction height as [|height IH]; intros buf Hlen.
  - destruct buf; [reflexivity | discriminate Hlen].
  - rewrite seq_S, map_app, concat_app. cbn [map concat Nat.add]. rewrite app_nil_r.
    assert (E1 : concat (map (fun k => firstn width (skipn (k * width) buf))
                             (seq 0 height))
                 = firstn (height * width) buf).
    { rewrite <- (IH (firstn (height * width) buf))
        by (rewrite length_firstn; cbn in Hlen; lia).
      f_equal. apply map_ext_in. intros k Hk. apply in_seq in Hk.
      rewrite skipn_firstn_comm, firstn_firstn.
      f_equal. nia. }
    assert (E2 : firstn width (skipn (height * width) buf)
                 = skipn (height * width) buf).
    { apply firstn_all2. rewrite length_skipn. cbn in Hlen. lia. }
    rewrite E1, E2. apply firstn_skipn.
Qed.

(** The text the row loops of the exporters produce, for any per-pixel text. *)
Lemma export_rows (cell : Z -> Z -> list ascii)
      (body : Z -> Z -> list ascii -> run (list ascii)) buf width height :
  frame buf width height ->
  (forall col word out, body col word out = Done (out ++ cell col word)) ->
  forall out,
    for_each (upto height)
      (fun row out =>
         out' <- for_each (upto width)
           (fun col out => word <- load buf (flat_index row width col) ;;
                           body col word out) out ;;
         Done (out' ++ [nl])) out
    = Done (out ++ flat_map
                     (fun row =>
                        flat_map (fun '(col, word) => cell col word)
                                 (combine (upto width) row) ++ [nl])
                     (rows_of (Z.to_nat height) (Z.to_nat width) buf)).
Proof.
  intros (Hw & Hh & Hwh & Hlen) Hbody out.
  rewrite (for_each_lines
             (fun row => flat_map (fun col => cell col (nth (Z.to_nat (row * width + col)) buf 0))
                                  (upto width) ++ [nl])).
  - f_equal. f_equal. unfold rows_of.
    change (upto height) with (map Z.of_nat (seq 0 (Z.to_nat height))).
    rewrite !flat_map_concat_map, !map_map. f_equal.
    apply map_ext_in. intros k Hk. apply in_seq in Hk. f_equal.
    rewrite <- (rows_of_row buf (Z.to_nat height) (Z.to_nat width) k) by nia.
    rewrite Z2Nat.id by lia.
    rewrite flat_map_concat_map. rewrite flat_map_concat_map. f_equal.
    generalize (upto width) as cols. intros cols.
    induction cols as [|c cols IH]; [reflexivity|].
    cbn [map combine]. rewrite IH. reflexivity.
  - intros row out0 Hrow. apply in_upto in Hrow.
    rewrite (for_each_lines
               (fun col => cell col (nth (Z.to_nat (row * width + col)) buf 0))).
    + cbn [bind]. rewrite <- app_assoc. reflexivity.
    + intros col out1 Hcol. apply in_upto in Hcol.
      rewrite (flat_index_small row width height col) by assumption.
      rewrite load_nth by nia. cbn [bind]. apply Hbody.
Qed.

Lemma flat_map_snd {A} (f : Z -> list A) (cols row : list Z) :
  length cols = length row ->
  flat_map (fun '(_, word) => f word) (combine cols row) = flat_map f row.
Proof.
  revert row. induction cols as [|c cols IH]; intros [|x row] H;
    try discriminate H; [reflexivity|].
  cbn [combine flat_map]. rewrite IH by (cbn in H; lia). reflexivity.
Qed.

Lemma rows_of_lengths height width buf :
  length buf = (height * width)%nat ->
  Forall (fun row => length row = width) (rows_of height width buf).
Proof.
  intros Hlen. unfold rows_of. apply Forall_forall. intros row Hrow.
  apply in_map_iff in Hrow. destruct Hrow as (k & <- & Hk). apply in_seq in Hk.
  rewrite length_firstn, length_skipn. nia.
Qed.

Lemma flat_map_ext_in {A B} (f g : A -> list B) (l : list A) :
  (forall x, In x l -> f x = g x) -> flat_map f l = flat_map g l.
Proof.
  intros H. induction l as [|x l IH]; [reflexivity|].
  cbn [flat_map]. rewrite H by (left; reflexivity).
  rewrite IH by (intros; apply H; right; assumption). reflexivity.
Qed.

Lemma flat_map_rows {A B} (f : A -> list B) (rows : list (list A)) :
  flat_map (flat_map f) rows = flat_map f (concat rows).
Proof.
  induction rows as [|row rows IH]; [reflexivity|].
  cbn [flat_map concat]. rewrite flat_map_app, IH. reflexivity.
Qed.

Lemma unwrap_app a b : unwrap (a ++ b) = unwrap a ++ unwrap b.
Proof. apply filter_app. Qed.

Lemma unwrap_clean cs : Forall (fun c => c <> nl) cs -> unwrap cs = cs.
Proof.
  induction 1 as [|c cs Hc _ IH]; [reflexivity|].
  unfold unwrap in *. cbn [filter].
  destruct (Ascii.eqb_spec c nl); [contradiction|]. cbn. rewrite IH. reflexivity.
Qed.

Lemma unwrap_lines (f : list Z -> list ascii) (rows : list (list Z)) :
  (forall row, Forall (fun c => c <> nl) (f row)) ->
  unwrap (flat_map (fun row => f row ++ [nl]) rows) = flat_map f rows.
Proof.
  intros Hf.
  induction rows as [|row rows IH]; [reflexivity|].
  cbn [flat_map]. rewrite !unwrap_app, IH, (unwrap_clean _ (Hf row)).
  change (unwrap [nl]) with (@nil ascii). rewrite app_nil_r.
  reflexivity.
Qed.

Lemma hex_digit_clean d : hex_digit d <> nl.
Proof.
  unfold hex_digit.
  destruct (nth_in_or_default (Z.to_nat d) (text "0123456789ABCDEF") "0"%char)
    as [Hin| ->]; [|discriminate].
  revert Hin. generalize (nth (Z.to_nat d) (text "0123456789ABCDEF") "0"%char).
  intros c Hin. cbn in Hin.
  repeat (destruct Hin as [<-|Hin]; [discriminate|]). contradiction.
Qed.

Lemma hex_pixel_clean word : Forall (fun c => c <> nl) (hex_pixel word).
Proof.
  unfold hex_pixel. rewrite PixelCodecFacts.channels_decode.
  destruct (decode word) as [[r g] b]. unfold fmt_02X. cbn [app].
  repeat (apply Forall_cons; [apply hex_digit_clean|]). apply Forall_nil.
Qed.

Lemma unhex_byte v rest :
  is_u8 v -> unhex (fmt_02X v ++ rest) = v :: unhex rest.
Proof.
  intros Hv. unfold fmt_02X. cbn [app unhex]. f_equal.
  assert (H : all_bytes (fun v => 16 * hex_value (hex_digit (v / 16))
                                  + hex_value (hex_digit (v mod 16)) =? v) = true)
    by (vm_compute; reflexivity).
  unfold all_bytes in H. rewrite forallb_forall in H.
  apply Z.eqb_eq, H, in_upto. unfold is_u8 in Hv. lia.
Qed.

Lemma unhex_pixels buf : unhex (flat_map hex_pixel buf) = frame_bytes buf.
Proof.
  unfold frame_bytes. induction buf as [|word buf IH]; [reflexivity|].
  cbn [flat_map]. unfold hex_pixel at 1. rewrite !PixelCodecFacts.channels_decode.
  destruct (decode word) as [[r g] b] eqn:Hd.
  destruct (decode_bytes _ _ _ _ Hd) as (Hr & Hg & Hb).
  rewrite <- !app_assoc.
  rewrite !unhex_byte by assumption. rewrite IH. reflexivity.
Qed.

(** X18. The hexadecimal export is laid out row by row and loses
    nothing: for a [width] x [height] frame it prints, between its two
    banner lines, one line per row holding the six hexadecimal digits of
    each pixel of that row in R, G, B order; reading the digit pairs back,
    line breaks dropped, gives exactly the frame's R, G, B bytes. *)
Theorem hex_export_lossless (buf : list Z) (width height : Z) :
  frame buf width height ->
  exists body,
    serial_stream_hex (Some buf) width height
    = Done (line "=== HEX IMAGE DATA ==="
              ++ text "Size: " ++ fmt_d width ++ text "x" ++ fmt_d height ++ [nl]
              ++ body ++ line "=== END HEX DATA ===")
    /\ body = flat_map (fun row => flat_map hex_pixel row ++ [nl])
                       (rows_of (Z.to_nat height) (Z.to_nat width) buf)
    /\ unhex (unwrap body) = frame_bytes buf.
Proof.
  intros Hf. assert (Hf' := Hf). destruct Hf' as (Hw & Hh & Hwh & Hlen).
  assert (Hn : length buf = (Z.to_nat height * Z.to_nat width)%nat) by nia.
  eexists. split; [|split; [reflexivity|]].
  - unfold serial_stream_hex.
    rewrite (export_rows (fun _ word => hex_pixel word)
               (fun _ word out =>
                  let '(r, g, b) := decode word in
                  Done (out ++ fmt_02X r ++ fmt_02X g ++ fmt_02X b))
               buf width height Hf).
    2:{ intros col word out. unfold hex_pixel. rewrite PixelCodecFacts.channels_decode.
        destruct (decode word) as [[r g] b]. reflexivity. }
    cbn [bind]. f_equal.
    rewrite <- !app_assoc. do 7 f_equal.
    + apply flat_map_ext_in. intros row Hrow. f_equal.
      apply flat_map_snd. rewrite upto_length.
      pose proof (rows_of_lengths _ _ _ Hn) as Hl.
      rewrite Forall_forall in Hl. rewrite (Hl row Hrow). reflexivity.
  - rewrite (unwrap_lines (flat_map hex_pixel)).
    + rewrite flat_map_rows, concat_rows_of by exact Hn. apply unhex_pixels.
    + intros row. induction row as [|word row IH]; [apply Forall_nil|].
      cbn [flat_map]. apply Forall_app. split; [apply hex_pixel_clean | exact IH].
Qed.

Lemma hex_export_lossless_witness :
  exists body,
    serial_stream_hex (Some Examples.frame_2x2) 2 2
    = Done (line "=== HEX IMAGE DATA ==="
              ++ text "Size: " ++ fmt_d 2 ++ text "x" ++ fmt_d 2 ++ [nl]
              ++ body ++ line "=== END HEX DATA ===")
    /\ body = flat_map (fun row => flat_map hex_pixel row ++ [nl])
                       (rows_of (Z.to_nat 2) (Z.to_nat 2) Examples.frame_2x2)
    /\ unhex (unwrap body) = frame_bytes Examples.frame_2x2.
Proof.
  apply (hex_export_lossless Examples.frame_2x2 2 2).
  unfold frame, INT_MAX. cbn. lia.
Defined.

Lemma sextet_clean n : sextet n <> nl.
Proof.
  unfold sextet.
  destruct (nth_in_or_default (Z.to_nat n) alphabet "="%char) as [Hin| ->];
    [|discriminate].
  revert Hin. generalize (nth (Z.to_nat n) alphabet "="%char).
  intros c Hin. cbn in Hin.
  repeat (destruct Hin as [<-|Hin]; [discriminate|]). contradiction.
Qed.

Lemma base64_frame_step word buf :
  exists r g b,
    decode word = (r, g, b) /\ is_u8 r /\ is_u8 g /\ is_u8 b
    /\ frame_bytes (word :: buf) = r :: g :: b :: frame_bytes buf.
Proof.
  unfold frame_bytes. cbn [flat_map]. rewrite PixelCodecFacts.channels_decode.
  destruct (decode word) as [[r g] b] eqn:Hd.
  destruct (decode_bytes _ _ _ _ Hd) as (Hr & Hg & Hb).
  exists r, g, b. auto.
Qed.

Lemma base64_clean buf : Forall (fun c => c <> nl) (base64 (frame_bytes buf)).
Proof.
  induction buf as [|word buf IH]; [apply Forall_nil|].
  destruct (base64_frame_step word buf) as (r & g & b & _ & _ & _ & _ & ->).
  cbn [base64].
  repeat (apply Forall_cons; [apply sextet_clean|]). exact IH.
Qed.

Lemma unwrap_break_lines cs : forall col,
  Forall (fun c => c <> nl) cs -> unwrap (break_lines 76 col cs) = cs.
Proof.
  induction cs as [|c cs IH]; intros col H; [reflexivity|].
  inversion H as [|? ? Hc Hcs]; subst.
  cbn [break_lines].
  destruct (Datatypes.S col =? 76)%nat; unfold unwrap in *; cbn [filter];
    destruct (Ascii.eqb_spec c nl); try contradiction; cbn [negb].
  - change (Ascii.eqb nl nl) with true. cbn [negb]. rewrite IH by assumption.
    reflexivity.
  - rewrite IH by assumption. reflexivity.
Qed.

Lemma sextet_value_sextet n : 0 <= n < 64 -> sextet_value (sextet n) = n.
Proof.
  intros Hn.
  assert (H : forallb (fun n => sextet_value (sextet n) =? n) (upto 64) = true)
    by (vm_compute; reflexivity).
  rewrite forallb_forall in H. apply Z.eqb_eq, H, in_upto. exact Hn.
Qed.

Lemma unbase64_group r g b rest :
  is_u8 r -> is_u8 g -> is_u8 b ->
  unbase64 (base64 (r :: g :: b :: rest)) = r :: g :: b :: unbase64 (base64 rest).
Proof.
  unfold is_u8. intros Hr Hg Hb. cbn [base64 unbase64].
  set (n := group24 r g b).
  assert (Hn : 0 <= n < 2 ^ 24) by (unfold n, group24; lia).
  rewrite !sextet_value_sextet by (Z.to_euclidean_division_equations; lia).
  replace (((n / 262144 * 64 + n / 4096 mod 64) * 64 + n / 64 mod 64) * 64 + n mod 64)
    with n by (Z.to_euclidean_division_equations; lia).
  unfold n, group24.
  f_equal; [|f_equal; [|f_equal]]; Z.to_euclidean_division_equations; lia.
Qed.

Lemma unbase64_frame buf : unbase64 (base64 (frame_bytes buf)) = frame_bytes buf.
Proof.
  induction buf as [|word buf IH]; [reflexivity|].
  destruct (base64_frame_step word buf) as (r & g & b & _ & Hr & Hg & Hb & ->).
  rewrite unbase64_group by assumption. rewrite IH. reflexivity.
Qed.

(** X19. The base64 export loses nothing: for a [width] x [height] frame
    the text between the dimensions line and the closing newline, with its
    line breaks dropped and every four characters read back as three
    bytes, is exactly the frame's R, G, B bytes. *)
Theorem base64_export_lossless (buf : list Z) (width height : Z) :
  frame buf width height ->
  exists body,
    serial_stream_base64 (Some buf) width height
    = Done (line "<<<BASE64_IMG_START>>>"
              ++ text "WIDTH:" ++ fmt_d width ++ text ",HEIGHT:" ++ fmt_d height
              ++ [nl] ++ body ++ [nl] ++ line "<<<BASE64_IMG_END>>>")
    /\ unbase64 (unwrap body) = frame_bytes buf.
Proof.
  intros Hf. exists (break_lines 76 0 (base64 (frame_bytes buf))).
  split.
  - rewrite (base64_frame buf width height Hf). reflexivity.
  - rewrite unwrap_break_lines by apply base64_clean. apply unbase64_frame.
Qed.

Lemma base64_export_lossless_witness :
  exists body,
    serial_stream_base64 (Some Examples.frame_2x2) 2 2
    = Done (line "<<<BASE64_IMG_START>>>"
              ++ text "WIDTH:" ++ fmt_d 2 ++ text ",HEIGHT:" ++ fmt_d 2
              ++ [nl] ++ body ++ [nl] ++ line "<<<BASE64_IMG_END>>>")
    /\ unbase64 (unwrap body) = frame_bytes Examples.frame_2x2.
Proof.
  apply (base64_export_lossless Examples.frame_2x2 2 2).
  unfold frame, INT_MAX. cbn. lia.
Defined.

(** The plain-text export of a frame returns. *)
Lemma ppm_returns (buf : list Z) (width height : Z) :
  frame buf width height ->
  exists out, serial_stream_ppm (Some buf) width height = Done out.
Proof.
  intros Hf. unfold serial_stream_ppm.
  rewrite (export_rows ppm_pixel
             (fun col word out =>
                let '(r, g, b) := decode word in
                Done (out ++ fmt_d r ++ [space] ++ fmt_d g ++ [space]
                          ++ fmt_d b ++ [space]
                          ++ (if Z.rem (col + 1) 8 =? 0 then [nl] else [])))
             buf width height Hf).
  - eexists. reflexivity.
  - intros col word out. unfold ppm_pixel. rewrite PixelCodecFacts.channels_decode.
    destruct (decode word) as [[r g] b]. reflexivity.
Qed.

(** X20. The plain-text export is laid out row by row: for a
    [width] x [height] frame, after the four header lines, each row of
    the buffer gives its pixels in order, each as three decimal numbers
    followed by a space, with a line break after every eighth pixel of
    the row and one at the row's end (so a row whose width is a multiple
    of eight ends in an empty line). *)
Theorem ppm_export_rows (buf : list Z) (width height : Z) :
  frame buf width height ->
  serial_stream_ppm (Some buf) width height
  = Done (ppm_header width height
            ++ flat_map ppm_row (rows_of (Z.to_nat height) (Z.to_nat width) buf)).
Proof.
  intros Hf. assert (Hf' := Hf). destruct Hf' as (Hw & Hh & Hwh & Hlen).
  assert (Hn : length buf = (Z.to_nat height * Z.to_nat width)%nat) by nia.
  unfold serial_stream_ppm.
  rewrite (export_rows ppm_pixel
             (fun col word out =>
                let '(r, g, b) := decode word in
                Done (out ++ fmt_d r ++ [space] ++ fmt_d g ++ [space]
                          ++ fmt_d b ++ [space]
                          ++ (if Z.rem (col + 1) 8 =? 0 then [nl] else [])))
             buf width height Hf).
  2:{ intros col word out. unfold ppm_pixel. rewrite PixelCodecFacts.channels_decode.
      destruct (decode word) as [[r g] b]. reflexivity. }
  unfold ppm_header. f_equal. f_equal.
  apply flat_map_ext_in. intros row Hrow. unfold ppm_row.
  pose proof (rows_of_lengths _ _ _ Hn) as Hl.
  rewrite Forall_forall in Hl. rewrite (Hl row Hrow), Z2Nat.id by lia.
  reflexivity.
Qed.

Lemma ppm_export_rows_witness :
  serial_stream_ppm (Some Examples.frame_2x2) 2 2
  = Done (ppm_header 2 2
            ++ flat_map ppm_row (rows_of (Z.to_nat 2) (Z.to_nat 2) Examples.frame_2x2)).
Proof.
  apply (ppm_export_rows Examples.frame_2x2 2 2).
  unfold frame, INT_MAX. cbn. lia.
Defined.

End SerialLaws.

(* ------------------------------------------------------------------ *)
(** ** main.c, further: one clean pass of each mode *)

Module MainLaws.
Import Camera Inference Serial Main Spec Notions CameraFacts MainFacts
       InferenceLaws CaptureLaws SerialLaws.

Lemma length_written size (cells0 offered : list Z) :
  size <= Z.of_nat (length cells0) ->
  length (firstn (Z.to_nat size) offered
          ++ skipn (Nat.min (length offered) (Z.to_nat size)) cells0)
  = length cells0.
Proof.
  intros H. rewrite length_app, length_firstn, length_skipn. lia.
Qed.

Lemma admits_zeros m : admits (repeat 0 m) m.
Proof.
  induction m as [|m IH]; [constructor|].
  cbn [repeat]. apply admits_room; [reflexivity | exact IH].
Qed.

Section Cycle.
Variable n : nat.
Variable softmax_fn : list Z -> nat -> list Z.
Variable timer : bool.

(** Start, load the whole input buffer, wait: what main.c does with the
    accelerator after every capture. *)
Lemma start_load_wait (buf : list Z) (hw : cnn_hw) (res0 : inference_result_t) :
  Z.of_nat (length buf) = INPUT_WORDS ->
  admits (fifo_status hw) (Z.to_nat INPUT_WORDS) ->
  Exists (fun t => t <> 0) (wakeups hw) ->
  exists loaded res hw' k,
    inference_load_input (Some buf) INPUT_WORDS (inference_start hw) = Done loaded
    /\ inference_wait n softmax_fn (Some res0) loaded
       = Done (INFERENCE_OK, Some res, hw')
    /\ ops hw' = ops hw ++ [CnnStart] ++ map FifoPush buf
                     ++ repeat Wfi (Datatypes.S k) ++ [CnnUnload]
    /\ raw_output res = cnn_output hw
    /\ inference_time_us res <> 0.
Proof.
  intros Hlen Hadm Hwake.
  destruct (push_words (Z.to_nat INPUT_WORDS) 0 [] buf (inference_start hw))
    as (loaded & Hload & Hops & _ & Htime & Hwk & Hout).
  { rewrite Nat.add_0_r. exact Hadm. }
  { lia. }
  cbn [length app] in Hload.
  rewrite firstn_all2 in Hops by lia.
  destruct (first_wakeup _ Hwake) as (k & t & rest & Hwakes & Ht).
  destruct (find_max n (softmax_fn (cnn_output hw) n)) as [mv mi] eqn:Hf.
  exists loaded. eexists _, _, k. split; [|split].
  - unfold inference_load_input.
    change (upto INPUT_WORDS) with (upto (Z.of_nat (Z.to_nat INPUT_WORDS))).
    rewrite upto_seq. exact Hload.
  - unfold inference_wait. rewrite Htime, Hwk.
    cbn [inference_start cnn_time wakeups].
    rewrite Hwakes, wait_cnn_time_wakes by exact Ht. cbn [bind].
    rewrite Hout. cbn [inference_start cnn_output]. rewrite Hf. reflexivity.
  - cbn [raw_output inference_time_us ops].
    split; [|split; [reflexivity | exact Ht]].
    rewrite Hops. cbn [inference_start ops].
    rewrite <- !app_assoc. reflexivity.
Qed.

(** The capture both modes start with, without overflow. *)
Lemma clean_capture_frame (w : world) (lines : list (list Z)) :
  streams (camera w) lines ->
  Z.of_nat (length (input_buffer w)) = INPUT_WORDS ->
  Z.of_nat (length (data565 w)) = DATA565_SIZE ->
  cam_overflow_count (camera w) <= 0 ->
  exists cap,
    camera_utils_capture (camera w) (Some (input_buffer w)) INPUT_WORDS
                         (Some (data565 w)) DATA565_SIZE = Done cap
    /\ status cap = CAM_STATUS_OK
    /\ cnn_buffer (final cap)
       = Some (firstn (Z.to_nat INPUT_WORDS)
                      (frame_words (Z.to_nat (cam_w (camera w))) lines)
               ++ skipn (Nat.min (length (frame_words (Z.to_nat (cam_w (camera w)))
                                                      lines))
                                 (Z.to_nat INPUT_WORDS))
                        (input_buffer w)).
Proof.
  intros Hs Hin Hd Hov.
  assert (Hin' : INPUT_WORDS <= Z.of_nat (length (input_buffer w))) by lia.
  assert (Hd' : holds (Some (data565 w)) DATA565_SIZE) by (unfold holds; lia).
  destruct (capture_written INPUT_WORDS DATA565_SIZE
              ltac:(unfold INPUT_WORDS, INT_MAX; lia)
              ltac:(unfold DATA565_SIZE, IMAGE_SIZE_X, IMAGE_SIZE_Y, INT_MAX; lia)
              (input_buffer w) Hin'
              (camera w) lines (Some (data565 w)) Hs Hd')
    as (cap & Hcap & Hwr & Hst).
  destruct (Z.gtb_spec (cam_overflow_count (camera w)) 0); [lia|].
  exists cap. split; [exact Hcap|]. split; [exact Hst | exact Hwr].
Qed.

(** X21. One clean pass of [run_single_capture]: when the camera streams
    a whole frame without overflow, the FIFO lets INPUT_WORDS words
    through and the accelerator's interrupt eventually fires, the
    function returns; the capture counter went up by one; the input
    buffer holds the frame's packed words (cut at INPUT_WORDS, the rest of
    the buffer untouched); and the accelerator saw, in this order, the
    start, every word of that buffer, the sleeps until the interrupt, and
    the unload, whose output the result carries. *)
Theorem single_capture_cycle (w : world) (res0 : inference_result_t)
        (lines : list (list Z)) :
  streams (camera w) lines ->
  Z.of_nat (length (input_buffer w)) = INPUT_WORDS ->
  Z.of_nat (length (data565 w)) = DATA565_SIZE ->
  cam_overflow_count (camera w) <= 0 ->
  admits (fifo_status (cnn w)) (Z.to_nat INPUT_WORDS) ->
  Exists (fun t => t <> 0) (wakeups (cnn w)) ->
  exists res w' k,
    run_single_capture n softmax_fn timer (Some res0) w = Done (Returns, Some res, w')
    /\ capture_count w' = int32 (capture_count w + 1)
    /\ input_buffer w'
       = firstn (Z.to_nat INPUT_WORDS)
                (frame_words (Z.to_nat (cam_w (camera w))) lines)
         ++ skipn (Nat.min (length (frame_words (Z.to_nat (cam_w (camera w))) lines))
                           (Z.to_nat INPUT_WORDS))
                  (input_buffer w)
    /\ ops (cnn w')
       = ops (cnn w) ++ [CnnStart] ++ map FifoPush (input_buffer w')
             ++ repeat Wfi (Datatypes.S k) ++ [CnnUnload]
    /\ raw_output res = cnn_output (cnn w)
    /\ inference_time_us res <> 0.
Proof.
  intros Hs Hin Hd Hov Hadm Hwake.
  destruct (clean_capture_frame w lines Hs Hin Hd Hov) as (cap & Hcap & Hst & Hwr).
  set (buf := firstn (Z.to_nat INPUT_WORDS)
                     (frame_words (Z.to_nat (cam_w (camera w))) lines)
              ++ skipn (Nat.min (length (frame_words (Z.to_nat (cam_w (camera w))) lines))
                                (Z.to_nat INPUT_WORDS))
                       (input_buffer w)) in *.
  assert (Hlen : Z.of_nat (length buf) = INPUT_WORDS).
  { unfold buf. rewrite length_written; lia. }
  destruct (start_load_wait buf (cnn w) res0 Hlen Hadm Hwake)
    as (loaded & res & hw' & k & Hload & Hwait & Hops & Hraw & Ht).
  assert (Hframe : frame buf IMAGE_SIZE_X IMAGE_SIZE_Y).
  { unfold frame, IMAGE_SIZE_X, IMAGE_SIZE_Y, INT_MAX, INPUT_WORDS in *. lia. }
  destruct (ppm_returns buf IMAGE_SIZE_X IMAGE_SIZE_Y Hframe) as (ppm & Hppm).
  exists res. eexists _, k. split.
  - unfold run_single_capture, capture_frame.
    cbn [say camera cnn button input_buffer data565 capture_count log].
    rewrite Hcap. cbn [bind]. rewrite Hst.
    cbn [say camera cnn button input_buffer data565 capture_count log cells].
    rewrite Hwr. cbn [cells].
    rewrite Hload. cbn [bind]. rewrite Hwait. cbn [bind].
    unfold present.
    cbn [with_cnn say camera cnn button input_buffer data565 capture_count log].
    rewrite Hppm. cbn [bind]. reflexivity.
  - cbn [say with_cnn camera cnn button input_buffer data565 capture_count log].
    auto.
Qed.

(** X22. One clean pass of the live-feed loop body: with the button
    released, a frame streamed without overflow, a FIFO that lets
    INPUT_WORDS words through and an interrupt that eventually fires, the
    pass ends normally with the frame counter one higher; the accelerator
    saw the start, every word of the freshly captured input buffer, the
    sleeps and the unload; the capture counter of the single-shot mode is
    not touched. With the button pressed the pass leaves the loop at once:
    no capture, nothing sent to the accelerator, same frame counter. *)
Theorem live_feed_pass (w : world) (frame_count : Z) (lines : list (list Z)) :
  streams (camera w) lines ->
  Z.of_nat (length (input_buffer w)) = INPUT_WORDS ->
  Z.of_nat (length (data565 w)) = DATA565_SIZE ->
  cam_overflow_count (camera w) <= 0 ->
  admits (fifo_status (cnn w)) (Z.to_nat INPUT_WORDS) ->
  Exists (fun t => t <> 0) (wakeups (cnn w)) ->
  (button w = false ->
   exists w' k,
     live_feed_frame n softmax_fn frame_count w
     = Done (Next, int32 (frame_count + 1), w')
     /\ capture_count w' = capture_count w
     /\ input_buffer w'
        = firstn (Z.to_nat INPUT_WORDS)
                 (frame_words (Z.to_nat (cam_w (camera w))) lines)
          ++ skipn (Nat.min (length (frame_words (Z.to_nat (cam_w (camera w))) lines))
                            (Z.to_nat INPUT_WORDS))
                   (input_buffer w)
     /\ ops (cnn w')
        = ops (cnn w) ++ [CnnStart] ++ map FifoPush (input_buffer w')
              ++ repeat Wfi (Datatypes.S k) ++ [CnnUnload])
  /\ (button w = true ->
      exists w',
        live_feed_frame n softmax_fn frame_count w = Done (Break, frame_count, w')
        /\ cnn w' = cnn w /\ input_buffer w' = input_buffer w
        /\ capture_count w' = capture_count w).
Proof.
  intros Hs Hin Hd Hov Hadm Hwake. split.
  - intros Hb.
    destruct (clean_capture_frame w lines Hs Hin Hd Hov) as (cap & Hcap & Hst & Hwr).
    set (buf := firstn (Z.to_nat INPUT_WORDS)
                       (frame_words (Z.to_nat (cam_w (camera w))) lines)
                ++ skipn (Nat.min (length (frame_words (Z.to_nat (cam_w (camera w)))
                                                       lines))
                                  (Z.to_nat INPUT_WORDS))
                         (input_buffer w)) in *.
    assert (Hlen : Z.of_nat (length buf) = INPUT_WORDS).
    { unfold buf. rewrite length_written; lia. }
    destruct (start_load_wait buf (cnn w)
                {| raw_output := []; softmax := []; predicted_class := 0;
                   confidence_percent := 0; inference_time_us := 0 |}
                Hlen Hadm Hwake)
      as (loaded & res & hw' & k & Hload & Hwait & Hops & _ & _).
    eexists _, k. split.
    + unfold live_feed_frame, capture_frame. rewrite Hb, Hcap. cbn [bind].
      rewrite Hst.
      cbn [say camera cnn button input_buffer data565 capture_count log cells].
      rewrite Hwr. cbn [cells].
      rewrite Hload. cbn [bind]. rewrite Hwait. cbn [bind]. reflexivity.
    + cbn [say with_cnn camera cnn button input_buffer data565 capture_count log].
      auto.
  - intros Hb. unfold live_feed_frame. rewrite Hb.
    eexists. split; [reflexivity|].
    cbn [say cnn input_buffer capture_count]. auto.
Qed.

End Cycle.

Lemma clean_world_streams : streams (camera Examples.clean_world) [[255; 0; 128; 0]].
Proof. apply one_line_streams; cbn; try reflexivity; lia. Qed.

Lemma single_capture_cycle_witness :
  exists res w' k,
    run_single_capture 2 (fun raw _ => raw) false (Some Examples.empty_result)
                       Examples.clean_world
    = Done (Returns, Some res, w')
    /\ capture_count w' = int32 (capture_count Examples.clean_world + 1)
    /\ input_buffer w'
       = firstn (Z.to_nat INPUT_WORDS)
                (frame_words (Z.to_nat (cam_w (camera Examples.clean_world)))
                             [[255; 0; 128; 0]])
         ++ skipn (Nat.min (length (frame_words
                                      (Z.to_nat (cam_w (camera Examples.clean_world)))
                                      [[255; 0; 128; 0]]))
                           (Z.to_nat INPUT_WORDS))
                  (input_buffer Examples.clean_world)
    /\ ops (cnn w')
       = ops (cnn Examples.clean_world) ++ [CnnStart] ++ map FifoPush (input_buffer w')
             ++ repeat Wfi (Datatypes.S k) ++ [CnnUnload]
    /\ raw_output res = cnn_output (cnn Examples.clean_world)
    /\ inference_time_us res <> 0.
Proof.
  apply (single_capture_cycle 2 (fun raw _ => raw) false Examples.clean_world
           Examples.empty_result [[255; 0; 128; 0]]).
  - exact clean_world_streams.
  - vm_compute. reflexivity.
  - vm_compute. reflexivity.
  - cbn. lia.
  - apply admits_zeros.
  - cbn. apply Exists_cons_tl, Exists_cons_hd. lia.
Defined.

Lemma live_feed_pass_witness :
  (button Examples.clean_world = false ->
   exists w' k,
     live_feed_frame 2 (fun raw _ => raw) 41 Examples.clean_world
     = Done (Next, int32 (41 + 1), w')
     /\ capture_count w' = capture_count Examples.clean_world
     /\ input_buffer w'
        = firstn (Z.to_nat INPUT_WORDS)
                 (frame_words (Z.to_nat (cam_w (camera Examples.clean_world)))
                              [[255; 0; 128; 0]])
          ++ skipn (Nat.min (length (frame_words
                                       (Z.to_nat (cam_w (camera Examples.clean_world)))
                                       [[255; 0; 128; 0]]))
                            (Z.to_nat INPUT_WORDS))
                   (input_buffer Examples.clean_world)
     /\ ops (cnn w')
        = ops (cnn Examples.clean_world) ++ [CnnStart]
              ++ map FifoPush (input_buffer w')
              ++ repeat Wfi (Datatypes.S k) ++ [CnnUnload])
  /\ (button Examples.clean_world = true ->
      exists w',
        live_feed_frame 2 (fun raw _ => raw) 41 Examples.clean_world
        = Done (Break, 41, w')
        /\ cnn w' = cnn Examples.clean_world
        /\ input_buffer w' = input_buffer Examples.clean_world
        /\ capture_count w' = capture_count Examples.clean_world).
Proof.
  apply (live_feed_pass 2 (fun raw _ => raw) Examples.clean_world 41
           [[255; 0; 128; 0]]).
  - exact clean_world_streams.
  - vm_compute. reflexivity.
  - vm_compute. reflexivity.
  - cbn. lia.
  - apply admits_zeros.
  - cbn. apply Exists_cons_tl, Exists_cons_hd. lia.
Defined.

End MainLaws.

(* ------------------------------------------------------------------ *)
(** ** tft_utils.c *)

Module TftLaws.
Import PixelCodec Main Tft Spec Notions CameraFacts SerialFacts DisplayLaws
       CaptureLaws SerialLaws.

Lemma poke_app pre x post v :
  poke (pre ++ x :: post) (Z.of_nat (length pre)) v = Done (pre ++ v :: post).
Proof.
  unfold poke. rewrite length_app. cbn [length].
  replace ((0 <=? Z.of_nat (length pre))
           && (Z.of_nat (length pre) <? Z.of_nat (length pre + S (length post))))
    with true
    by (symmetry; apply andb_true_iff; split; [apply Z.leb_le | apply Z.ltb_lt]; lia).
  rewrite Nat2Z.id, update_app_middle. reflexivity.
Qed.

Lemma length_rgb565_bytes (row : list Z) :
  length (flat_map rgb565_bytes row) = (2 * length row)%nat.
Proof.
  induction row as [|word row IH]; [reflexivity|].
  cbn [flat_map length]. rewrite length_app, IH.
  unfold rgb565_bytes. rewrite PixelCodecFacts.channels_decode.
  destruct (decode word) as [[r g] b]. cbn [length]. lia.
Qed.

Lemma skipn_two {A} (l : list A) m :
  (m + 2 <= length l)%nat ->
  exists a b, skipn m l = a :: b :: skipn (m + 2) l.
Proof.
  intros H.
  destruct (skipn_next l m ltac:(lia)) as (a & Ha & _).
  destruct (skipn_next l (Datatypes.S m) ltac:(lia)) as (b & Hb & _).
  exists a, b. rewrite Ha, Hb. do 3 f_equal. lia.
Qed.

Section Rows.
Variables (buf : list Z) (width height : Z).
Hypothesis buf_frame : frame buf width height.

Lemma convert_columns (row : Z) (line0 : list Z) :
  0 <= row < height ->
  length line0 = Z.to_nat (TFT_WIDTH * 2) ->
  forall m : nat,
    Z.of_nat m <= width -> Z.of_nat m <= TFT_WIDTH ->
    for_each (upto (Z.of_nat m)) (convert_pixel buf row width) (line0, 0)
    = Done (flat_map rgb565_bytes (row_prefix buf width row m) ++ skipn (2 * m) line0,
            2 * Z.of_nat m).
Proof.
  destruct buf_frame as (Hw & Hh & Hwh & Hlen).
  intros Hrow Hline. unfold TFT_WIDTH in *.
  induction m as [|m IH]; intros Hm Hm'.
  - reflexivity.
  - replace (Z.of_nat (Datatypes.S m)) with (Z.of_nat m + 1) by lia.
    rewrite upto_succ, for_each_app by lia.
    rewrite IH by lia. cbn [bind for_each]. unfold convert_pixel.
    assert (Hidx : 0 <= row * width + Z.of_nat m < width * height) by nia.
    unfold INT_MAX in Hwh.
    rewrite (int32_small (row * width)) by nia.
    rewrite (int32_small (row * width + Z.of_nat m)) by lia.
    rewrite load_nth by lia. cbn [bind].
    unfold row_prefix. rewrite seq_S, map_app, flat_map_app. cbn [map flat_map Nat.add].
    rewrite app_nil_r. fold (row_prefix buf width row m).
    set (word := nth (Z.to_nat (row * width + Z.of_nat m)) buf 0).
    destruct (decode word) as [[r g] b] eqn:Hd.
    assert (Hb : rgb565_bytes word
                 = [u8 (Z.land (Z.shiftr (to_rgb565 r g b) 8) 255);
                    u8 (Z.land (to_rgb565 r g b) 255)])
      by (unfold rgb565_bytes; rewrite PixelCodecFacts.channels_decode, Hd; reflexivity).
    rewrite Hb.
    pose proof (length_rgb565_bytes (row_prefix buf width row m)) as Hpre.
    assert (Hrp : length (row_prefix buf width row m) = m)
      by (unfold row_prefix; rewrite length_map, length_seq; reflexivity).
    rewrite Hrp in Hpre.
    destruct (skipn_two line0 (2 * m) ltac:(lia)) as (c0 & c1 & ->).
    replace (2 * Z.of_nat m) with (Z.of_nat (length (flat_map rgb565_bytes (row_prefix buf width row m))))
      by lia.
    rewrite poke_app. cbn [bind].
    rewrite int32_small by lia.
    set (pre := flat_map rgb565_bytes (row_prefix buf width row m)) in *.
    assert (E : pre ++ u8 (Z.land (Z.shiftr (to_rgb565 r g b) 8) 255)
                    :: c1 :: skipn (2 * m + 2) line0
                = (pre ++ [u8 (Z.land (Z.shiftr (to_rgb565 r g b) 8) 255)])
                    ++ c1 :: skipn (2 * m + 2) line0)
      by (rewrite <- app_assoc; reflexivity).
    rewrite E.
    replace (Z.of_nat (length pre) + 1)
      with (Z.of_nat (length (pre ++ [u8 (Z.land (Z.shiftr (to_rgb565 r g b) 8) 255)])))
      by (rewrite length_app; cbn [length]; lia).
    rewrite poke_app. cbn [bind].
    rewrite int32_small by lia.
    f_equal. f_equal.
    + rewrite <- !app_assoc. cbn [app].
      replace (2 * Datatypes.S m)%nat with (2 * m + 2)%nat by lia. reflexivity.
    + lia.
Qed.

Lemma row_prefix_row (row : nat) :
  Z.of_nat row < height ->
  row_prefix buf width (Z.of_nat row) (Z.to_nat width)
  = nth row (rows_of (Z.to_nat height) (Z.to_nat width) buf) [].
Proof.
  destruct buf_frame as (Hw & Hh & Hwh & Hlen). intros Hrow.
  unfold rows_of.
  rewrite (nth_indep _ [] (firstn (Z.to_nat width) (skipn (0 * Z.to_nat width) buf)))
    by (rewrite length_map, length_seq; lia).
  rewrite (map_nth (fun k => firstn (Z.to_nat width) (skipn (k * Z.to_nat width) buf))).
  rewrite seq_nth by lia. cbn [Nat.add].
  rewrite <- segment_nth by nia.
  unfold row_prefix. apply map_ext. intros col. f_equal. nia.
Qed.

Lemma display_row_line (x y : Z) (row : nat) (t : tft) :
  Z.of_nat row < height -> width <= TFT_WIDTH ->
  length (rgb565_line t) = Z.to_nat (TFT_WIDTH * 2) ->
  display_row buf x y width (Z.of_nat row) t
  = Done {| s_tft_initialized := s_tft_initialized t;
            rgb565_line := line_of (nth row (rows_of (Z.to_nat height)
                                                     (Z.to_nat width) buf) [])
                                   (rgb565_line t);
            driver := driver t
                      ++ [WriteBufferRGB565 x (int32 (y + Z.of_nat row))
                            (line_of (nth row (rows_of (Z.to_nat height)
                                                       (Z.to_nat width) buf) [])
                                     (rgb565_line t))
                            width 1];
            printed := printed t |}.
Proof.
  intros Hrow Hwide Hline. assert (Hf := buf_frame).
  destruct Hf as (Hw & Hh & Hwh & Hlen).
  unfold display_row.
  replace width with (Z.of_nat (Z.to_nat width)) at 1 by lia.
  rewrite (convert_columns (Z.of_nat row) (rgb565_line t)) by lia.
  cbn [bind].
  rewrite row_prefix_row by lia.
  unfold line_of.
  assert (Hl : length (nth row (rows_of (Z.to_nat height) (Z.to_nat width) buf) [])
               = Z.to_nat width).
  { rewrite <- row_prefix_row by lia. unfold row_prefix.
    rewrite length_map, length_seq. reflexivity. }
  rewrite Hl. reflexivity.
Qed.

End Rows.

Lemma skipn_line_of (row old : list Z) :
  (2 * length row <= length old)%nat ->
  skipn (2 * length row) (line_of row old) = skipn (2 * length row) old
  /\ length (line_of row old) = length old.
Proof.
  intros H. unfold line_of. pose proof (length_rgb565_bytes row) as Hl. split.
  - rewrite skipn_app, Hl, Nat.sub_diag. cbn [skipn].
    rewrite skipn_all2 by lia. reflexivity.
  - rewrite length_app, length_skipn. lia.
Qed.

(** X23. [tft_utils_display_cnn_buffer] on an initialised display: for a
    [width] x [height] frame no wider than the display (TFT_WIDTH), the
    call returns after sending the driver exactly one one-line write per
    row, top to bottom: row k goes to line y + k at column x, with the
    frame's width, from the line buffer whose first 2 width bytes are the
    RGB565 values of that row's pixels, high byte first. *)
Theorem frame_sent_line_by_line (buf : list Z) (x y width height : Z) (t : tft) :
  frame buf width height ->
  width <= TFT_WIDTH ->
  s_tft_initialized t <> 0 ->
  length (rgb565_line t) = Z.to_nat (TFT_WIDTH * 2) ->
  exists t',
    tft_utils_display_cnn_buffer x y width height (Some buf) t = Done t'
    /\ driver t'
       = driver t
         ++ map (fun k =>
                   WriteBufferRGB565 x (int32 (y + Z.of_nat k))
                     (line_of (nth k (rows_of (Z.to_nat height) (Z.to_nat width) buf) [])
                              (rgb565_line t))
                     width 1)
                (seq 0 (Z.to_nat height))
    /\ s_tft_initialized t' = s_tft_initialized t
    /\ printed t' = printed t.
Proof.
  intros Hf Hwide Hinit Hline. assert (Hf' := Hf).
  destruct Hf' as (Hw & Hh & Hwh & Hlen).
  unfold tft_utils_display_cnn_buffer.
  destruct (Z.eqb_spec (s_tft_initialized t) 0) as [E|_]; [contradiction|].
  set (rows := rows_of (Z.to_nat height) (Z.to_nat width) buf).
  assert (Hrows : forall k, (k < Z.to_nat height)%nat ->
                            length (nth k rows []) = Z.to_nat width).
  { intros k Hk. unfold rows. rewrite <- (row_prefix_row buf width height Hf) by lia.
    unfold row_prefix. rewrite length_map, length_seq. reflexivity. }
  unfold TFT_WIDTH in *.
  destruct (for_each_indexed
              (fun m s =>
                 s_tft_initialized s = s_tft_initialized t
                 /\ printed s = printed t
                 /\ length (rgb565_line s) = length (rgb565_line t)
                 /\ skipn (2 * Z.to_nat width) (rgb565_line s)
                    = skipn (2 * Z.to_nat width) (rgb565_line t)
                 /\ driver s
                    = driver t
                      ++ map (fun k =>
                                WriteBufferRGB565 x (int32 (y + Z.of_nat k))
                                  (line_of (nth k rows []) (rgb565_line t)) width 1)
                             (seq 0 m))
              (upto height) (display_row buf x y width) 0%nat)
    with (s := t) as (t' & Hrun & Hi & Hp & _ & _ & Hd).
  - intros m i s Hi (Hsi & Hsp & Hsl & Hsk & Hsd). cbn [Nat.add] in *.
    apply nth_upto in Hi. destruct Hi as [-> Hm].
    rewrite (display_row_line buf width height Hf x y m s Hm)
      by (unfold TFT_WIDTH; lia).
    fold rows.
    assert (Hl := Hrows m ltac:(lia)).
    assert (Eline : line_of (nth m rows []) (rgb565_line s)
                    = line_of (nth m rows []) (rgb565_line t)).
    { unfold line_of. rewrite Hl, Hsk. reflexivity. }
    rewrite Eline.
    destruct (skipn_line_of (nth m rows []) (rgb565_line t) ltac:(lia)) as [Hk1 Hk2].
    rewrite Hl in Hk1.
    eexists. split; [reflexivity|]. cbn [s_tft_initialized printed rgb565_line driver].
    split; [exact Hsi|]. split; [exact Hsp|]. split; [exact Hk2|].
    split; [exact Hk1|].
    rewrite Hsd, seq_S, map_app, <- app_assoc. reflexivity.
  - cbn [seq map]. rewrite app_nil_r. auto.
  - exists t'. cbn [Nat.add] in Hd. rewrite upto_length in Hd.
    split; [exact Hrun|]. auto.
Qed.

Lemma frame_sent_line_by_line_witness :
  exists t',
    tft_utils_display_cnn_buffer 0 0 2 2 (Some Examples.frame_2x2) lit_display
    = Done t'
    /\ driver t'
       = driver lit_display
         ++ map (fun k =>
                   WriteBufferRGB565 0 (int32 (0 + Z.of_nat k))
                     (line_of (nth k (rows_of (Z.to_nat 2) (Z.to_nat 2)
                                              Examples.frame_2x2) [])
                              (rgb565_line lit_display))
                     2 1)
                (seq 0 (Z.to_nat 2))
    /\ s_tft_initialized t' = s_tft_initialized lit_display
    /\ printed t' = printed lit_display.
Proof.
  apply (frame_sent_line_by_line Examples.frame_2x2 0 0 2 2 lit_display).
  - unfold frame, INT_MAX. cbn. lia.
  - unfold TFT_WIDTH. lia.
  - cbn. lia.
  - vm_compute. reflexivity.
Defined.

Lemma upto_split_at a : 0 <= a -> forall k : nat,
  exists tail, upto (a + 1 + Z.of_nat k) = upto a ++ a :: tail.
Proof.
  intros Ha. induction k as [|k IH].
  - exists []. rewrite Z.add_0_r. apply upto_succ. exact Ha.
  - destruct IH as (tail & IH).
    exists (tail ++ [a + 1 + Z.of_nat k]).
    replace (a + 1 + Z.of_nat (Datatypes.S k)) with (a + 1 + Z.of_nat k + 1) by lia.
    rewrite upto_succ, IH by lia. rewrite <- app_assoc. reflexivity.
Qed.

Lemma poke_outside cells i v :
  Z.of_nat (length cells) <= i -> poke cells i v = Undefined.
Proof.
  intros H. unfold poke.
  destruct (Z.ltb_spec i (Z.of_nat (length cells))); [lia|].
  rewrite andb_false_r. reflexivity.
Qed.

(** X24. [tft_utils_display_cnn_buffer] does not compare the width with
    its line buffer of TFT_WIDTH pixels: for a frame wider than TFT_WIDTH
    with at least one row, on an initialised display, the pixel in column
    TFT_WIDTH of the first row is stored past the end of the line buffer
    and the call is undefined. *)
Theorem wide_frame_overruns_line (buf : list Z) (x y width height : Z) (t : tft) :
  frame buf width height ->
  TFT_WIDTH < width ->
  1 <= height ->
  s_tft_initialized t <> 0 ->
  length (rgb565_line t) = Z.to_nat (TFT_WIDTH * 2) ->
  tft_utils_display_cnn_buffer x y width height (Some buf) t = Undefined.
Proof.
  intros Hf Hwide Hh Hinit Hline. assert (Hf' := Hf).
  destruct Hf' as (Hw & _ & Hwh & Hlen). unfold INT_MAX in Hwh.
  unfold tft_utils_display_cnn_buffer.
  destruct (Z.eqb_spec (s_tft_initialized t) 0) as [E|_]; [contradiction|].
  destruct (upto_first height Hh) as (rows & ->).
  cbn [for_each]. unfold display_row.
  unfold TFT_WIDTH in *.
  destruct (upto_split_at 320 ltac:(lia) (Z.to_nat (width - 321))) as (tail & Hsplit).
  replace (320 + 1 + Z.of_nat (Z.to_nat (width - 321))) with width in Hsplit by lia.
  rewrite Hsplit, for_each_app.
  change 320 with (Z.of_nat 320) at 1.
  rewrite (convert_columns buf width height Hf 0 (rgb565_line t))
    by (unfold TFT_WIDTH; lia).
  cbn [bind for_each]. unfold convert_pixel at 1.
  rewrite (int32_small (0 * width)) by lia.
  rewrite int32_small by lia.
  rewrite load_nth by nia. cbn [bind].
  destruct (decode _) as [[r g] b].
  rewrite poke_outside; [reflexivity|].
  rewrite length_app, length_rgb565_bytes, length_skipn.
  unfold row_prefix. rewrite length_map, length_seq. lia.
Qed.

Lemma wide_frame_overruns_line_witness :
  tft_utils_display_cnn_buffer 0 0 321 1 (Some (repeat 0 321)) lit_display
  = Undefined.
Proof.
  apply (wide_frame_overruns_line (repeat 0 321) 0 0 321 1 lit_display).
  - unfold frame, INT_MAX. rewrite repeat_length. lia.
  - unfold TFT_WIDTH. lia.
  - lia.
  - cbn. lia.
  - vm_compute. reflexivity.
Defined.

(** X25. Nothing of tft_utils.c draws on the display before
    [tft_utils_init] succeeded: while [s_tft_initialized] is 0, every
    drawing function returns at once, without calling the driver, reading
    its buffers or touching its state, whatever its arguments; and a
    failed [tft_utils_init] reports an error and leaves the module in
    that state, so that a program that goes on without the display, as
    main.c does, never reaches the driver again. *)
Theorem nothing_drawn_before_init (t : tft) :
  dark t ->
  (forall x y width height data,
      tft_utils_display_image x y width height data t = t)
  /\ (forall x y width height cnn_buffer,
         tft_utils_display_cnn_buffer x y width height cnn_buffer t = Done t)
  /\ (forall x y s fg bg, tft_utils_print x y s fg bg t = t)
  /\ (forall names confidences num_classes predicted_class,
         tft_utils_show_results names confidences num_classes predicted_class t
         = Done t)
  /\ (forall color, tft_utils_clear color t = t)
  /\ (forall x y width height color,
         tft_utils_fill_rect x y width height color t = t)
  /\ (forall ret, ret <> E_NO_ERROR ->
                  fst (tft_utils_init ret t) = TFT_STATUS_ERROR
                  /\ dark (snd (tft_utils_init ret t))
                  /\ driver (snd (tft_utils_init ret t)) = driver t ++ [TftInit]).
Proof.
  unfold dark. intros Hd.
  unfold tft_utils_display_image, tft_utils_display_cnn_buffer, tft_utils_print,
    tft_utils_show_results, tft_utils_clear, tft_utils_fill_rect, tft_utils_init.
  rewrite Hd. cbn [Z.eqb].
  repeat split; try reflexivity;
    destruct (Z.eqb_spec ret E_NO_ERROR); try contradiction; cbn; auto.
Qed.

Lemma nothing_drawn_before_init_witness :
  (forall x y width height data,
      tft_utils_display_image x y width height data dark_display = dark_display)
  /\ (forall x y width height cnn_buffer,
         tft_utils_display_cnn_buffer x y width height cnn_buffer dark_display
         = Done dark_display)
  /\ (forall x y s fg bg, tft_utils_print x y s fg bg dark_display = dark_display)
  /\ (forall names confidences num_classes predicted_class,
         tft_utils_show_results names confidences num_classes predicted_class
                                dark_display
         = Done dark_display)
  /\ (forall color, tft_utils_clear color dark_display = dark_display)
  /\ (forall x y width height color,
         tft_utils_fill_rect x y width height color dark_display = dark_display)
  /\ (forall ret, ret <> E_NO_ERROR ->
                  fst (tft_utils_init ret dark_display) = TFT_STATUS_ERROR
                  /\ dark (snd (tft_utils_init ret dark_display))
                  /\ driver (snd (tft_utils_init ret dark_display))
                     = driver dark_display ++ [TftInit]).
Proof.
  apply (nothing_drawn_before_init dark_display). reflexivity.
Defined.

End TftLaws.

(* ------------------------------------------------------------------ *)
(** ** The byte-image preview and the mode selection *)

Module PreviewLaws.
Import PixelCodec Camera Display Spec Notions DisplayFacts DisplayLaws.

(** X26. [display_ascii_art] returns the sampled picture of a byte image:
    for an image of [width] x [height] pixels of four bytes each, a ramp
    of 1 to 2^24 characters (the standard one when [brightness] is NULL)
    and any ratio (raised to 1 when below), it prints one line per
    [2 ratio]-th row and in it one ramp character per [ratio]-th column,
    each the shade of the luminance of the first three bytes of that
    pixel; it reads only bytes of the image. *)
Theorem image_preview (fuel : nat) (bytes : list Z) (width height ratio : Z)
        (brightness : option (list ascii)) :
  0 <= width -> 0 <= height ->
  4 * (width * height) <= INT_MAX ->
  4 * (width * height) <= Z.of_nat (length bytes) ->
  1 <= Z.of_nat (length (ramp_of brightness)) <= 2 ^ 24 ->
  height + 2 * Z.max ratio 1 <= INT_MAX ->
  width + Z.max ratio 1 <= INT_MAX ->
  Z.max width height <= Z.of_nat fuel ->
  display_ascii_art fuel (Some bytes) width height ratio brightness
  = Done (preview_bytes (ramp_of brightness) bytes width height (Z.max ratio 1)).
Proof.
  intros Hw Hh Hwh Hlen Hn Hhr Hwr Hfuel.
  unfold display_ascii_art, preview_bytes, INT_MAX in *.
  fold (ramp_of brightness).
  replace (if ratio <? 1 then 1 else ratio) with (Z.max ratio 1)
    by (destruct (Z.ltb_spec ratio 1); lia).
  set (r := Z.max ratio 1) in *.
  assert (Hr : 1 <= r) by lia.
  rewrite (int32_small (r * 2)) by lia.
  replace (r * 2) with (2 * r) by lia.
  rewrite for_step_is_strided by lia.
  rewrite (for_each_lines
             (fun y => map (fun x => shade_bytes (ramp_of brightness) bytes (y * width + x))
                           (strided width r) ++ [nl])).
  { reflexivity. }
  intros y out Hy. apply in_strided in Hy; [|lia].
  rewrite for_step_is_strided by lia.
  rewrite (for_each_chars
             (fun x => shade_bytes (ramp_of brightness) bytes (y * width + x))).
  { cbn [bind]. rewrite <- app_assoc. reflexivity. }
  intros x out' Hx. apply in_strided in Hx; [|lia].
  assert (Hidx : 0 <= y * width + x < width * height) by nia.
  rewrite (int32_small (y * width)) by nia.
  rewrite (int32_small (y * width + x)) by lia.
  rewrite int32_small by lia.
  replace ((y * width + x) * 4) with (4 * (y * width + x)) by lia.
  rewrite !load_nth by lia. cbn [bind].
  unfold shade_bytes.
  destruct (glyph_shade (ramp_of brightness)
              (luminance (u8 (nth (Z.to_nat (4 * (y * width + x))) bytes 0))
                         (u8 (nth (Z.to_nat (4 * (y * width + x) + 1)) bytes 0))
                         (u8 (nth (Z.to_nat (4 * (y * width + x) + 2)) bytes 0)))
              Hn (luminance_byte _ _ _)) as [-> _].
  reflexivity.
Qed.

Lemma image_preview_witness :
  display_ascii_art 2 (Some [0; 0; 0; 0; 255; 255; 255; 0]) 2 1 0 None
  = Done (preview_bytes (ramp_of None) [0; 0; 0; 0; 255; 255; 255; 0] 2 1 (Z.max 0 1)).
Proof.
  apply (image_preview 2 [0; 0; 0; 0; 255; 255; 255; 0] 2 1 0 None);
    unfold INT_MAX; cbn; lia.
Defined.

End PreviewLaws.

Module ModeLaws.
Import Main.

Lemma wait_press_released (a : nat) (rest : list bool) :
  wait_press (repeat false a ++ true :: rest) = Done rest.
Proof. induction a as [|a IH]; cbn; [reflexivity | exact IH]. Qed.

Lemma hold_pressed (k : nat) : forall (c : Z) (rest : list bool),
  0 <= c -> c + Z.of_nat k <= 10 ->
  hold (repeat true k ++ rest) c = hold rest (c + Z.of_nat k).
Proof.
  induction k as [|k IH]; intros c rest Hc Hk.
  - cbn [repeat app]. rewrite Z.add_0_r. reflexivity.
  - cbn [repeat app hold andb].
    destruct (Z.ltb_spec c 10); [|lia].
    rewrite int32_small by lia.
    rewrite IH by lia. f_equal. lia.
Qed.

(** X27. How [run_inference_loop] tells a long press from a short one:
    after the read that finds the button pressed, the button is read again
    every 100 ms; when it is released at one of the next ten reads the
    single capture runs, after as many delays as reads found it pressed;
    when all ten find it pressed the live feed runs, after ten delays and
    one more read of the button whose value does not matter. *)
Theorem mode_by_hold (waiting held : nat) (last : bool) (rest : list bool) :
  (held < 10)%nat ->
  select_mode (repeat false waiting ++ true :: repeat true held ++ false :: rest)
  = Done (SingleCapture, Z.of_nat held, rest)
  /\ select_mode (repeat false waiting ++ true :: repeat true 10 ++ last :: rest)
     = Done (LiveFeed, 10, rest).
Proof.
  intros Hheld. unfold select_mode. split.
  - rewrite wait_press_released. cbn [bind].
    rewrite hold_pressed by lia. cbn [hold andb bind Z.add].
    destruct (Z.geb_spec (Z.of_nat held) 10); [lia | reflexivity].
  - rewrite wait_press_released. cbn [bind].
    rewrite (hold_pressed 10) by lia.
    change (0 + Z.of_nat 10) with 10.
    cbn [hold]. change (10 <? 10) with false. rewrite andb_false_r.
    reflexivity.
Qed.

Lemma mode_by_hold_witness :
  select_mode (repeat false 3 ++ true :: repeat true 4 ++ false :: [true])
  = Done (SingleCapture, Z.of_nat 4, [true])
  /\ select_mode (repeat false 3 ++ true :: repeat true 10 ++ true :: [true])
     = Done (LiveFeed, 10, [true]).
Proof.
  apply (mode_by_hold 3 4 true [true]). lia.
Defined.

End ModeLaws.
